(** * Cinema seat booking: the reservation transactions of [app.js]

    A shallow embedding of the server half of [src/app.js] (the Express
    routes that talk to MySQL through one [mysql2] connection) and of the
    parts of the browser half that validate the two forms and escape
    text for HTML.

    The SQL text of the source is embedded statement by statement
    ([Cmd]); the callback nesting of each route is embedded as a program
    in continuation-passing style ([Prog]); the MySQL session behind the
    single connection [db] is a state ([Conn]) on which statements are
    executed ([exec]).  Two semantics are given to programs: [run], which
    executes one handler from its first statement to its response, and
    [Machine], the FIFO command queue of the shared connection on which
    the callbacks of several requests interleave. *)

From Stdlib Require Import String Ascii List Bool Arith PeanoNat NArith Lia.
From Stdlib Require Import Permutation DecimalString Sorted.
Import ListNotations.
Local Open Scope string_scope.
Local Open Scope nat_scope.
Local Open Scope list_scope.

(* ================================================================== *)
(** * Part I: definitions *)
(* ================================================================== *)

(** ** Rows and tables (the two CREATE TABLE statements of [createTables]) *)

(** [seat_type ENUM('regular', 'premium')] *)
Inductive SeatType : Type := regular | premium.

(** [status ENUM('confirmed', 'cancelled')] *)
Inductive Status : Type := confirmed | cancelled.

(** A row of [seats].  [price DECIMAL(10, 2)] is kept in hundredths:
    200.00 is [20000]. *)
Record Seat : Type := mkSeat {
  s_id : nat;
  s_seat_number : string;
  s_movie_name : string;
  s_show_time : string;
  s_is_available : bool;
  s_seat_type : SeatType;
  s_price : N
}.

(** A row of [bookings].  [booking_date] is the server clock at insertion
    ([DEFAULT CURRENT_TIMESTAMP]). *)
Record Booking : Type := mkBooking {
  b_id : nat;
  b_user_name : string;
  b_email : string;
  b_phone : string;
  b_movie_name : string;
  b_show_time : string;
  b_seat_number : string;
  b_booking_date : nat;
  b_status : Status
}.

Record Tables : Type := mkTables {
  seats : list Seat;
  bookings : list Booking
}.

(** The session behind [db]: the tables as this connection sees them, the
    tables as they were at START TRANSACTION when a transaction is open
    (what ROLLBACK restores), and the two AUTO_INCREMENT counters, which
    are not transactional. *)
Record Conn : Type := mkConn {
  tables : Tables;
  snapshot : option Tables;
  seats_auto_increment : nat;
  bookings_auto_increment : nat
}.

(** Both tables exist and are empty: the state after the two CREATE TABLE
    statements on a fresh database. *)
Definition empty_db : Conn :=
  mkConn (mkTables [] []) None 1 1.

Definition Status_eqb (a b : Status) : bool :=
  match a, b with
  | confirmed, confirmed => true
  | cancelled, cancelled => true
  | _, _ => false
  end.

(** [WHERE seat_number = ? AND movie_name = ? AND show_time = ?] on seats.
    Column values are compared as strings, character by character; the
    WHERE clauses, the JOIN and the UNIQUE KEYs all use this one
    comparison. *)
Definition seat_matches (seatNumber movieName showTime : string) (s : Seat) : bool :=
  (s_seat_number s =? seatNumber)%string && (s_movie_name s =? movieName)%string
  && (s_show_time s =? showTime)%string.

(** The columns of [UNIQUE KEY unique_seat_show (seat_number, show_time,
    movie_name)] of a booking row compared with given values. *)
Definition booking_matches (seatNumber movieName showTime : string) (b : Booking) : bool :=
  (b_seat_number b =? seatNumber)%string && (b_movie_name b =? movieName)%string
  && (b_show_time b =? showTime)%string.

Definition set_is_available (v : bool) (s : Seat) : Seat :=
  mkSeat (s_id s) (s_seat_number s) (s_movie_name s) (s_show_time s) v
         (s_seat_type s) (s_price s).

Definition set_status (v : Status) (b : Booking) : Booking :=
  mkBooking (b_id b) (b_user_name b) (b_email b) (b_phone b) (b_movie_name b)
            (b_show_time b) (b_seat_number b) (b_booking_date b) v.

Definition set_contact (userName email phone : string) (b : Booking) : Booking :=
  mkBooking (b_id b) userName email phone (b_movie_name b)
            (b_show_time b) (b_seat_number b) (b_booking_date b) (b_status b).

(** A row of [SELECT b.*, s.price, s.seat_type FROM bookings b JOIN seats s] *)
Record BookingWithSeat : Type := mkJoined {
  j_booking : Booking;
  j_price : N;
  j_seat_type : SeatType
}.

(** [FROM bookings b JOIN seats s ON b.seat_number = s.seat_number AND
    b.movie_name = s.movie_name AND b.show_time = s.show_time] *)
Definition join_bookings_seats (bs : list Booking) (ss : list Seat) : list BookingWithSeat :=
  flat_map
    (fun b =>
       map (fun s => mkJoined b (s_price s) (s_seat_type s))
           (filter (seat_matches (b_seat_number b) (b_movie_name b) (b_show_time b)) ss))
    bs.

(** [ORDER BY b.booking_date DESC], as a stable insertion sort (the order
    of rows with equal dates is not fixed by SQL). *)
Fixpoint insert_by_date_desc (r : BookingWithSeat) (rs : list BookingWithSeat)
  : list BookingWithSeat :=
  match rs with
  | [] => [r]
  | x :: rest =>
      if b_booking_date (j_booking x) <? b_booking_date (j_booking r)
      then r :: x :: rest
      else x :: insert_by_date_desc r rest
  end.

Definition order_by_date_desc (rs : list BookingWithSeat) : list BookingWithSeat :=
  fold_right insert_by_date_desc [] rs.

(** ** SQL statements of the source and their results *)

(** The header mysql2 hands to the callback of INSERT, UPDATE and DELETE. *)
Record ResultSetHeader : Type := mkHeader {
  affectedRows : nat;
  insertId : nat
}.

(** The two arguments [(err, results)] of a query callback. *)
Inductive Outcome (R : Type) : Type :=
| Failed : Outcome R
| Done (results : R) : Outcome R.
Arguments Failed {R}.
Arguments Done {R} results.

(** One constructor per SQL statement issued by the server, named after
    the constant that holds its text in the source, indexed by the type of
    [results].  A [bookingId] is the number that MySQL compares the [id]
    column with (the route parameter [req.params.id]). *)
Inductive Cmd : Type -> Type :=
| START_TRANSACTION : Cmd unit
    (* db.beginTransaction *)
| COMMIT : Cmd unit
    (* db.commit *)
| ROLLBACK : Cmd unit
    (* db.rollback *)
| checkSeats : Cmd nat
    (* SELECT COUNT( * ) as count FROM seats *)
| insertSeat (seatNumber movie showTime : string) (seatType : SeatType) (price : N)
    : Cmd ResultSetHeader
    (* INSERT INTO seats (...) VALUES (?, ?, ?, TRUE, ?, ?) *)
| checkSeat (seatNumber movieName showTime : string) : Cmd (list bool)
    (* SELECT is_available FROM seats WHERE seat_number = ? AND ... *)
| createBooking (userName email phone movieName showTime seatNumber : string)
    : Cmd ResultSetHeader
    (* INSERT INTO bookings (...) VALUES (?, ?, ?, ?, ?, ?) *)
| updateSeat (v : bool) (seatNumber movieName showTime : string) : Cmd ResultSetHeader
    (* UPDATE seats SET is_available = v WHERE seat_number = ? AND ... *)
| listBookings : Cmd (list BookingWithSeat)
    (* SELECT b.*, s.price, s.seat_type ... ORDER BY b.booking_date DESC *)
| getBookingJoined (bookingId : nat) : Cmd (list BookingWithSeat)
    (* SELECT b.*, s.price, s.seat_type ... WHERE b.id = ? *)
| updateContact (userName email phone : string) (bookingId : nat) : Cmd ResultSetHeader
    (* UPDATE bookings SET user_name = ?, email = ?, phone = ? WHERE id = ? *)
| getConfirmedBooking (bookingId : nat) : Cmd (list Booking)
    (* SELECT * FROM bookings WHERE id = ? AND status = "confirmed" *)
| cancelBookingRow (bookingId : nat) : Cmd ResultSetHeader
    (* UPDATE bookings SET status = "cancelled" WHERE id = ? *)
| getBooking (bookingId : nat) : Cmd (list Booking)
    (* SELECT * FROM bookings WHERE id = ? *)
| deleteBooking (bookingId : nat) : Cmd ResultSetHeader
    (* DELETE FROM bookings WHERE id = ? *).

Definition with_tables (c : Conn) (t : Tables) : Conn :=
  mkConn t (snapshot c) (seats_auto_increment c) (bookings_auto_increment c).

Definition header (n : nat) : ResultSetHeader := mkHeader n 0.

(** What a statement does once it reaches the tables.  The INSERTs check
    [unique_seat] and [unique_seat_show] and fail on a duplicate; an INSERT
    uses up an AUTO_INCREMENT value whether or not the row is accepted;
    START TRANSACTION commits what is open and remembers the tables for
    ROLLBACK; outside a transaction a statement is its own transaction;
    [affectedRows] counts the rows matched by WHERE (mysql2 connects with
    FOUND_ROWS). *)
Definition exec_ok (now : nat) {R : Type} (cmd : Cmd R) (c : Conn) : Outcome R * Conn :=
  let t := tables c in
  match cmd in Cmd R return Outcome R * Conn with
  | START_TRANSACTION =>
      (Done tt, mkConn t (Some t) (seats_auto_increment c) (bookings_auto_increment c))
  | COMMIT =>
      (Done tt, mkConn t None (seats_auto_increment c) (bookings_auto_increment c))
  | ROLLBACK =>
      match snapshot c with
      | Some t0 =>
          (Done tt, mkConn t0 None (seats_auto_increment c) (bookings_auto_increment c))
      | None => (Done tt, c)
      end
  | checkSeats => (Done (length (seats t)), c)
  | insertSeat seatNumber movie showTime seatType price =>
      let n := seats_auto_increment c in
      if existsb (seat_matches seatNumber movie showTime) (seats t)
      then (Failed, mkConn t (snapshot c) (S n) (bookings_auto_increment c))
      else
        let row := mkSeat n seatNumber movie showTime true seatType price in
        (Done (mkHeader 1 n),
         mkConn (mkTables (seats t ++ [row]) (bookings t)) (snapshot c)
                (S n) (bookings_auto_increment c))
  | checkSeat seatNumber movieName showTime =>
      (Done (map s_is_available (filter (seat_matches seatNumber movieName showTime) (seats t))),
       c)
  | createBooking userName email phone movieName showTime seatNumber =>
      let n := bookings_auto_increment c in
      if existsb (booking_matches seatNumber movieName showTime) (bookings t)
      then (Failed, mkConn t (snapshot c) (seats_auto_increment c) (S n))
      else
        let row := mkBooking n userName email phone movieName showTime seatNumber
                             now confirmed in
        (Done (mkHeader 1 n),
         mkConn (mkTables (seats t) (bookings t ++ [row])) (snapshot c)
                (seats_auto_increment c) (S n))
  | updateSeat v seatNumber movieName showTime =>
      let hit := seat_matches seatNumber movieName showTime in
      (Done (header (length (filter hit (seats t)))),
       with_tables c
         (mkTables (map (fun s => if hit s then set_is_available v s else s) (seats t))
                   (bookings t)))
  | listBookings =>
      (Done (order_by_date_desc (join_bookings_seats (bookings t) (seats t))), c)
  | getBookingJoined bookingId =>
      (Done (filter (fun r => b_id (j_booking r) =? bookingId)
                    (join_bookings_seats (bookings t) (seats t))), c)
  | updateContact userName email phone bookingId =>
      let hit := fun b => b_id b =? bookingId in
      (Done (header (length (filter hit (bookings t)))),
       with_tables c
         (mkTables (seats t)
                   (map (fun b => if hit b then set_contact userName email phone b else b)
                        (bookings t))))
  | getConfirmedBooking bookingId =>
      (Done (filter (fun b => (b_id b =? bookingId) && Status_eqb (b_status b) confirmed)
                    (bookings t)), c)
  | cancelBookingRow bookingId =>
      let hit := fun b => b_id b =? bookingId in
      (Done (header (length (filter hit (bookings t)))),
       with_tables c
         (mkTables (seats t)
                   (map (fun b => if hit b then set_status cancelled b else b)
                        (bookings t))))
  | getBooking bookingId =>
      (Done (filter (fun b => b_id b =? bookingId) (bookings t)), c)
  | deleteBooking bookingId =>
      let hit := fun b => b_id b =? bookingId in
      (Done (header (length (filter hit (bookings t)))),
       with_tables c
         (mkTables (seats t) (filter (fun b => negb (hit b)) (bookings t))))
  end.

(** A statement either reaches the tables or is refused before it has any
    effect ([fault]: the connection or the server fails for a reason that
    is not in the tables).  ROLLBACK is not refused: a session that is
    lost is rolled back by the server. *)
Definition exec (now : nat) (fault : bool) {R : Type} (cmd : Cmd R) (c : Conn)
  : Outcome R * Conn :=
  match cmd in Cmd R return Outcome R * Conn with
  | ROLLBACK => exec_ok now ROLLBACK c
  | other => if fault then (Failed, c) else exec_ok now other c
  end.

(** ** Handlers as programs over the connection *)

(** The shape of the asynchronous code of the source: [Query cmd k] is
    [db.query(sql, params, (err, results) => k)]; [Fire cmd p] is a
    statement whose completion nothing waits for ([db.rollback()] without
    a callback, or a callback that only logs), followed synchronously by
    [p]; [Ret a] ends the handler with its result. *)
Inductive Prog (A : Type) : Type :=
| Query {R : Type} (cmd : Cmd R) (k : Outcome R -> Prog A) : Prog A
| Fire {R : Type} (cmd : Cmd R) (p : Prog A) : Prog A
| Ret (a : A) : Prog A.
Arguments Query {A R} cmd k.
Arguments Fire {A R} cmd p.
Arguments Ret {A} a.

(** [xs.forEach(x => body)] followed by [rest]. *)
Definition forEach {A X : Type} (xs : list X) (body : X -> Prog A -> Prog A)
  (rest : Prog A) : Prog A :=
  fold_right body rest xs.

(** The body of an Express response. *)
Inductive Json : Type :=
| json_error (error : string)
| json_success (message : string)
| json_booking_confirmed (message : string) (bookingId : nat)
| json_rows (rows : list BookingWithSeat)
| json_row (row : BookingWithSeat).

Record Response : Type := mkResponse {
  status_code : nat;
  body : Json
}.

(** [res.status(n).json({ error: msg })] and [res.json(v)] *)
Definition res_status_json (n : nat) (msg : string) : Response :=
  mkResponse n (json_error msg).

Definition res_json (v : Json) : Response := mkResponse 200 v.

(** *** [initializeSeats] *)

Definition movies : list string := ["Avengers: Endgame"; "Spider-Man"; "Batman"].
Definition showTimes : list string := ["10:00 AM"; "2:00 PM"; "6:00 PM"; "10:00 PM"].
Definition seatRows : list string := ["A"; "B"; "C"; "D"; "E"].

(** The values of [i] in [for (let i = 1; i <= 10; i++)] *)
Definition seatIndices : list nat := seq 1 10.

(** The template literal [`${row}${i}`] *)
Definition seatNumber_of (row : string) (i : nat) : string :=
  (row ++ NilEmpty.string_of_uint (Nat.to_uint i))%string.

Definition seatType_of (row : string) : SeatType :=
  if (row =? "A")%string || (row =? "B")%string then premium else regular.

Definition price_of (seatType : SeatType) : N :=
  match seatType with premium => 20000%N | regular => 15000%N end.

Definition initializeSeats : Prog unit :=
  Query checkSeats (fun r =>
    match r with
    | Failed => Ret tt
    | Done count =>
        if count =? 0 then
          forEach movies (fun movie =>
            forEach showTimes (fun showTime =>
              forEach seatRows (fun row =>
                forEach seatIndices (fun i =>
                  let seatNumber := seatNumber_of row i in
                  let seatType := seatType_of row in
                  let price := price_of seatType in
                  Fire (insertSeat seatNumber movie showTime seatType price)))))
            (Ret tt)
        else Ret tt
    end).

(** *** [app.post('/api/bookings')] *)

Record BookingRequest : Type := mkRequest {
  userName : string;
  email : string;
  phone : string;
  movieName : string;
  showTime : string;
  seatNumber : string
}.

Definition post_api_bookings (req : BookingRequest) : Prog Response :=
  Query START_TRANSACTION (fun r =>
    match r with
    | Failed => Ret (res_status_json 500 "Transaction failed")
    | Done _ =>
      Query (checkSeat (seatNumber req) (movieName req) (showTime req)) (fun r =>
        match r with
        | Failed | Done [] =>
            Fire ROLLBACK (Ret (res_status_json 400 "Seat not found"))
        | Done (is_available :: _) =>
          if negb is_available then
            Fire ROLLBACK (Ret (res_status_json 400 "Seat already booked"))
          else
            Query (createBooking (userName req) (email req) (phone req)
                                 (movieName req) (showTime req) (seatNumber req))
              (fun r =>
                match r with
                | Failed =>
                    Fire ROLLBACK (Ret (res_status_json 500 "Failed to create booking"))
                | Done bookingResult =>
                  Query (updateSeat false (seatNumber req) (movieName req) (showTime req))
                    (fun r =>
                      match r with
                      | Failed =>
                          Fire ROLLBACK (Ret (res_status_json 500 "Failed to update seat"))
                      | Done _ =>
                        Query COMMIT (fun r =>
                          match r with
                          | Failed =>
                              Fire ROLLBACK
                                (Ret (res_status_json 500 "Failed to commit transaction"))
                          | Done _ =>
                              Ret (res_json (json_booking_confirmed "Booking confirmed"
                                               (insertId bookingResult)))
                          end)
                      end)
                end)
        end)
    end).

(** *** [app.get('/api/bookings')] and [app.get('/api/bookings/:id')] *)

Definition get_api_bookings : Prog Response :=
  Query listBookings (fun r =>
    match r with
    | Failed => Ret (res_status_json 500 "Failed to fetch bookings")
    | Done results => Ret (res_json (json_rows results))
    end).

Definition get_api_bookings_id (bookingId : nat) : Prog Response :=
  Query (getBookingJoined bookingId) (fun r =>
    match r with
    | Failed => Ret (res_status_json 500 "Failed to fetch booking")
    | Done [] => Ret (res_status_json 404 "Booking not found")
    | Done (row :: _) => Ret (res_json (json_row row))
    end).

(** *** [app.put('/api/bookings/:id')] *)

Definition put_api_bookings_id (bookingId : nat) (userName email phone : string)
  : Prog Response :=
  Query (updateContact userName email phone bookingId) (fun r =>
    match r with
    | Failed => Ret (res_status_json 500 "Failed to update booking")
    | Done result =>
        if affectedRows result =? 0
        then Ret (res_status_json 404 "Booking not found")
        else Ret (res_json (json_success "Booking updated successfully"))
    end).

(** The tail shared by the cancel and delete routes: COMMIT and answer. *)
Definition commit_and_answer (message : string) : Prog Response :=
  Query COMMIT (fun r =>
    match r with
    | Failed =>
        Fire ROLLBACK (Ret (res_status_json 500 "Failed to commit transaction"))
    | Done _ => Ret (res_json (json_success message))
    end).

(** *** [app.put('/api/bookings/:id/cancel')] *)

Definition put_api_bookings_id_cancel (bookingId : nat) : Prog Response :=
  Query START_TRANSACTION (fun r =>
    match r with
    | Failed => Ret (res_status_json 500 "Transaction failed")
    | Done _ =>
      Query (getConfirmedBooking bookingId) (fun r =>
        match r with
        | Failed | Done [] =>
            Fire ROLLBACK
              (Ret (res_status_json 404 "Booking not found or already cancelled"))
        | Done (booking :: _) =>
          Query (cancelBookingRow bookingId) (fun r =>
            match r with
            | Failed =>
                Fire ROLLBACK (Ret (res_status_json 500 "Failed to cancel booking"))
            | Done _ =>
              Query (updateSeat true (b_seat_number booking) (b_movie_name booking)
                                (b_show_time booking))
                (fun r =>
                  match r with
                  | Failed =>
                      Fire ROLLBACK
                        (Ret (res_status_json 500 "Failed to update seat availability"))
                  | Done _ => commit_and_answer "Booking cancelled successfully"
                  end)
            end)
        end)
    end).

(** *** [app.delete('/api/bookings/:id')] *)

Definition delete_api_bookings_id (bookingId : nat) : Prog Response :=
  Query START_TRANSACTION (fun r =>
    match r with
    | Failed => Ret (res_status_json 500 "Transaction failed")
    | Done _ =>
      Query (getBooking bookingId) (fun r =>
        match r with
        | Failed | Done [] =>
            Fire ROLLBACK (Ret (res_status_json 404 "Booking not found"))
        | Done (booking :: _) =>
          Query (deleteBooking bookingId) (fun r =>
            match r with
            | Failed =>
                Fire ROLLBACK (Ret (res_status_json 500 "Failed to delete booking"))
            | Done _ =>
              match b_status booking with
              | confirmed =>
                Query (updateSeat true (b_seat_number booking) (b_movie_name booking)
                                  (b_show_time booking))
                  (fun r =>
                    match r with
                    | Failed =>
                        Fire ROLLBACK
                          (Ret (res_status_json 500 "Failed to update seat availability"))
                    | Done _ => commit_and_answer "Booking deleted successfully"
                    end)
              | cancelled => commit_and_answer "Booking deleted successfully"
              end
            end)
        end)
    end).

(** ** One handler at a time *)

(** [run now p faults c] executes the statements of [p] in program order
    on [c]; the n-th statement is refused when the n-th element of
    [faults] is [true] (none is refused past the end of the list); [now]
    is the server clock. *)
Fixpoint run {A : Type} (now : nat) (p : Prog A) (faults : list bool) (c : Conn)
  : A * Conn :=
  match p with
  | Query cmd k =>
      let (r, c') := exec now (hd false faults) cmd c in
      run now (k r) (tl faults) c'
  | Fire cmd p' =>
      let (_, c') := exec now (hd false faults) cmd c in
      run now p' (tl faults) c'
  | Ret a => (a, c)
  end.

(** The database after [initializeSeats] ran once on the fresh tables and
    every statement was accepted. *)
Definition seeded : Conn := snd (run 0 initializeSeats [] empty_db).

(** The four state-changing operations of the transaction manager. *)
Inductive Op : Type :=
| Reserve (req : BookingRequest)
| Cancel (bookingId : nat)
| Delete (bookingId : nat)
| UpdateContactInfo (bookingId : nat) (userName email phone : string).

Definition handler (op : Op) : Prog Response :=
  match op with
  | Reserve req => post_api_bookings req
  | Cancel bookingId => put_api_bookings_id_cancel bookingId
  | Delete bookingId => delete_api_bookings_id bookingId
  | UpdateContactInfo bookingId userName email phone =>
      put_api_bookings_id bookingId userName email phone
  end.

(** States reached from the seeded catalog by operations served one after
    the other, at any clock value and under any pattern of refused
    statements. *)
Inductive reachable : Conn -> Prop :=
| reachable_seeded : reachable seeded
| reachable_op (c : Conn) (now : nat) (faults : list bool) (op : Op) :
    reachable c -> reachable (snd (run now (handler op) faults c)).

(** The outcomes of the transaction manager as the responses that carry
    them (the status codes and messages of the routes). *)
Definition SeatNotFound : Response := res_status_json 400 "Seat not found".
Definition SeatUnavailable : Response := res_status_json 400 "Seat already booked".
Definition NotCancellable : Response :=
  res_status_json 404 "Booking not found or already cancelled".
Definition NotFound : Response := res_status_json 404 "Booking not found".
Definition TransactionFailed (r : Response) : Prop := status_code r = 500.
Definition ReserveSucceeded (bookingId : nat) : Response :=
  res_json (json_booking_confirmed "Booking confirmed" bookingId).

(** The number of bookings with [status=confirmed] for a seat triple. *)
Definition confirmed_for (movieName showTime seatNumber : string) (bs : list Booking) : nat :=
  length (filter (fun b => booking_matches seatNumber movieName showTime b
                           && Status_eqb (b_status b) confirmed) bs).

(** ** The shared connection: interleaved handlers *)

(** Every route uses the one connection [db].  mysql2 keeps the commands
    of a connection in a FIFO queue and sends the next one when the
    previous one has completed; the callback of a completed command runs
    before any later command completes, so what it issues goes to the back
    of the queue. *)
Inductive Job : Type :=
| Awaited {R : Type} (cmd : Cmd R) (k : Outcome R -> Prog Response) : Job
| Detached {R : Type} (cmd : Cmd R) : Job.

Record Machine : Type := mkMachine {
  conn : Conn;
  queue : list (nat * Job);
  responses : list (nat * Response);
  arrivals : nat
}.

(** The synchronous part of a handler or callback of request [rid]: it
    issues commands until it waits for one or has answered. *)
Fixpoint launch (rid : nat) (p : Prog Response)
  (q : list (nat * Job)) (out : list (nat * Response))
  : list (nat * Job) * list (nat * Response) :=
  match p with
  | Query cmd k => (q ++ [(rid, Awaited cmd k)], out)
  | Fire cmd p' => launch rid p' (q ++ [(rid, Detached cmd)]) out
  | Ret a => (q, out ++ [(rid, a)])
  end.

(** What can happen next: a request arrives and its handler starts, or
    the command at the head of the queue completes. *)
Inductive Event : Type :=
| Arrive (op : Op)
| Complete (now : nat) (fault : bool).

Definition step (m : Machine) (e : Event) : Machine :=
  match e with
  | Arrive op =>
      let (q, out) := launch (arrivals m) (handler op) (queue m) (responses m) in
      mkMachine (conn m) q out (S (arrivals m))
  | Complete now fault =>
      match queue m with
      | [] => m
      | (rid, Awaited cmd k) :: q =>
          let (r, c') := exec now fault cmd (conn m) in
          let (q', out) := launch rid (k r) q (responses m) in
          mkMachine c' q' out (arrivals m)
      | (rid, Detached cmd) :: q =>
          let (_, c') := exec now fault cmd (conn m) in
          mkMachine c' q (responses m) (arrivals m)
      end
  end.

Definition run_events (m : Machine) (es : list Event) : Machine :=
  fold_left step es m.

(** The server at rest on a given session. *)
Definition idle (c : Conn) : Machine := mkMachine c [] [] 0.

(** [n] commands complete one after the other, none refused. *)
Definition completions (now n : nat) : list Event := repeat (Complete now false) n.

(** ** Keys and integrity constraints of the schema *)

(** The columns of [unique_seat_show] of a booking row and of
    [unique_seat] of a seat row. *)
Definition booking_key (b : Booking) : string * string * string :=
  (b_seat_number b, b_movie_name b, b_show_time b).

Definition seat_key (s : Seat) : string * string * string :=
  (s_seat_number s, s_movie_name s, s_show_time s).

(** What the PRIMARY KEY, AUTO_INCREMENT and UNIQUE KEY declarations
    promise of the content of the tables, [n] being the next booking id. *)
Record integrity (n : nat) (t : Tables) : Prop := mkIntegrity {
  unique_seat_show : NoDup (map booking_key (bookings t));
  primary_key : NoDup (map b_id (bookings t));
  below_auto_increment : forall b, In b (bookings t) -> b_id b < n;
  unique_seat : NoDup (map seat_key (seats t))
}.

(** Integrity of a session: of what it sees and of what a ROLLBACK would
    bring back. *)
Definition session_integrity (c : Conn) : Prop :=
  integrity (bookings_auto_increment c) (tables c)
  /\ forall t, snapshot c = Some t -> integrity (bookings_auto_increment c) t.

(** Every booking row names a row of [seats]. *)
Definition references_seats (t : Tables) : Prop :=
  forall b, In b (bookings t) ->
    exists s, In s (seats t) /\ seat_key s = booking_key b.

(** The seats after a successful Delete that fetched [booking]. *)
Definition seats_after_delete (booking : Booking) (ss : list Seat) : list Seat :=
  match b_status booking with
  | confirmed =>
      map (fun s => if seat_matches (b_seat_number booking) (b_movie_name booking)
                                    (b_show_time booking) s
                    then set_is_available true s else s) ss
  | cancelled => ss
  end.


(** A seat is flagged unavailable exactly when a confirmed booking names
    it. *)
Definition ledger_coherent (t : Tables) : Prop :=
  forall s, In s (seats t) ->
    (s_is_available s = false
     <-> exists b, In b (bookings t) /\ booking_key b = seat_key s
                   /\ b_status b = confirmed).

(** ** Serial schedules *)

(** Reserve requests served one after the other, none refused. *)
Fixpoint reserve_each (now : nat) (reqs : list BookingRequest) (c : Conn)
  : list Response * Conn :=
  match reqs with
  | [] => ([], c)
  | req :: rest =>
      let (r, c1) := run now (post_api_bookings req) [] c in
      let (rs, c2) := reserve_each now rest c1 in
      (r :: rs, c2)
  end.

Definition same_seat (req req' : BookingRequest) : Prop :=
  seatNumber req' = seatNumber req /\ movieName req' = movieName req
  /\ showTime req' = showTime req.

(** ** The catalog, as a list of combinations *)

(** Movies x show times x seat rows x seat numbers, in the order of the
    loops of [initializeSeats]. *)
Definition catalog : list (string * string * string * nat) :=
  flat_map (fun movie =>
    flat_map (fun showTime =>
      flat_map (fun row =>
        map (fun i => (movie, showTime, row, i)) seatIndices)
        seatRows)
      showTimes)
    movies.

Definition SeatType_eqb (a b : SeatType) : bool :=
  match a, b with
  | regular, regular => true
  | premium, premium => true
  | _, _ => false
  end.

(** The seats table holds exactly one row for a combination, and that row
    is available with the type and price of its row letter. *)
Definition seeded_once (ss : list Seat) (combo : string * string * string * nat) : bool :=
  let '(movie, showTime, row, i) := combo in
  match filter (seat_matches (seatNumber_of row i) movie showTime) ss with
  | [s] =>
      s_is_available s
      && SeatType_eqb (s_seat_type s) (seatType_of row)
      && (s_price s =? price_of (seatType_of row))%N
  | _ => false
  end.

(** A seat row belongs to some combination of the catalog. *)
Definition in_catalog (s : Seat) : bool :=
  existsb (fun combo : string * string * string * nat =>
             let '(movie, showTime, row, i) := combo in
             seat_matches (seatNumber_of row i) movie showTime s)
          catalog.

(** ** Detached statements *)

(** A statement together with the type of its results. *)
Definition Statement : Type := { R : Type & Cmd R }.

Definition detached (rid : nat) (s : Statement) : nat * Job :=
  (rid, Detached (projT2 s)).

(** The session after the statements of [ds] completed in order, none
    refused. *)
Definition exec_all (now : nat) (ds : list Statement) (c : Conn) : Conn :=
  fold_left (fun c' s => snd (exec now false (projT2 s) c')) ds c.

(** ** The edit form of the browser client *)

Module Client.

(** Strings are sequences of one-byte code units; [\s] is the part of the
    JavaScript white space class that lies in that range. *)
Definition is_space (a : ascii) : bool :=
  match nat_of_ascii a with
  | 9 | 10 | 11 | 12 | 13 | 32 | 160 => true
  | _ => false
  end.

Fixpoint trimStart (s : string) : string :=
  match s with
  | EmptyString => EmptyString
  | String a rest => if is_space a then trimStart rest else s
  end.

Fixpoint trimEnd (s : string) : string :=
  match s with
  | EmptyString => EmptyString
  | String a rest =>
      match trimEnd rest with
      | EmptyString => if is_space a then EmptyString else String a EmptyString
      | rest' => String a rest'
      end
  end.

(** [String.prototype.trim] *)
Definition trim (s : string) : string := trimEnd (trimStart s).

(** Regular expressions over code units, matched by derivatives. *)
Inductive regex : Type :=
| Never
| Empty
| Class (p : ascii -> bool)
| Cat (r1 r2 : regex)
| Or (r1 r2 : regex)
| Star (r : regex).

Fixpoint nullable (r : regex) : bool :=
  match r with
  | Never => false
  | Empty => true
  | Class _ => false
  | Cat r1 r2 => nullable r1 && nullable r2
  | Or r1 r2 => nullable r1 || nullable r2
  | Star _ => true
  end.

Fixpoint deriv (a : ascii) (r : regex) : regex :=
  match r with
  | Never => Never
  | Empty => Never
  | Class p => if p a then Empty else Never
  | Cat r1 r2 =>
      if nullable r1 then Or (Cat (deriv a r1) r2) (deriv a r2)
      else Cat (deriv a r1) r2
  | Or r1 r2 => Or (deriv a r1) (deriv a r2)
  | Star r1 => Cat (deriv a r1) (Star r1)
  end.

(** [re.test(s)] for a pattern anchored with [^] and [$] *)
Fixpoint test (re : regex) (s : string) : bool :=
  match s with
  | EmptyString => nullable re
  | String a rest => test (deriv a re) rest
  end.

Definition Plus (r : regex) : regex := Cat r (Star r).

Fixpoint Times (n : nat) (r : regex) : regex :=
  match n with
  | 0 => Empty
  | S n' => Cat r (Times n' r)
  end.

Fixpoint UpTo (n : nat) (r : regex) : regex :=
  match n with
  | 0 => Empty
  | S n' => Or Empty (Cat r (UpTo n' r))
  end.

(** [r{lo,hi}] *)
Definition Between (lo hi : nat) (r : regex) : regex :=
  Cat (Times lo r) (UpTo (hi - lo) r).

Definition is_char (c : ascii) (a : ascii) : bool := Ascii.eqb a c.

Definition is_digit (a : ascii) : bool :=
  (48 <=? nat_of_ascii a) && (nat_of_ascii a <=? 57).

(** [[^\s@]] *)
Definition not_space_at (a : ascii) : bool :=
  negb (is_space a || is_char "@" a).

(** [/^[^\s@]+@[^\s@]+\.[^\s@]+$/] *)
Definition emailRegex : regex :=
  Cat (Plus (Class not_space_at))
    (Cat (Class (is_char "@"))
      (Cat (Plus (Class not_space_at))
        (Cat (Class (is_char "."))
          (Plus (Class not_space_at))))).

(** [/^[0-9]{10,15}$/] *)
Definition phoneRegex : regex := Between 10 15 (Class is_digit).

(** [s.replace(/[\s\-\(\)]/g, '')] *)
Fixpoint strip_separators (s : string) : string :=
  match s with
  | EmptyString => EmptyString
  | String a rest =>
      if is_space a || is_char "-" a || is_char "(" a || is_char ")" a
      then strip_separators rest
      else String a (strip_separators rest)
  end.

(** [!s] for a string *)
Definition is_empty (s : string) : bool :=
  match s with
  | EmptyString => true
  | String _ _ => false
  end.

(** What [updateBooking] does up to its [fetch]. *)
Inductive Effect : Type :=
| nothing
| showAlert (message type : string)
| fetch_PUT (bookingId : nat) (userName email phone : string).

(** [updateBooking()], reading the global [currentBookingId] and the three
    inputs of the edit modal. *)
Definition updateBooking (currentBookingId : option nat)
  (editUserName editUserEmail editUserPhone : string) : Effect :=
  match currentBookingId with
  | None | Some 0 => nothing
  | Some bookingId =>
      let userName := trim editUserName in
      let email := trim editUserEmail in
      let phone := trim editUserPhone in
      if is_empty userName || is_empty email || is_empty phone then
        showAlert "Please fill in all fields" "error"
      else if negb (test emailRegex email) then
        showAlert "Please enter a valid email address" "error"
      else if negb (test phoneRegex (strip_separators phone)) then
        showAlert "Please enter a valid phone number" "error"
      else fetch_PUT bookingId userName email phone
  end.

(** The client-side rejection of an incomplete form. *)
Definition ValidationFailed : Effect := showAlert "Please fill in all fields" "error".

(** The edit form submitted against the server: the request is served only
    if [updateBooking] sends it. *)
Definition submit_edit (now : nat) (faults : list bool) (currentBookingId : option nat)
  (editUserName editUserEmail editUserPhone : string) (c : Conn)
  : Effect * option Response * Conn :=
  match updateBooking currentBookingId editUserName editUserEmail editUserPhone with
  | fetch_PUT bookingId userName email phone =>
      let (r, c') := run now (put_api_bookings_id bookingId userName email phone) faults c in
      (fetch_PUT bookingId userName email phone, Some r, c')
  | e => (e, None, c)
  end.

End Client.

(** ** The catalog routes *)

(** [SELECT DISTINCT]: each value once (its first occurrence). *)
Fixpoint distinct (l : list string) : list string :=
  match l with
  | [] => []
  | x :: rest => x :: filter (fun y => negb (y =? x)%string) (distinct rest)
  end.

(** [ORDER BY key], ascending, as a stable insertion sort; strings are
    ordered character by character. *)
Fixpoint insert_by {X : Type} (key : X -> string) (x : X) (l : list X) : list X :=
  match l with
  | [] => [x]
  | y :: rest =>
      if (key x <=? key y)%string then x :: y :: rest
      else y :: insert_by key x rest
  end.

Definition order_by {X : Type} (key : X -> string) (l : list X) : list X :=
  fold_right (insert_by key) [] l.

(** A row of [SELECT seat_number, is_available, seat_type, price FROM seats] *)
Record SeatRow : Type := mkSeatRow {
  r_seat_number : string;
  r_is_available : bool;
  r_seat_type : SeatType;
  r_price : N
}.

Definition seat_row (s : Seat) : SeatRow :=
  mkSeatRow (s_seat_number s) (s_is_available s) (s_seat_type s) (s_price s).

(** The body of the answers of the three catalog routes. *)
Inductive CatalogJson : Type :=
| json_strings (values : list string)
| json_seats (rows : list SeatRow)
| json_fetch_error (error : string).

Record CatalogResponse : Type := mkCatalogResponse {
  catalog_status : nat;
  catalog_body : CatalogJson
}.

(** [SELECT DISTINCT movie_name FROM seats ORDER BY movie_name] *)
Definition select_movies (t : Tables) : list string :=
  order_by (fun m => m) (distinct (map s_movie_name (seats t))).

(** [SELECT DISTINCT show_time FROM seats WHERE movie_name = ? ORDER BY
    show_time] *)
Definition select_showtimes (movie : string) (t : Tables) : list string :=
  order_by (fun st => st)
    (distinct (map s_show_time
                   (filter (fun s => (s_movie_name s =? movie)%string) (seats t)))).

(** [SELECT seat_number, is_available, seat_type, price FROM seats WHERE
    movie_name = ? AND show_time = ? ORDER BY seat_number] *)
Definition select_seats (movie showtime : string) (t : Tables) : list SeatRow :=
  order_by r_seat_number
    (map seat_row
         (filter (fun s => (s_movie_name s =? movie)%string
                           && (s_show_time s =? showtime)%string) (seats t))).

(** [app.get('/api/movies')]: one SELECT, which is refused ([fault]) or
    answered; the session is not changed. *)
Definition get_api_movies (fault : bool) (c : Conn) : CatalogResponse :=
  if fault then mkCatalogResponse 500 (json_fetch_error "Failed to fetch movies")
  else mkCatalogResponse 200 (json_strings (select_movies (tables c))).

(** [app.get('/api/showtimes/:movie')] *)
Definition get_api_showtimes (movie : string) (fault : bool) (c : Conn) : CatalogResponse :=
  if fault then mkCatalogResponse 500 (json_fetch_error "Failed to fetch show times")
  else mkCatalogResponse 200 (json_strings (select_showtimes movie (tables c))).

(** [app.get('/api/seats/:movie/:showtime')] *)
Definition get_api_seats (movie showtime : string) (fault : bool) (c : Conn)
  : CatalogResponse :=
  if fault then mkCatalogResponse 500 (json_fetch_error "Failed to fetch seats")
  else mkCatalogResponse 200 (json_seats (select_seats movie showtime (tables c))).

(** Ascending without repetition, and ascending, for a list of strings. *)
Definition strictly_ascending (l : list string) : Prop :=
  Sorted (fun a b => (a <? b)%string = true) l.

Definition ascending_by {X : Type} (key : X -> string) (l : list X) : Prop :=
  Sorted (fun a b => (key a <=? key b)%string = true) l.

(** ** The booking form, validation helpers and HTML escaping of the
    browser client *)

Module Browser.

(** [validateEmail(email)] *)
Definition validateEmail (email : string) : bool :=
  Client.test Client.emailRegex email.

(** [validatePhone(phone)] *)
Definition validatePhone (phone : string) : bool :=
  let cleanPhone := Client.strip_separators phone in
  Client.test Client.phoneRegex cleanPhone.

(** What [confirmBooking] does up to its [fetch]. *)
Inductive Submission : Type :=
| showAlert (message type : string)
| fetch_POST (bookingData : BookingRequest).

(** [confirmBooking()], reading the globals [selectedSeat], [currentMovie]
    and [currentShowTime] and the three inputs of the booking form. *)
Definition confirmBooking (selectedSeat : option string)
  (currentMovie currentShowTime : string)
  (userNameInput userEmailInput userPhoneInput : string) : Submission :=
  let userName := Client.trim userNameInput in
  let userEmail := Client.trim userEmailInput in
  let userPhone := Client.trim userPhoneInput in
  if Client.is_empty userName || Client.is_empty userEmail || Client.is_empty userPhone
  then showAlert "Please fill in all required fields" "error"
  else
    match selectedSeat with
    | None | Some EmptyString => showAlert "Please select a seat" "error"
    | Some seat =>
        if negb (Client.test Client.emailRegex userEmail) then
          showAlert "Please enter a valid email address" "error"
        else if negb (Client.test Client.phoneRegex (Client.strip_separators userPhone))
        then showAlert "Please enter a valid phone number" "error"
        else fetch_POST (mkRequest userName userEmail userPhone
                                   currentMovie currentShowTime seat)
    end.

(** [s.replace(/c/g, by)] for a pattern that is one character. *)
Fixpoint replace_all (c : ascii) (by_ : string) (s : string) : string :=
  match s with
  | EmptyString => EmptyString
  | String a rest =>
      if Ascii.eqb a c then (by_ ++ replace_all c by_ rest)%string
      else String a (replace_all c by_ rest)
  end.

Definition quote : ascii := "034"%char.
Definition apostrophe : ascii := "039"%char.

(** [escapeHtml(unsafe)]: five replacements, one after the other. *)
Definition escapeHtml (unsafe : string) : string :=
  replace_all apostrophe "&#039;"
    (replace_all quote "&quot;"
      (replace_all ">" "&gt;"
        (replace_all "<" "&lt;"
          (replace_all "&" "&amp;" unsafe)))).

(** The entity that stands for a character, or the character itself. *)
Definition entity (a : ascii) : string :=
  if Ascii.eqb a "&" then "&amp;"
  else if Ascii.eqb a "<" then "&lt;"
  else if Ascii.eqb a ">" then "&gt;"
  else if Ascii.eqb a quote then "&quot;"
  else if Ascii.eqb a apostrophe then "&#039;"
  else String a EmptyString.

Fixpoint escape_each (s : string) : string :=
  match s with
  | EmptyString => EmptyString
  | String a rest => (entity a ++ escape_each rest)%string
  end.

(** The characters that open or close markup or an attribute value. *)
Definition is_markup (a : ascii) : bool :=
  Ascii.eqb a "<" || Ascii.eqb a ">" || Ascii.eqb a quote || Ascii.eqb a apostrophe.

Definition is_special (a : ascii) : bool := Ascii.eqb a "&" || is_markup a.

(** Every character of a string satisfies a test. *)
Fixpoint every (p : ascii -> bool) (s : string) : bool :=
  match s with
  | EmptyString => true
  | String a rest => p a && every p rest
  end.

(** The strings a regular expression denotes. *)
Inductive matches : Client.regex -> string -> Prop :=
| matches_Empty : matches Client.Empty EmptyString
| matches_Class p a : p a = true -> matches (Client.Class p) (String a EmptyString)
| matches_Cat r1 r2 s1 s2 :
    matches r1 s1 -> matches r2 s2 -> matches (Client.Cat r1 r2) (s1 ++ s2)%string
| matches_Or_l r1 r2 s : matches r1 s -> matches (Client.Or r1 r2) s
| matches_Or_r r1 r2 s : matches r2 s -> matches (Client.Or r1 r2) s
| matches_Star_nil r : matches (Client.Star r) EmptyString
| matches_Star_more r s1 s2 :
    matches r s1 -> matches (Client.Star r) s2 -> matches (Client.Star r) (s1 ++ s2)%string.

(** The number of occurrences of a character. *)
Fixpoint count_char (c : ascii) (s : string) : nat :=
  match s with
  | EmptyString => 0
  | String a rest => (if Ascii.eqb a c then 1 else 0) + count_char c rest
  end.

(** The characters that [validatePhone] removes: [[\s\-\(\)]] *)
Definition is_separator (a : ascii) : bool :=
  Client.is_space a || Client.is_char "-" a || Client.is_char "(" a
  || Client.is_char ")" a.

(** The booking form submitted against the server: the request is served
    only if [confirmBooking] sends it. *)
Definition submit_booking (now : nat) (faults : list bool) (selectedSeat : option string)
  (currentMovie currentShowTime : string)
  (userNameInput userEmailInput userPhoneInput : string) (c : Conn)
  : Submission * option Response * Conn :=
  match confirmBooking selectedSeat currentMovie currentShowTime
                       userNameInput userEmailInput userPhoneInput with
  | fetch_POST bookingData =>
      let (r, c') := run now (post_api_bookings bookingData) faults c in
      (fetch_POST bookingData, Some r, c')
  | a => (a, None, c)
  end.

End Browser.

(* ================================================================== *)
(** * Part II: properties *)
(* ================================================================== *)

(** ** Lists and keys *)

Lemma booking_matches_key sn mn st b :
  booking_matches sn mn st b = true <-> booking_key b = (sn, mn, st).
Proof.
  unfold booking_matches, booking_key.
  rewrite !andb_true_iff, !String.eqb_eq.
  split; [intros [[-> ->] ->]; reflexivity | intros [= -> -> ->]; auto].
Qed.

Lemma seat_matches_key sn mn st s :
  seat_matches sn mn st s = true <-> seat_key s = (sn, mn, st).
Proof.
  unfold seat_matches, seat_key.
  rewrite !andb_true_iff, !String.eqb_eq.
  split; [intros [[-> ->] ->]; reflexivity | intros [= -> -> ->]; auto].
Qed.

Lemma existsb_false_not_in {X K : Type} (hit : X -> bool) (key : X -> K) (k : K) (l : list X) :
  (forall x, key x = k -> hit x = true) ->
  existsb hit l = false -> ~ In k (map key l).
Proof.
  intros Hhit H Hin. apply in_map_iff in Hin as (x & Hk & Hx).
  assert (existsb hit l = true) by (apply existsb_exists; eauto).
  congruence.
Qed.

Lemma NoDup_snoc {X : Type} (l : list X) (x : X) :
  NoDup l -> ~ In x l -> NoDup (l ++ [x]).
Proof.
  intros Hl Hx. apply NoDup_app; auto.
  - constructor; [intros [] | constructor].
  - intros y Hy [<- | []]. contradiction.
Qed.

Lemma NoDup_map_filter {X K : Type} (key : X -> K) (p : X -> bool) (l : list X) :
  NoDup (map key l) -> NoDup (map key (filter p l)).
Proof.
  induction l as [|x l IH]; simpl; intros H; [constructor|].
  inversion H as [|? ? Hx Hl]; subst.
  destruct (p x); simpl; auto.
  constructor; auto.
  intros Hin. apply Hx. apply in_map_iff in Hin as (y & Hy & Hf).
  apply filter_In in Hf as [Hf _]. apply in_map_iff; eauto.
Qed.

Lemma map_key_update {X K : Type} (key : X -> K) (hit : X -> bool) (f : X -> X) (l : list X) :
  (forall x, key (f x) = key x) ->
  map key (map (fun x => if hit x then f x else x) l) = map key l.
Proof.
  intros Hf. rewrite map_map. apply map_ext.
  intros x. destruct (hit x); auto.
Qed.

Lemma in_update {X : Type} (hit : X -> bool) (f : X -> X) (l : list X) (y : X) :
  In y (map (fun x => if hit x then f x else x) l) ->
  exists x, In x l /\ (y = x \/ y = f x).
Proof.
  intros H. apply in_map_iff in H as (x & Hy & Hx).
  exists x. split; auto. destruct (hit x); auto.
Qed.

(** ** Integrity is kept by every statement *)

Lemma integrity_mono n m t : n <= m -> integrity n t -> integrity m t.
Proof.
  intros Hnm [H1 H2 H3 H4]. constructor; auto.
  intros b Hb. specialize (H3 b Hb). lia.
Qed.

Lemma integrity_createBooking n t userName email phone movieName showTime seatNumber now :
  integrity n t ->
  existsb (booking_matches seatNumber movieName showTime) (bookings t) = false ->
  integrity (S n)
    (mkTables (seats t)
       (bookings t ++ [mkBooking n userName email phone movieName showTime seatNumber
                                 now confirmed])).
Proof.
  intros [H1 H2 H3 H4] Hnew. constructor; simpl; auto.
  - rewrite map_app. apply NoDup_snoc; auto.
    apply (existsb_false_not_in (booking_matches seatNumber movieName showTime)); auto.
    intros x. apply booking_matches_key.
  - rewrite map_app. apply NoDup_snoc; auto. simpl.
    intros Hin. apply in_map_iff in Hin as (b & Hb & Hin).
    specialize (H3 b Hin). lia.
  - intros b Hb. apply in_app_iff in Hb as [Hb | [<- | []]]; simpl; [|lia].
    specialize (H3 b Hb). lia.
Qed.

Lemma integrity_insertSeat n k t seatNumber movie showTime seatType price :
  integrity n t ->
  existsb (seat_matches seatNumber movie showTime) (seats t) = false ->
  integrity n
    (mkTables (seats t ++ [mkSeat k seatNumber movie showTime true seatType price])
              (bookings t)).
Proof.
  intros [H1 H2 H3 H4] Hnew. constructor; simpl; auto.
  rewrite map_app. apply NoDup_snoc; auto.
  apply (existsb_false_not_in (seat_matches seatNumber movie showTime)); auto.
  intros x. apply seat_matches_key.
Qed.

Lemma integrity_update_seats n t (hit : Seat -> bool) v :
  integrity n t ->
  integrity n
    (mkTables (map (fun s => if hit s then set_is_available v s else s) (seats t))
              (bookings t)).
Proof.
  intros [H1 H2 H3 H4]. constructor; simpl; auto.
  rewrite map_key_update; auto.
Qed.

Lemma integrity_update_bookings n t (hit : Booking -> bool) (f : Booking -> Booking) :
  (forall b, booking_key (f b) = booking_key b) ->
  (forall b, b_id (f b) = b_id b) ->
  integrity n t ->
  integrity n
    (mkTables (seats t) (map (fun b => if hit b then f b else b) (bookings t))).
Proof.
  intros Hk Hi [H1 H2 H3 H4]. constructor; simpl; auto.
  - rewrite map_key_update; auto.
  - rewrite map_key_update; auto.
  - intros b Hb. apply in_update in Hb as (x & Hx & [-> | ->]); auto.
    rewrite Hi. auto.
Qed.

Lemma integrity_delete n t (p : Booking -> bool) :
  integrity n t ->
  integrity n (mkTables (seats t) (filter p (bookings t))).
Proof.
  intros [H1 H2 H3 H4]. constructor; simpl; auto using NoDup_map_filter.
  intros b Hb. apply filter_In in Hb as [Hb _]. auto.
Qed.

Lemma exec_ok_integrity now {R} (cmd : Cmd R) c :
  session_integrity c -> session_integrity (snd (exec_ok now cmd c)).
Proof.
  intros [Ht Hs].
  destruct cmd; simpl; try (split; assumption).
  - (* START TRANSACTION *)
    split; simpl; auto. intros t [= <-]. auto.
  - (* COMMIT *)
    split; simpl; auto. discriminate.
  - (* ROLLBACK *)
    case_eq (snapshot c); [intros t0 E | intros E]; simpl; [|split; auto].
    split; simpl; [auto | discriminate].
  - (* insertSeat *)
    destruct (existsb _ _) eqn:E; simpl; [split; auto|].
    split; simpl; auto using integrity_insertSeat.
  - (* createBooking *)
    destruct (existsb _ _) eqn:E; simpl.
    + split; simpl; eauto using integrity_mono.
    + split; simpl; eauto using integrity_createBooking, integrity_mono.
  - split; simpl; auto using integrity_update_seats.
  - split; simpl; auto. apply integrity_update_bookings; auto.
  - split; simpl; auto. apply integrity_update_bookings; auto.
  - split; simpl; auto using integrity_delete.
Qed.

Lemma exec_integrity now fault {R} (cmd : Cmd R) c :
  session_integrity c -> session_integrity (snd (exec now fault cmd c)).
Proof.
  intros H.
  destruct cmd; cbv beta iota delta [exec];
    try (destruct fault; [exact H|]); apply exec_ok_integrity; exact H.
Qed.

(** ** From statements to handlers, interleavings and reachable states *)

Section StatementInvariant.

Variable P : Conn -> Prop.
Hypothesis exec_keeps :
  forall now fault R (cmd : Cmd R) c, P c -> P (snd (exec now fault cmd c)).

Lemma run_keeps {A} now (p : Prog A) :
  forall faults c, P c -> P (snd (run now p faults c)).
Proof.
  induction p as [R cmd k IH | R cmd p IH | a]; intros faults c Hc; simpl; auto.
  - pose proof (exec_keeps now (hd false faults) R cmd c Hc) as H.
    destruct (exec now (hd false faults) cmd c) as [r c']. auto.
  - pose proof (exec_keeps now (hd false faults) R cmd c Hc) as H.
    destruct (exec now (hd false faults) cmd c) as [r c']. auto.
Qed.

Lemma step_keeps m e : P (conn m) -> P (conn (step m e)).
Proof.
  intros Hm. destruct e as [op | now fault]; simpl.
  - destruct (launch _ _ _ _); auto.
  - destruct (queue m) as [|[rid [R cmd k | R cmd]] q]; auto.
    + pose proof (exec_keeps now fault R cmd _ Hm) as H.
      destruct (exec now fault cmd (conn m)) as [r c'].
      destruct (launch _ _ _ _); auto.
    + pose proof (exec_keeps now fault R cmd _ Hm) as H.
      destruct (exec now fault cmd (conn m)) as [r c']; auto.
Qed.

Lemma run_events_keeps es : forall m, P (conn m) -> P (conn (run_events m es)).
Proof.
  induction es as [|e es IH]; intros m Hm; simpl; auto using step_keeps.
Qed.

End StatementInvariant.

Lemma empty_db_integrity : session_integrity empty_db.
Proof.
  split; simpl; [|discriminate].
  constructor; simpl; try apply NoDup_nil. intros b [].
Qed.

Lemma seeded_no_bookings : bookings (tables seeded) = [].
Proof. vm_compute. reflexivity. Qed.

Lemma seeded_integrity : session_integrity seeded.
Proof.
  apply (run_keeps session_integrity); [|exact empty_db_integrity].
  intros; apply exec_integrity; assumption.
Qed.

Lemma reachable_integrity c : reachable c -> session_integrity c.
Proof.
  induction 1 as [|c now faults op _ IH]; [exact seeded_integrity|].
  apply (run_keeps session_integrity); [|exact IH].
  intros; apply exec_integrity; assumption.
Qed.

Lemma unique_key_filter {X K : Type} (key : X -> K) (k : K) (p : X -> bool) (l : list X) :
  (forall x, p x = true -> key x = k) ->
  NoDup (map key l) -> length (filter p l) <= 1.
Proof.
  intros Hp. induction l as [|x l IH]; simpl; intros H; [lia|].
  inversion H as [|? ? Hx Hl]; subst.
  destruct (p x) eqn:E; auto.
  assert (filter p l = []) as ->; [|simpl; lia].
  apply Hp in E.
  destruct (filter p l) as [|y ?] eqn:F; auto.
  exfalso. apply Hx.
  assert (In y (filter p l)) as Hy by (rewrite F; left; reflexivity).
  apply filter_In in Hy as [Hy Hpy]. apply Hp in Hpy.
  apply in_map_iff. exists y. split; congruence.
Qed.

Lemma integrity_confirmed_for n t movieName showTime seatNumber :
  integrity n t -> confirmed_for movieName showTime seatNumber (bookings t) <= 1.
Proof.
  intros [H _ _ _]. unfold confirmed_for.
  apply (unique_key_filter booking_key (seatNumber, movieName, showTime)); auto.
  intros b Hb. apply andb_true_iff in Hb as [Hb _].
  apply booking_matches_key; assumption.
Qed.

(** C1. In every state reached from the seeded catalog by Reserve, Cancel,
    Delete and UpdateContactInfo operations (whatever statements the
    server refuses on the way), each (movie, show time, seat number) has
    at most one booking with status confirmed. *)
Theorem at_most_one_confirmed_booking c movieName showTime seatNumber :
  reachable c ->
  confirmed_for movieName showTime seatNumber (bookings (tables c)) <= 1.
Proof.
  intros H. apply reachable_integrity in H as [H _].
  eapply integrity_confirmed_for; eassumption.
Qed.

Lemma at_most_one_confirmed_booking_witness :
  let c := snd (run 7 (handler (Reserve (mkRequest "Ann" "ann@example.org" "9800000000"
                                                    "Batman" "10:00 AM" "A1")))
                    [] seeded) in
  reachable c /\ confirmed_for "Batman" "10:00 AM" "A1" (bookings (tables c)) <= 1.
Proof.
  intros c.
  assert (reachable c) as H by (apply reachable_op; apply reachable_seeded).
  split; [exact H|].
  exact (at_most_one_confirmed_booking c "Batman" "10:00 AM" "A1" H).
Defined.

(** The same bound holds at every instant of every interleaving of the
    handlers on the shared connection: whatever requests arrive and
    whenever their commands complete. *)
Lemma interleaved_at_most_one_confirmed es movieName showTime seatNumber :
  confirmed_for movieName showTime seatNumber
    (bookings (tables (conn (run_events (idle seeded) es)))) <= 1.
Proof.
  assert (session_integrity (conn (run_events (idle seeded) es))) as [H _].
  { apply (run_events_keeps session_integrity).
    - intros; apply exec_integrity; assumption.
    - exact seeded_integrity. }
  eapply integrity_confirmed_for; eassumption.
Qed.

(** ** One request alone on the connection *)

Lemma run_events_app m es1 es2 :
  run_events m (es1 ++ es2) = run_events (run_events m es1) es2.
Proof. apply fold_left_app. Qed.

Lemma completions_app now n k :
  completions now (n + k) = completions now n ++ completions now k.
Proof. apply repeat_app. Qed.

Lemma run_events_cons m e es :
  run_events m (e :: es) = run_events (step m e) es.
Proof. reflexivity. Qed.

Lemma completions_S now n :
  completions now (S n) = Complete now false :: completions now n.
Proof. reflexivity. Qed.

Lemma exec_all_cons now s ds c :
  exec_all now (s :: ds) c = exec_all now ds (snd (exec now false (projT2 s) c)).
Proof. reflexivity. Qed.

(** Detached commands at the head of the queue complete one by one. *)
Lemma drain_detached now rid ds : forall c q out a,
  run_events (mkMachine c (map (detached rid) ds ++ q) out a)
             (completions now (length ds))
  = mkMachine (exec_all now ds c) q out a.
Proof.
  induction ds as [|[R cmd] ds IH]; intros c q out a; [reflexivity|].
  cbn [length map app]. rewrite completions_S, run_events_cons, exec_all_cons.
  cbn [detached projT1 projT2 step queue conn responses arrivals].
  destruct (exec now false cmd c) as [r c']. cbn [snd].
  apply IH.
Qed.

Lemma exec_all_snoc now ds s c :
  exec_all now (ds ++ [s]) c = snd (exec now false (projT2 s) (exec_all now ds c)).
Proof. unfold exec_all. rewrite fold_left_app. reflexivity. Qed.

(** A handler whose commands are the only ones in the queue ends, after
    enough completions, in the state and with the answer that [run]
    computes. *)
Lemma launch_alone now rid (p : Prog Response) : forall ds c out a,
  exists n,
    let (q, out') := launch rid p (map (detached rid) ds) out in
    run_events (mkMachine c q out' a) (completions now n)
    = mkMachine (snd (run now p [] (exec_all now ds c))) []
                (out ++ [(rid, fst (run now p [] (exec_all now ds c)))]) a.
Proof.
  induction p as [R cmd k IH | R cmd p IH | r]; intros ds c out a.
  - cbn [launch run hd tl].
    destruct (exec now false cmd (exec_all now ds c)) as [r c'] eqn:E.
    destruct (IH r [] c' out a) as [n Hn].
    exists (length ds + (1 + n)).
    rewrite completions_app, run_events_app, drain_detached.
    rewrite completions_app, run_events_app.
    change (completions now 1) with [Complete now false].
    rewrite run_events_cons. cbn [run_events fold_left].
    cbn [step queue conn responses arrivals].
    rewrite E. cbn [map] in Hn.
    destruct (launch rid (k r) [] out) as [q out'].
    exact Hn.
  - cbn [launch run hd tl].
    destruct (IH (ds ++ [existT _ R cmd]) c out a) as [n Hn].
    exists n. rewrite map_app in Hn. cbn [map detached projT1 projT2] in Hn.
    rewrite exec_all_snoc in Hn. cbn [projT1 projT2] in Hn.
    destruct (exec now false cmd (exec_all now ds c)) as [r c'].
    exact Hn.
  - exists (length ds). cbn [launch run fst snd].
    rewrite <- (app_nil_r (map (detached rid) ds)).
    apply drain_detached.
Qed.

(** Served alone, an operation leaves the machine at rest in the state
    and with the answer of [run]: the two semantics agree on serial
    schedules. *)
Lemma serve_alone now op c :
  exists n,
    run_events (idle c) (Arrive op :: completions now n)
    = mkMachine (snd (run now (handler op) [] c)) []
                [(0, fst (run now (handler op) [] c))] 1.
Proof.
  destruct (launch_alone now 0 (handler op) [] c [] 1) as [n Hn].
  exists n. rewrite run_events_cons.
  cbn [step idle arrivals queue responses conn].
  cbn [map] in Hn.
  destruct (launch 0 (handler op) [] []) as [q out'].
  exact Hn.
Qed.

(** ** The handlers, outcome by outcome *)

Ltac run_handler :=
  cbn [run hd tl exec exec_ok tables seats bookings snapshot fst snd negb
       seats_auto_increment bookings_auto_increment with_tables
       commit_and_answer insertId].

Lemma filter_nonempty_existsb {X : Type} (p : X -> bool) (l : list X) x xs :
  filter p l = x :: xs -> existsb p l = true /\ In x l /\ p x = true.
Proof.
  intros E.
  assert (In x (filter p l)) as H by (rewrite E; left; reflexivity).
  apply filter_In in H as [H1 H2]. repeat split; auto.
  apply existsb_exists; eauto.
Qed.

(** A Reserve either leaves both tables as they were and answers with an
    error, or it found the seat available, inserted the booking, flagged
    the seat and answered with the new id. *)
Lemma post_api_bookings_cases now req faults c :
  let rc := run now (post_api_bookings req) faults c in
  let hit := seat_matches (seatNumber req) (movieName req) (showTime req) in
  (tables (snd rc) = tables c /\ status_code (fst rc) <> 200)
  \/ (fst rc = ReserveSucceeded (bookings_auto_increment c)
      /\ tables (snd rc) =
         mkTables
           (map (fun s => if hit s then set_is_available false s else s)
                (seats (tables c)))
           (bookings (tables c)
              ++ [mkBooking (bookings_auto_increment c) (userName req) (email req)
                            (phone req) (movieName req) (showTime req)
                            (seatNumber req) now confirmed])
      /\ existsb hit (seats (tables c)) = true
      /\ existsb (booking_matches (seatNumber req) (movieName req) (showTime req))
                 (bookings (tables c)) = false).
Proof.
  unfold post_api_bookings. run_handler.
  destruct (hd false faults); run_handler; [left; split; [reflexivity | discriminate]|].
  destruct (hd false (tl faults)); run_handler; [left; split; [reflexivity | discriminate]|].
  destruct (filter _ (seats (tables c))) as [|s ss] eqn:E; cbn [map]; run_handler;
    [left; split; [reflexivity | discriminate]|].
  apply filter_nonempty_existsb in E as (Hex & _ & _).
  destruct (s_is_available s); run_handler; [|left; split; [reflexivity | discriminate]].
  destruct (hd false (tl (tl faults))); run_handler;
    [left; split; [reflexivity | discriminate]|].
  destruct (existsb _ (bookings (tables c))) eqn:Hnew; run_handler;
    [left; split; [reflexivity | discriminate]|].
  destruct (hd false (tl (tl (tl faults)))); run_handler;
    [left; split; [reflexivity | discriminate]|].
  destruct (hd false (tl (tl (tl (tl faults))))); run_handler;
    [left; split; [reflexivity | discriminate]|].
  right. repeat split; auto.
Qed.

(** A Cancel either leaves both tables as they were and answers with an
    error, or it found the confirmed row, marked every row of that id
    cancelled and released the seat the fetched row names. *)
Lemma put_api_bookings_id_cancel_cases now bookingId faults c :
  let rc := run now (put_api_bookings_id_cancel bookingId) faults c in
  (tables (snd rc) = tables c /\ status_code (fst rc) <> 200)
  \/ (exists booking rest,
        filter (fun b => (b_id b =? bookingId) && Status_eqb (b_status b) confirmed)
               (bookings (tables c)) = booking :: rest
        /\ fst rc = res_json (json_success "Booking cancelled successfully")
        /\ tables (snd rc) =
           mkTables
             (map (fun s => if seat_matches (b_seat_number booking) (b_movie_name booking)
                                            (b_show_time booking) s
                            then set_is_available true s else s)
                  (seats (tables c)))
             (map (fun b => if b_id b =? bookingId then set_status cancelled b else b)
                  (bookings (tables c)))).
Proof.
  unfold put_api_bookings_id_cancel. run_handler.
  destruct (hd false faults); run_handler; [left; split; [reflexivity | discriminate]|].
  destruct (hd false (tl faults)); run_handler; [left; split; [reflexivity | discriminate]|].
  destruct (filter _ (bookings (tables c))) as [|booking rest] eqn:E; run_handler;
    [left; split; [reflexivity | discriminate]|].
  destruct (hd false (tl (tl faults))); run_handler;
    [left; split; [reflexivity | discriminate]|].
  destruct (hd false (tl (tl (tl faults)))); run_handler;
    [left; split; [reflexivity | discriminate]|].
  destruct (hd false (tl (tl (tl (tl faults))))); run_handler;
    [left; split; [reflexivity | discriminate]|].
  right. exists booking, rest. repeat split; auto.
Qed.

(** A Delete either leaves both tables as they were and answers with an
    error, or it found the row, removed every row of that id and, if the
    fetched row was confirmed, released the seat it names. *)
Lemma delete_api_bookings_id_cases now bookingId faults c :
  let rc := run now (delete_api_bookings_id bookingId) faults c in
  (tables (snd rc) = tables c /\ status_code (fst rc) <> 200)
  \/ (exists booking rest,
        filter (fun b => b_id b =? bookingId) (bookings (tables c)) = booking :: rest
        /\ fst rc = res_json (json_success "Booking deleted successfully")
        /\ tables (snd rc) =
           mkTables
             (seats_after_delete booking (seats (tables c)))
             (filter (fun b => negb (b_id b =? bookingId)) (bookings (tables c)))).
Proof.
  unfold delete_api_bookings_id, seats_after_delete. run_handler.
  destruct (hd false faults); run_handler; [left; split; [reflexivity | discriminate]|].
  destruct (hd false (tl faults)); run_handler; [left; split; [reflexivity | discriminate]|].
  destruct (filter _ (bookings (tables c))) as [|booking rest] eqn:E; run_handler;
    [left; split; [reflexivity | discriminate]|].
  destruct (hd false (tl (tl faults))); run_handler;
    [left; split; [reflexivity | discriminate]|].
  destruct (b_status booking) eqn:Hst; run_handler.
  - destruct (hd false (tl (tl (tl faults)))); run_handler;
      [left; split; [reflexivity | discriminate]|].
    destruct (hd false (tl (tl (tl (tl faults))))); run_handler;
      [left; split; [reflexivity | discriminate]|].
    right. exists booking, rest. rewrite Hst. repeat split; auto.
  - destruct (hd false (tl (tl (tl faults)))); run_handler;
      [left; split; [reflexivity | discriminate]|].
    right. exists booking, rest. rewrite Hst. repeat split; auto.
Qed.

(** An UpdateContactInfo never touches a seat and rewrites at most the
    contact columns of the rows of that id. *)
Lemma put_api_bookings_id_cases now bookingId userName email phone faults c :
  let rc := run now (put_api_bookings_id bookingId userName email phone) faults c in
  tables (snd rc) = tables c
  \/ tables (snd rc) =
     mkTables (seats (tables c))
              (map (fun b => if b_id b =? bookingId
                             then set_contact userName email phone b else b)
                   (bookings (tables c))).
Proof.
  unfold put_api_bookings_id. run_handler.
  destruct (hd false faults); run_handler; [left; reflexivity|].
  cbn [affectedRows header].
  destruct (_ =? 0); run_handler; right; reflexivity.
Qed.

(** ** Runs without refused statements *)

Lemma run_fault_free {A} now (p : Prog A) : forall faults c,
  forallb negb faults = true -> run now p faults c = run now p [] c.
Proof.
  induction p as [R cmd k IH | R cmd p IH | a]; intros faults c H;
    [| |reflexivity].
  - destruct faults as [|f faults]; [reflexivity|].
    cbn [forallb] in H. apply andb_true_iff in H as [Hf H].
    destruct f; [discriminate|]. cbn [run hd tl].
    destruct (exec now false cmd c) as [r c'].
    rewrite (IH r faults c' H). destruct (k r); reflexivity.
  - destruct faults as [|f faults]; [reflexivity|].
    cbn [forallb] in H. apply andb_true_iff in H as [Hf H].
    destruct f; [discriminate|]. cbn [run hd tl].
    destruct (exec now false cmd c) as [r c'].
    rewrite (IH faults c' H). destruct p; reflexivity.
Qed.


(** ** Reserve *)

Lemma in_filter_head {X : Type} (p : X -> bool) (l : list X) (x : X) :
  In x l -> p x = true -> exists y ys, filter p l = y :: ys.
Proof.
  intros Hin Hp.
  assert (In x (filter p l)) as H by (apply filter_In; auto).
  destruct (filter p l) as [|y ys]; [destruct H | eauto].
Qed.

(** The success path of Reserve, statement by statement. *)
Lemma post_api_bookings_accepted now req c :
  (exists s, In s (seats (tables c))
             /\ seat_matches (seatNumber req) (movieName req) (showTime req) s = true) ->
  (forall s, In s (seats (tables c)) ->
             seat_matches (seatNumber req) (movieName req) (showTime req) s = true ->
             s_is_available s = true) ->
  existsb (booking_matches (seatNumber req) (movieName req) (showTime req))
          (bookings (tables c)) = false ->
  let rc := run now (post_api_bookings req) [] c in
  let row := mkBooking (bookings_auto_increment c) (userName req) (email req) (phone req)
                       (movieName req) (showTime req) (seatNumber req) now confirmed in
  fst rc = ReserveSucceeded (b_id row)
  /\ bookings (tables (snd rc)) = bookings (tables c) ++ [row]
  /\ b_status row = confirmed
  /\ (exists s, In s (seats (tables (snd rc)))
                /\ seat_matches (seatNumber req) (movieName req) (showTime req) s = true)
  /\ (forall s, In s (seats (tables (snd rc))) ->
                seat_matches (seatNumber req) (movieName req) (showTime req) s = true ->
                s_is_available s = false)
  /\ snapshot (snd rc) = None.
Proof.
  intros (s0 & Hin0 & Hhit0) Hav Hnew.
  destruct (in_filter_head _ _ _ Hin0 Hhit0) as (s & ss & E).
  destruct (filter_nonempty_existsb _ _ _ _ E) as (_ & Hin & Hhit).
  pose proof (Hav s Hin Hhit) as Hs.
  unfold post_api_bookings. run_handler.
  rewrite E. cbn [map]. rewrite Hs. run_handler. rewrite Hnew. run_handler.
  repeat split; auto.
  - exists (set_is_available false s0). split; auto.
    apply in_map_iff. exists s0. rewrite Hhit0. auto.
  - intros s' Hs' Hhit'. apply in_map_iff in Hs' as (x & <- & Hx).
    destruct (seat_matches _ _ _ x) eqn:Ex; [reflexivity | congruence].
Qed.

Lemma not_in_keys_existsb sn mn st bs :
  ~ In (sn, mn, st) (map booking_key bs) ->
  existsb (booking_matches sn mn st) bs = false.
Proof.
  intros H. destruct (existsb _ bs) eqn:E; [|reflexivity].
  exfalso. apply H. apply existsb_exists in E as (b & Hb & Hhit).
  apply booking_matches_key in Hhit. apply in_map_iff. eauto.
Qed.

Lemma in_seat_keys sn mn st ss :
  In (sn, mn, st) (map seat_key ss)
  <-> exists s, In s ss /\ seat_matches sn mn st s = true.
Proof.
  rewrite in_map_iff. split; intros (s & H1 & H2); exists s.
  - split; [exact H2 | apply seat_matches_key; exact H1].
  - split; [apply seat_matches_key; exact H2 | exact H1].
Qed.

(** The success of Reserve.  When the seat of the request exists and is
    available, no statement is refused by a fault and the bookings table
    has no row, of any status, for the triple, Reserve answers with the id
    given to the new row, that row is in the table with status confirmed,
    and the seat exists and is no longer available. *)
Theorem reserve_succeeds now req faults c :
  let triple := (seatNumber req, movieName req, showTime req) in
  In triple (map seat_key (seats (tables c))) ->
  (forall s, In s (seats (tables c)) -> seat_key s = triple -> s_is_available s = true) ->
  forallb negb faults = true ->
  ~ In triple (map booking_key (bookings (tables c))) ->
  let rc := run now (post_api_bookings req) faults c in
  let row := mkBooking (bookings_auto_increment c) (userName req) (email req) (phone req)
                       (movieName req) (showTime req) (seatNumber req) now confirmed in
  fst rc = ReserveSucceeded (b_id row)
  /\ bookings (tables (snd rc)) = bookings (tables c) ++ [row]
  /\ b_status row = confirmed
  /\ In triple (map seat_key (seats (tables (snd rc))))
  /\ (forall s, In s (seats (tables (snd rc))) -> seat_key s = triple ->
                s_is_available s = false).
Proof.
  intros triple Hex Hav Hfaults Hnew.
  rewrite (run_fault_free now _ faults c Hfaults).
  destruct (post_api_bookings_accepted now req c) as (H1 & H2 & H3 & H4 & H5 & _).
  - apply in_seat_keys. exact Hex.
  - intros s Hs Hhit. apply Hav; [exact Hs | apply seat_matches_key; exact Hhit].
  - apply not_in_keys_existsb. exact Hnew.
  - split; [exact H1|]. split; [exact H2|]. split; [exact H3|]. split.
    + apply in_seat_keys. exact H4.
    + intros s Hs Hk. apply H5; [exact Hs | apply seat_matches_key; exact Hk].
Qed.

Lemma reserve_succeeds_witness :
  let req := mkRequest "Ann" "ann@example.org" "9800000000" "Batman" "10:00 AM" "A1" in
  In ("A1", "Batman", "10:00 AM") (map seat_key (seats (tables seeded)))
  /\ (forall s, In s (seats (tables seeded)) ->
                seat_key s = ("A1", "Batman", "10:00 AM") -> s_is_available s = true)
  /\ ~ In ("A1", "Batman", "10:00 AM") (map booking_key (bookings (tables seeded)))
  /\ fst (run 7 (post_api_bookings req) [false; false] seeded) = ReserveSucceeded 1
  /\ bookings (tables (snd (run 7 (post_api_bookings req) [false; false] seeded))) =
     [mkBooking 1 "Ann" "ann@example.org" "9800000000" "Batman" "10:00 AM" "A1" 7 confirmed].
Proof.
  intros req.
  assert (In ("A1", "Batman", "10:00 AM") (map seat_key (seats (tables seeded)))) as Hex.
  { apply (proj2 (in_seat_keys "A1" "Batman" "10:00 AM" (seats (tables seeded)))).
    apply (proj1 (existsb_exists (seat_matches "A1" "Batman" "10:00 AM")
                                 (seats (tables seeded)))).
    vm_compute. reflexivity. }
  assert (forall s, In s (seats (tables seeded)) ->
                    seat_key s = ("A1", "Batman", "10:00 AM") ->
                    s_is_available s = true) as Hav.
  { assert (forallb (fun s => implb (seat_matches "A1" "Batman" "10:00 AM" s)
                                    (s_is_available s))
                    (seats (tables seeded)) = true) as H by (vm_compute; reflexivity).
    intros s Hs Hk. apply seat_matches_key in Hk. rewrite forallb_forall in H.
    specialize (H s Hs). rewrite Hk in H. exact H. }
  assert (~ In ("A1", "Batman", "10:00 AM") (map booking_key (bookings (tables seeded))))
    as Hnew.
  { rewrite seeded_no_bookings. intros []. }
  destruct (reserve_succeeds 7 req [false; false] seeded Hex Hav eq_refl Hnew)
    as (H1 & H2 & _).
  split; [exact Hex|]. split; [exact Hav|]. split; [exact Hnew|]. split; [exact H1|].
  rewrite H2. vm_compute. reflexivity.
Defined.

(** When the seat exists and is flagged unavailable, an accepted Reserve
    answers SeatUnavailable and changes no table. *)
Lemma reserve_seat_taken now req c :
  (exists s, In s (seats (tables c))
             /\ seat_matches (seatNumber req) (movieName req) (showTime req) s = true) ->
  (forall s, In s (seats (tables c)) ->
             seat_matches (seatNumber req) (movieName req) (showTime req) s = true ->
             s_is_available s = false) ->
  let rc := run now (post_api_bookings req) [] c in
  fst rc = SeatUnavailable /\ tables (snd rc) = tables c.
Proof.
  intros (s0 & Hin0 & Hhit0) Htaken.
  destruct (in_filter_head _ _ _ Hin0 Hhit0) as (s & ss & E).
  destruct (filter_nonempty_existsb _ _ _ _ E) as (_ & Hin & Hhit).
  pose proof (Htaken s Hin Hhit) as Hs.
  unfold post_api_bookings. run_handler.
  rewrite E. cbn [map]. rewrite Hs. run_handler. split; reflexivity.
Qed.

(** Served one after the other, a second Reserve of the seat just
    reserved is answered SeatUnavailable, whoever the customer is. *)
Lemma second_reserve_is_unavailable now now' req req' c :
  (exists s, In s (seats (tables c))
             /\ seat_matches (seatNumber req) (movieName req) (showTime req) s = true) ->
  (forall s, In s (seats (tables c)) ->
             seat_matches (seatNumber req) (movieName req) (showTime req) s = true ->
             s_is_available s = true) ->
  existsb (booking_matches (seatNumber req) (movieName req) (showTime req))
          (bookings (tables c)) = false ->
  seatNumber req' = seatNumber req -> movieName req' = movieName req ->
  showTime req' = showTime req ->
  let c1 := snd (run now (post_api_bookings req) [] c) in
  fst (run now' (post_api_bookings req') [] c1) = SeatUnavailable
  /\ tables (snd (run now' (post_api_bookings req') [] c1)) = tables c1.
Proof.
  intros Hex Hav Hnew E1 E2 E3.
  destruct (post_api_bookings_accepted now req c Hex Hav Hnew) as (_ & _ & _ & Hex' & Htaken & _).
  apply reserve_seat_taken; rewrite E1, E2, E3; assumption.
Qed.

Lemma reserve_each_taken now req reqs : forall c,
  Forall (same_seat req) reqs ->
  (exists s, In s (seats (tables c))
             /\ seat_matches (seatNumber req) (movieName req) (showTime req) s = true) ->
  (forall s, In s (seats (tables c)) ->
             seat_matches (seatNumber req) (movieName req) (showTime req) s = true ->
             s_is_available s = false) ->
  fst (reserve_each now reqs c) = repeat SeatUnavailable (length reqs)
  /\ tables (snd (reserve_each now reqs c)) = tables c.
Proof.
  induction reqs as [|req' reqs IH]; intros c Hsame Hex Htaken; [split; reflexivity|].
  inversion Hsame as [|? ? (E1 & E2 & E3) Hrest]; subst.
  cbn [reserve_each length repeat].
  destruct (reserve_seat_taken now req' c) as [Hr Ht];
    [rewrite E1, E2, E3; assumption | rewrite E1, E2, E3; assumption |].
  destruct (run now (post_api_bookings req') [] c) as [r c1]. cbn [fst snd] in Hr, Ht.
  destruct (IH c1 Hrest) as [Hrs Hts]; [rewrite Ht; assumption | rewrite Ht; assumption |].
  destruct (reserve_each now reqs c1) as [rs c2]. cbn [fst snd] in *.
  split; [congruence | congruence].
Qed.

(** Served one after the other, N Reserve calls for one available seat
    that has no bookings row give one success and N-1 SeatUnavailable. *)
Lemma serial_reserves_same_seat now req reqs c :
  Forall (same_seat req) reqs ->
  (exists s, In s (seats (tables c))
             /\ seat_matches (seatNumber req) (movieName req) (showTime req) s = true) ->
  (forall s, In s (seats (tables c)) ->
             seat_matches (seatNumber req) (movieName req) (showTime req) s = true ->
             s_is_available s = true) ->
  existsb (booking_matches (seatNumber req) (movieName req) (showTime req))
          (bookings (tables c)) = false ->
  fst (reserve_each now (req :: reqs) c)
  = ReserveSucceeded (bookings_auto_increment c) :: repeat SeatUnavailable (length reqs).
Proof.
  intros Hsame Hex Hav Hnew. cbn [reserve_each].
  destruct (post_api_bookings_accepted now req c Hex Hav Hnew)
    as (Hr & _ & _ & Hex' & Htaken & _).
  destruct (run now (post_api_bookings req) [] c) as [r c1]. cbn [fst snd] in *.
  destruct (reserve_each_taken now req reqs c1 Hsame Hex' Htaken) as [Hrs _].
  destruct (reserve_each now reqs c1) as [rs c2]. cbn [fst snd] in *.
  rewrite Hr, Hrs. reflexivity.
Qed.

(** A Reserve that does not answer with a booking id has changed neither
    table, whichever statement was refused. *)
Lemma reserve_failure_leaves_tables now req faults c :
  status_code (fst (run now (post_api_bookings req) faults c)) <> 200 ->
  tables (snd (run now (post_api_bookings req) faults c)) = tables c.
Proof.
  intros H.
  destruct (post_api_bookings_cases now req faults c) as [[Ht _] | (Hr & _)]; auto.
  rewrite Hr in H. contradiction H. reflexivity.
Qed.

(** When the INSERT or the UPDATE of a Reserve is refused, the answer is
    a 500 and both tables are as before. *)
Lemma reserve_refused_write_is_transaction_failed now req faults c :
  hd false faults = false -> hd false (tl faults) = false ->
  (exists s ss, filter (seat_matches (seatNumber req) (movieName req) (showTime req))
                       (seats (tables c)) = s :: ss /\ s_is_available s = true) ->
  hd false (tl (tl faults)) = true \/ hd false (tl (tl (tl faults))) = true ->
  let rc := run now (post_api_bookings req) faults c in
  TransactionFailed (fst rc) /\ tables (snd rc) = tables c.
Proof.
  intros H1 H2 (s & ss & E & Hs) H34.
  unfold post_api_bookings, TransactionFailed. run_handler.
  rewrite H1. run_handler. rewrite H2. run_handler.
  rewrite E. cbn [map]. rewrite Hs. run_handler.
  destruct (hd false (tl (tl faults))); run_handler; [split; reflexivity|].
  destruct H34 as [H3 | H4]; [discriminate|].
  destruct (existsb _ _); run_handler; [split; reflexivity|].
  rewrite H4. run_handler. split; reflexivity.
Qed.

(** C5 (a failed storage operation of Reserve is expected to be
    signalled as TransactionFailed), at the availability read.  When
    START TRANSACTION is accepted and
    the availability read is refused, Reserve rolls back and leaves both
    tables unchanged, but it answers 400 "Seat not found" (SeatNotFound)
    and not a 500 (TransactionFailed): the callback tests
    [err || results.length === 0] in one condition. *)
Theorem reserve_refused_read_answers_seat_not_found now req rest c :
  let rc := run now (post_api_bookings req) (false :: true :: rest) c in
  fst rc = SeatNotFound
  /\ status_code (fst rc) = 400
  /\ ~ TransactionFailed (fst rc)
  /\ tables (snd rc) = tables c.
Proof.
  unfold post_api_bookings, TransactionFailed. run_handler.
  repeat split; auto. discriminate.
Qed.

(** ** Cancel *)

Lemma no_confirmed_row bookingId bs :
  filter (fun b => (b_id b =? bookingId) && Status_eqb (b_status b) confirmed) bs = []
  <-> ~ exists b, In b bs /\ b_id b = bookingId /\ b_status b = confirmed.
Proof.
  split.
  - intros E (b & Hb & Hid & Hst).
    assert (In b (filter (fun b => (b_id b =? bookingId)
                                   && Status_eqb (b_status b) confirmed) bs)) as H.
    { apply filter_In. split; [exact Hb|]. rewrite Hid, Hst, Nat.eqb_refl. reflexivity. }
    rewrite E in H. destruct H.
  - intros H. destruct (filter _ bs) as [|b rest] eqn:E; [reflexivity|].
    exfalso. apply H. apply filter_nonempty_existsb in E as (_ & Hb & Hhit).
    apply andb_true_iff in Hhit as [Hid Hst]. apply Nat.eqb_eq in Hid.
    exists b. repeat split; auto. destruct (b_status b); [reflexivity | discriminate].
Qed.

(** C6. Cancel (in a run where no statement is refused) answers
    NotCancellable exactly when the bookings table has no row with that id
    and status confirmed; and whenever Cancel answers NotCancellable,
    under any pattern of refused statements, both tables are as they
    were. *)
Theorem cancel_not_cancellable now bookingId c :
  (fst (run now (put_api_bookings_id_cancel bookingId) [] c) = NotCancellable
   <-> ~ exists b, In b (bookings (tables c))
                   /\ b_id b = bookingId /\ b_status b = confirmed)
  /\ (forall faults,
        fst (run now (put_api_bookings_id_cancel bookingId) faults c) = NotCancellable ->
        tables (snd (run now (put_api_bookings_id_cancel bookingId) faults c)) = tables c).
Proof.
  split.
  - rewrite <- no_confirmed_row.
    unfold put_api_bookings_id_cancel, NotCancellable. run_handler.
    destruct (filter _ (bookings (tables c))) as [|b rest]; run_handler.
    + split; reflexivity.
    + split; discriminate.
  - intros faults H.
    destruct (put_api_bookings_id_cancel_cases now bookingId faults c)
      as [[Ht _] | (b & rest & _ & Hr & _)]; auto.
    rewrite Hr in H. discriminate.
Qed.

Lemma cancel_not_cancellable_witness :
  fst (run 3 (put_api_bookings_id_cancel 42) [] seeded) = NotCancellable
  /\ tables (snd (run 3 (put_api_bookings_id_cancel 42) [] seeded)) = tables seeded.
Proof.
  assert (fst (run 3 (put_api_bookings_id_cancel 42) [] seeded) = NotCancellable) as H
    by (vm_compute; reflexivity).
  split; [exact H|].
  exact (proj2 (cancel_not_cancellable 3 42 seeded) [] H).
Defined.

(** Cancel under any pattern of refused statements: NotCancellable is the
    answer exactly when START TRANSACTION was accepted and the read was
    refused or found no confirmed row. *)
Lemma cancel_not_cancellable_under_faults now bookingId faults c :
  fst (run now (put_api_bookings_id_cancel bookingId) faults c) = NotCancellable
  <-> hd false faults = false
      /\ (hd false (tl faults) = true
          \/ filter (fun b => (b_id b =? bookingId) && Status_eqb (b_status b) confirmed)
                    (bookings (tables c)) = []).
Proof.
  unfold put_api_bookings_id_cancel, NotCancellable. run_handler.
  destruct (hd false faults); run_handler;
    [split; [discriminate | intros [H _]; discriminate]|].
  destruct (hd false (tl faults)); run_handler; [split; auto|].
  destruct (filter _ (bookings (tables c))) as [|b rest]; run_handler; [split; auto|].
  split.
  - destruct (hd false (tl (tl faults))); run_handler; [discriminate|].
    destruct (hd false (tl (tl (tl faults)))); run_handler; [discriminate|].
    destruct (hd false (tl (tl (tl (tl faults))))); run_handler; discriminate.
  - intros [_ [H | H]]; discriminate.
Qed.

(** ** Delete *)

Lemma primary_key_lookup (bs : list Booking) (b : Booking) :
  NoDup (map b_id bs) -> In b bs ->
  filter (fun x => b_id x =? b_id b) bs = [b].
Proof.
  induction bs as [|x bs IH]; simpl; intros Hnd Hin; [destruct Hin|].
  inversion Hnd as [|? ? Hx Hbs]; subst.
  destruct Hin as [-> | Hin].
  - rewrite Nat.eqb_refl. f_equal.
    destruct (filter _ bs) as [|y ys] eqn:E; auto.
    exfalso. apply Hx.
    apply filter_nonempty_existsb in E as (_ & Hy & Hid).
    apply Nat.eqb_eq in Hid. apply in_map_iff. eauto.
  - destruct (b_id x =? b_id b) eqn:E; auto.
    exfalso. apply Hx. apply Nat.eqb_eq in E. rewrite E.
    apply in_map. assumption.
Qed.

(** C7. For an existing booking (in a table that respects its PRIMARY
    KEY) and with no statement refused, Delete answers with success, the
    row is gone and the other rows stay; if the row was confirmed the seat
    it names is made available and no other seat changes; if it was
    cancelled the seats table is left exactly as it was. *)
Theorem delete_releases_seat_iff_confirmed now c booking :
  NoDup (map b_id (bookings (tables c))) ->
  In booking (bookings (tables c)) ->
  let rc := run now (delete_api_bookings_id (b_id booking)) [] c in
  let names := seat_matches (b_seat_number booking) (b_movie_name booking)
                            (b_show_time booking) in
  fst rc = res_json (json_success "Booking deleted successfully")
  /\ bookings (tables (snd rc)) =
     filter (fun b => negb (b_id b =? b_id booking)) (bookings (tables c))
  /\ ~ In booking (bookings (tables (snd rc)))
  /\ (b_status booking = confirmed ->
        seats (tables (snd rc)) =
        map (fun s => if names s then set_is_available true s else s) (seats (tables c))
        /\ forall s, In s (seats (tables (snd rc))) ->
                     seat_key s = booking_key booking -> s_is_available s = true)
  /\ (b_status booking = cancelled ->
        seats (tables (snd rc)) = seats (tables c)).
Proof.
  intros Hpk Hin.
  pose proof (primary_key_lookup _ _ Hpk Hin) as E.
  unfold delete_api_bookings_id. run_handler. rewrite E. run_handler.
  assert (~ In booking (filter (fun b => negb (b_id b =? b_id booking))
                               (bookings (tables c)))) as Hgone.
  { intros H. apply filter_In in H as [_ H]. rewrite Nat.eqb_refl in H. discriminate. }
  destruct (b_status booking); run_handler.
  - split; [reflexivity|]. split; [reflexivity|]. split; [exact Hgone|].
    split; [|discriminate]. intros _. split; [reflexivity|].
    intros s Hs Hk. apply in_map_iff in Hs as (x & <- & _).
    apply seat_matches_key in Hk.
    destruct (seat_matches _ _ _ x) eqn:Ex; [reflexivity | congruence].
  - split; [reflexivity|]. split; [reflexivity|]. split; [exact Hgone|].
    split; [discriminate | reflexivity].
Qed.

Lemma delete_releases_seat_iff_confirmed_witness :
  let c := snd (run 7 (post_api_bookings
                         (mkRequest "Ann" "ann@example.org" "9800000000"
                                    "Batman" "10:00 AM" "A1")) [] seeded) in
  let booking :=
    mkBooking 1 "Ann" "ann@example.org" "9800000000" "Batman" "10:00 AM" "A1" 7 confirmed in
  NoDup (map b_id (bookings (tables c)))
  /\ In booking (bookings (tables c))
  /\ bookings (tables (snd (run 8 (delete_api_bookings_id 1) [] c))) = []
  /\ existsb (fun s => seat_matches "A1" "Batman" "10:00 AM" s && s_is_available s)
             (seats (tables (snd (run 8 (delete_api_bookings_id 1) [] c)))) = true.
Proof.
  intros c booking.
  assert (bookings (tables c) = [booking]) as Hb by (vm_compute; reflexivity).
  assert (NoDup (map b_id (bookings (tables c)))) as Hpk.
  { rewrite Hb. simpl. constructor; [intros [] | constructor]. }
  assert (In booking (bookings (tables c))) as Hin.
  { rewrite Hb. left. reflexivity. }
  destruct (delete_releases_seat_iff_confirmed 8 c booking Hpk Hin)
    as (_ & H2 & _ & H4 & _).
  split; [exact Hpk|]. split; [exact Hin|]. split.
  - change (b_id booking) with 1 in H2. rewrite H2, Hb. reflexivity.
  - change (b_id booking) with 1 in H4. rewrite (proj1 (H4 eq_refl)).
    vm_compute. reflexivity.
Defined.

(** ** Bookings name seats *)

Lemma references_seats_step t t' :
  references_seats t ->
  (forall s, In s (seats t) -> exists s', In s' (seats t') /\ seat_key s' = seat_key s) ->
  (forall b', In b' (bookings t') ->
     (exists b, In b (bookings t) /\ booking_key b = booking_key b')
     \/ (exists s, In s (seats t) /\ seat_key s = booking_key b')) ->
  references_seats t'.
Proof.
  intros Href Hseats Hbook b' Hb'.
  destruct (Hbook b' Hb') as [(b & Hb & Hk) | (s & Hs & Hk)].
  - destruct (Href b Hb) as (s & Hs & Hsk).
    destruct (Hseats s Hs) as (s' & Hs' & Hk').
    exists s'. split; auto. congruence.
  - destruct (Hseats s Hs) as (s' & Hs' & Hk').
    exists s'. split; auto. congruence.
Qed.

Lemma seats_kept_by_update (hit : Seat -> bool) v ss s :
  In s ss ->
  exists s', In s' (map (fun x => if hit x then set_is_available v x else x) ss)
             /\ seat_key s' = seat_key s.
Proof.
  intros Hs. exists (if hit s then set_is_available v s else s). split.
  - apply in_map_iff. eauto.
  - destruct (hit s); reflexivity.
Qed.

Lemma bookings_from_update (hit : Booking -> bool) (f : Booking -> Booking) bs b' :
  (forall b, booking_key (f b) = booking_key b) ->
  In b' (map (fun b => if hit b then f b else b) bs) ->
  exists b, In b bs /\ booking_key b = booking_key b'.
Proof.
  intros Hf H. apply in_map_iff in H as (b & <- & Hb).
  exists b. split; auto. destruct (hit b); auto.
Qed.

Lemma handler_references_seats now op faults c :
  references_seats (tables c) ->
  references_seats (tables (snd (run now (handler op) faults c))).
Proof.
  intros Href. destruct op as [req | bookingId | bookingId | bookingId u e p]; cbn [handler].
  - destruct (post_api_bookings_cases now req faults c)
      as [[-> _] | (_ & -> & Hex & _)]; auto.
    apply (references_seats_step (tables c)); auto; cbn [seats bookings].
    + intros s Hs. apply seats_kept_by_update; assumption.
    + intros b' Hb'. apply in_app_iff in Hb' as [Hb' | [<- | []]]; [left; eauto|].
      right. apply existsb_exists in Hex as (s & Hs & Hhit).
      exists s. split; auto. apply seat_matches_key in Hhit. exact Hhit.
  - destruct (put_api_bookings_id_cancel_cases now bookingId faults c)
      as [[-> _] | (b & rest & _ & _ & ->)]; auto.
    apply (references_seats_step (tables c)); auto; cbn [seats bookings].
    + intros s Hs. apply seats_kept_by_update; assumption.
    + intros b' Hb'. left. eapply bookings_from_update; [|exact Hb']. reflexivity.
  - destruct (delete_api_bookings_id_cases now bookingId faults c)
      as [[-> _] | (b & rest & _ & _ & ->)]; auto.
    apply (references_seats_step (tables c)); auto; cbn [seats bookings].
    + intros s Hs. unfold seats_after_delete.
      destruct (b_status b); [apply seats_kept_by_update; assumption | eauto].
    + intros b' Hb'. left. apply filter_In in Hb' as [Hb' _]. eauto.
  - destruct (put_api_bookings_id_cases now bookingId u e p faults c) as [-> | ->]; auto.
    apply (references_seats_step (tables c)); auto; cbn [seats bookings].
    + eauto.
    + intros b' Hb'. left. eapply bookings_from_update; [|exact Hb']. reflexivity.
Qed.

Lemma reachable_references_seats c : reachable c -> references_seats (tables c).
Proof.
  induction 1 as [|c now faults op _ IH].
  - intros b Hb. rewrite seeded_no_bookings in Hb. destruct Hb.
  - apply handler_references_seats. exact IH.
Qed.

(** ** The availability flag and the confirmed bookings agree *)

Lemma NoDup_map_eq {X K : Type} (key : X -> K) (l : list X) (x y : X) :
  NoDup (map key l) -> In x l -> In y l -> key x = key y -> x = y.
Proof.
  induction l as [|z l IH]; simpl; intros Hnd Hx Hy E; [destruct Hx|].
  inversion Hnd as [|? ? Hz Hl]; subst.
  destruct Hx as [-> | Hx], Hy as [-> | Hy]; auto.
  - exfalso. apply Hz. rewrite E. apply in_map. exact Hy.
  - exfalso. apply Hz. rewrite <- E. apply in_map. exact Hx.
Qed.

Lemma filter_head_in {X : Type} (p : X -> bool) (l : list X) x xs :
  filter p l = x :: xs -> In x l /\ p x = true.
Proof.
  intros E. apply filter_nonempty_existsb in E as (_ & H1 & H2). auto.
Qed.

Lemma coherent_reserve n t sn mn st row :
  integrity n t -> ledger_coherent t ->
  booking_key row = (sn, mn, st) -> b_status row = confirmed ->
  ledger_coherent
    (mkTables (map (fun s => if seat_matches sn mn st s then set_is_available false s else s)
                   (seats t))
              (bookings t ++ [row])).
Proof.
  intros Hint Hcoh Hkey Hst s' Hs'. cbn [seats bookings] in *.
  apply in_map_iff in Hs' as (s & <- & Hs).
  destruct (seat_matches sn mn st s) eqn:Hhit.
  - split; [intros _ | reflexivity].
    exists row. split; [apply in_or_app; right; left; reflexivity|].
    split; [|exact Hst]. apply seat_matches_key in Hhit.
    rewrite Hkey. symmetry. exact Hhit.
  - rewrite (Hcoh s Hs). split; intros (b & Hb & Hk & Hc).
    + exists b. split; [apply in_or_app; left; exact Hb | auto].
    + apply in_app_iff in Hb as [Hb | [<- | []]]; [eauto|].
      exfalso. rewrite Hkey in Hk. symmetry in Hk.
      apply seat_matches_key in Hk. congruence.
Qed.

Lemma coherent_release n t booking bs' :
  integrity n t -> ledger_coherent t ->
  In booking (bookings t) ->
  (forall b, In b (bookings t) -> b_id b <> b_id booking ->
     exists b', In b' bs' /\ booking_key b' = booking_key b /\ b_status b' = b_status b) ->
  (forall b', In b' bs' -> b_status b' = confirmed ->
     exists b, In b (bookings t) /\ booking_key b = booking_key b'
               /\ b_status b = confirmed /\ b_id b <> b_id booking) ->
  ledger_coherent
    (mkTables (map (fun s => if seat_matches (b_seat_number booking) (b_movie_name booking)
                                             (b_show_time booking) s
                             then set_is_available true s else s) (seats t))
              bs').
Proof.
  intros [Hkeys Hids _ _] Hcoh Hin Hstay Hfrom s' Hs'. cbn [seats bookings] in *.
  apply in_map_iff in Hs' as (s & <- & Hs).
  destruct (seat_matches _ _ _ s) eqn:Hhit.
  - split; [discriminate|]. intros (b' & Hb' & Hk & Hc). exfalso.
    destruct (Hfrom b' Hb' Hc) as (b & Hb & Hkb & _ & Hid). apply Hid. f_equal.
    apply (NoDup_map_eq booking_key (bookings t)); auto.
    apply seat_matches_key in Hhit. rewrite Hkb, Hk. exact Hhit.
  - rewrite (Hcoh s Hs). split.
    + intros (b & Hb & Hk & Hc).
      destruct (Hstay b Hb) as (b' & Hb' & Hk' & Hc').
      * intros Hid. assert (b = booking) as ->
          by (apply (NoDup_map_eq b_id (bookings t)); auto).
        symmetry in Hk. apply seat_matches_key in Hk. congruence.
      * exists b'. split; [exact Hb'|]. split; congruence.
    + intros (b' & Hb' & Hk & Hc).
      destruct (Hfrom b' Hb' Hc) as (b & Hb & Hkb & Hcb & _).
      exists b. split; [exact Hb|]. split; congruence.
Qed.

Lemma coherent_same_seats t bs' :
  ledger_coherent t ->
  (forall b, In b (bookings t) -> b_status b = confirmed ->
     exists b', In b' bs' /\ booking_key b' = booking_key b /\ b_status b' = confirmed) ->
  (forall b', In b' bs' -> b_status b' = confirmed ->
     exists b, In b (bookings t) /\ booking_key b = booking_key b'
               /\ b_status b = confirmed) ->
  ledger_coherent (mkTables (seats t) bs').
Proof.
  intros Hcoh Hto Hfrom s Hs. cbn [seats bookings] in *.
  rewrite (Hcoh s Hs). split.
  - intros (b & Hb & Hk & Hc). destruct (Hto b Hb Hc) as (b' & Hb' & Hk' & Hc').
    exists b'. split; [exact Hb'|]. split; congruence.
  - intros (b' & Hb' & Hk & Hc). destruct (Hfrom b' Hb' Hc) as (b & Hb & Hkb & Hcb).
    exists b. split; [exact Hb|]. split; congruence.
Qed.

Lemma handler_ledger_coherent now op faults c :
  session_integrity c -> ledger_coherent (tables c) ->
  ledger_coherent (tables (snd (run now (handler op) faults c))).
Proof.
  intros [Hint _] Hcoh.
  destruct op as [req | bookingId | bookingId | bookingId u e p]; cbn [handler].
  - destruct (post_api_bookings_cases now req faults c)
      as [[-> _] | (_ & -> & _ & _)]; auto.
    eapply coherent_reserve; eauto.
  - destruct (put_api_bookings_id_cancel_cases now bookingId faults c)
      as [[-> _] | (booking & rest & E & _ & ->)]; auto.
    apply filter_head_in in E as [Hin Hhit].
    apply andb_true_iff in Hhit as [Hid _]. apply Nat.eqb_eq in Hid. subst bookingId.
    eapply coherent_release; eauto.
    + intros b Hb Hne. exists b. split; [|auto].
      apply in_map_iff. exists b. split; [|exact Hb].
      destruct (b_id b =? b_id booking) eqn:E; [|reflexivity].
      apply Nat.eqb_eq in E. contradiction.
    + intros b' Hb' Hc. apply in_map_iff in Hb' as (b & <- & Hb).
      destruct (b_id b =? b_id booking) eqn:E; [discriminate|].
      apply Nat.eqb_neq in E. exists b. auto.
  - destruct (delete_api_bookings_id_cases now bookingId faults c)
      as [[-> _] | (booking & rest & E & _ & ->)]; auto.
    apply filter_head_in in E as [Hin Hid]. apply Nat.eqb_eq in Hid. subst bookingId.
    unfold seats_after_delete. destruct (b_status booking) eqn:Hst.
    + eapply coherent_release; eauto.
      * intros b Hb Hne. exists b. split; [|auto].
        apply filter_In. split; [exact Hb|].
        apply negb_true_iff. apply Nat.eqb_neq. exact Hne.
      * intros b' Hb' Hc. apply filter_In in Hb' as [Hb' Hne].
        apply negb_true_iff in Hne. apply Nat.eqb_neq in Hne. exists b'. auto.
    + apply coherent_same_seats; auto.
      * intros b Hb Hc. exists b. split; [|auto].
        apply filter_In. split; [exact Hb|].
        apply negb_true_iff. apply Nat.eqb_neq. intros Hid.
        destruct Hint as [_ Hids _ _].
        assert (b = booking) by (apply (NoDup_map_eq b_id (bookings (tables c))); auto).
        congruence.
      * intros b' Hb' Hc. apply filter_In in Hb' as [Hb' _]. exists b'. auto.
  - destruct (put_api_bookings_id_cases now bookingId u e p faults c) as [-> | ->]; auto.
    apply coherent_same_seats; auto.
    + intros b Hb Hc.
      exists (if b_id b =? bookingId then set_contact u e p b else b).
      split; [apply in_map_iff; eauto|].
      destruct (b_id b =? bookingId); auto.
    + intros b' Hb' Hc. apply in_map_iff in Hb' as (b & <- & Hb).
      exists b. destruct (b_id b =? bookingId); auto.
Qed.

Lemma seeded_all_available :
  forallb s_is_available (seats (tables seeded)) = true.
Proof. vm_compute. reflexivity. Qed.

(** In every reachable state the availability flag and the confirmed
    bookings agree: a seat is unavailable exactly when a confirmed booking
    holds it. *)
Lemma reachable_ledger_coherent c : reachable c -> ledger_coherent (tables c).
Proof.
  induction 1 as [|c now faults op Hreach IH].
  - intros s Hs. rewrite seeded_no_bookings.
    pose proof seeded_all_available as H. rewrite forallb_forall in H.
    rewrite (H s Hs). split; [discriminate | intros (b & [] & _)].
  - apply handler_ledger_coherent; [apply reachable_integrity; exact Hreach | exact IH].
Qed.

(** ** The joined reads *)

Lemma in_insert_by_date_desc r x rs :
  In x (insert_by_date_desc r rs) <-> x = r \/ In x rs.
Proof.
  induction rs as [|y rs IH]; simpl.
  - split; [intros [<- | []]; auto | intros [-> | []]; auto].
  - destruct (_ <? _); simpl; [split; intros [H | H]; auto|].
    rewrite IH. split; intros H; intuition auto.
Qed.

Lemma in_order_by_date_desc x rs : In x (order_by_date_desc rs) <-> In x rs.
Proof.
  induction rs as [|r rs IH]; simpl; [reflexivity|].
  rewrite in_insert_by_date_desc, IH. split; intros [H | H]; auto.
Qed.

Lemma joined_row_of_booking bs ss b :
  In b bs ->
  (exists s, In s ss /\ seat_key s = booking_key b) ->
  exists s, In (mkJoined b (s_price s) (s_seat_type s)) (join_bookings_seats bs ss)
            /\ In s ss /\ seat_key s = booking_key b.
Proof.
  intros Hb (s & Hs & Hk). exists s. split; auto.
  unfold join_bookings_seats. apply in_flat_map. exists b. split; auto.
  apply in_map_iff. exists s. split; auto.
  apply filter_In. split; auto. apply seat_matches_key. exact Hk.
Qed.

Lemma filter_flat_map {X Y : Type} (f : X -> list Y) (p : Y -> bool) (q : X -> bool) (l : list X) :
  (forall x y, In y (f x) -> p y = q x) ->
  filter p (flat_map f l) = flat_map f (filter q l).
Proof.
  intros H. induction l as [|x l IH]; simpl; auto.
  rewrite filter_app, IH.
  destruct (q x) eqn:E; simpl; f_equal.
  - apply forallb_filter_id. apply forallb_forall. intros y Hy.
    rewrite (H x y Hy). exact E.
  - destruct (filter p (f x)) as [|y ys] eqn:F; auto.
    apply filter_nonempty_existsb in F as (_ & Hy & Hp).
    rewrite (H x y Hy) in Hp. congruence.
Qed.

(** C10. In every reachable state each booking row names a row of the
    seats table; hence the listing of bookings contains every booking
    row, and the read by id of an existing booking answers with that
    booking: the inner joins drop nothing. *)
Theorem bookings_reference_seats c :
  reachable c ->
  references_seats (tables c)
  /\ (forall now, exists rows,
        fst (run now get_api_bookings [] c) = res_json (json_rows rows)
        /\ forall b, In b (bookings (tables c)) -> In b (map j_booking rows))
  /\ (forall now b, In b (bookings (tables c)) ->
        exists row,
          fst (run now (get_api_bookings_id (b_id b)) [] c) = res_json (json_row row)
          /\ j_booking row = b).
Proof.
  intros Hreach.
  pose proof (reachable_references_seats c Hreach) as Href.
  pose proof (reachable_integrity c Hreach) as [[_ Hpk _ _] _].
  split; [exact Href|]. split.
  - intros now. unfold get_api_bookings. run_handler.
    eexists. split; [reflexivity|].
    intros b Hb.
    destruct (joined_row_of_booking _ (seats (tables c)) b Hb (Href b Hb))
      as (s & Hrow & _).
    apply in_map_iff. exists (mkJoined b (s_price s) (s_seat_type s)).
    split; [reflexivity|]. apply in_order_by_date_desc. exact Hrow.
  - intros now b Hb. unfold get_api_bookings_id. run_handler.
    unfold join_bookings_seats.
    rewrite (filter_flat_map _ _ (fun x => b_id x =? b_id b)).
    + rewrite (primary_key_lookup _ _ Hpk Hb). cbn [flat_map]. rewrite app_nil_r.
      destruct (Href b Hb) as (s & Hs & Hk).
      apply seat_matches_key in Hk.
      destruct (in_filter_head _ _ _ Hs Hk) as (y & ys & ->).
      cbn [map]. run_handler. eexists. split; reflexivity.
    + intros x y Hy. apply in_map_iff in Hy as (s & <- & _). reflexivity.
Qed.

Lemma bookings_reference_seats_witness :
  let c := snd (run 7 (handler (Reserve (mkRequest "Ann" "ann@example.org" "9800000000"
                                                    "Batman" "10:00 AM" "A1")))
                    [] seeded) in
  reachable c /\ references_seats (tables c).
Proof.
  intros c.
  assert (reachable c) as H by (apply reachable_op; apply reachable_seeded).
  split; [exact H|].
  exact (proj1 (bookings_reference_seats c H)).
Defined.

(** ** Two defects of the reservation transaction *)

(** C3 (Reserve, Cancel, then Reserve of the same triple is expected to
    succeed).  On the seeded catalog: Reserve seat A1 succeeds with id 1,
    Cancel 1 succeeds and makes the seat available again, and the second
    Reserve of the same seat is refused with 500 "Failed to create
    booking": the cancelled row still holds the triple in
    [unique_seat_show].  No table changes in the third step. *)
Theorem reserve_cancel_reserve_is_refused :
  let req := mkRequest "Ann" "ann@example.org" "9800000000" "Batman" "10:00 AM" "A1" in
  let rc1 := run 1 (handler (Reserve req)) [] seeded in
  let rc2 := run 2 (handler (Cancel 1)) [] (snd rc1) in
  let rc3 := run 3 (handler (Reserve req)) [] (snd rc2) in
  fst rc1 = ReserveSucceeded 1
  /\ fst rc2 = res_json (json_success "Booking cancelled successfully")
  /\ map s_is_available (filter (seat_matches "A1" "Batman" "10:00 AM")
                                (seats (tables (snd rc2)))) = [true]
  /\ fst rc3 = res_status_json 500 "Failed to create booking"
  /\ tables (snd rc3) = tables (snd rc2)
  /\ confirmed_for "Batman" "10:00 AM" "A1" (bookings (tables (snd rc3))) = 0.
Proof.
  vm_compute. repeat split; reflexivity.
Qed.

(** A bookings row for the triple, whatever its status, keeps every later
    Reserve of that triple from succeeding. *)
Lemma row_blocks_reserve now req faults c :
  In (seatNumber req, movieName req, showTime req)
     (map booking_key (bookings (tables c))) ->
  status_code (fst (run now (post_api_bookings req) faults c)) <> 200.
Proof.
  intros Hrow.
  destruct (post_api_bookings_cases now req faults c) as [[_ H] | (_ & _ & _ & Hnew)]; auto.
  exfalso. revert Hrow.
  apply (existsb_false_not_in
           (booking_matches (seatNumber req) (movieName req) (showTime req))); auto.
  intros b. apply booking_matches_key.
Qed.

(** Cancel never removes a row nor changes the triple of one. *)
Lemma cancel_keeps_keys now bookingId faults c :
  map booking_key (bookings (tables (snd (run now (put_api_bookings_id_cancel bookingId)
                                              faults c))))
  = map booking_key (bookings (tables c)).
Proof.
  destruct (put_api_bookings_id_cancel_cases now bookingId faults c)
    as [[-> _] | (b & rest & _ & _ & ->)]; [reflexivity|].
  cbn [bookings]. apply map_key_update. reflexivity.
Qed.

(** After any successful Reserve, no Cancel makes a second Reserve of the
    same triple succeed: the defect behind C3 in general form. *)
Lemma reserve_cancel_reserve_never_succeeds now1 now2 now3 faults1 faults2 faults3
      req bookingId c :
  let rc1 := run now1 (post_api_bookings req) faults1 c in
  let rc2 := run now2 (put_api_bookings_id_cancel bookingId) faults2 (snd rc1) in
  let rc3 := run now3 (post_api_bookings req) faults3 (snd rc2) in
  status_code (fst rc1) = 200 -> status_code (fst rc3) <> 200.
Proof.
  intros rc1 rc2 rc3 Hok. apply row_blocks_reserve.
  unfold rc2. rewrite cancel_keeps_keys.
  destruct (post_api_bookings_cases now1 req faults1 c) as [[_ H] | (_ & Ht & _)];
    [contradiction|].
  unfold rc1. rewrite Ht. cbn [bookings]. rewrite map_app. apply in_or_app.
  right. left. reflexivity.
Qed.

(** C4 (a Reserve on a seat that exists and is available, with no
    storage failure, is expected to succeed).  In every state reached by
    serving operations one after the other, a triple that a cancelled
    booking holds has its seat in the seats table, flagged available; and
    yet, with no statement refused by a fault, Reserve of that triple
    answers 500 "Failed to create booking", returns no booking id, inserts
    no row and leaves the seat available: the INSERT is refused by
    [unique_seat_show], which the cancelled row still occupies. *)
Theorem reserve_of_cancelled_seat_fails now req c b :
  let triple := (seatNumber req, movieName req, showTime req) in
  reachable c ->
  In b (bookings (tables c)) -> booking_key b = triple -> b_status b = cancelled ->
  let rc := run now (post_api_bookings req) [] c in
  In triple (map seat_key (seats (tables c)))
  /\ (forall s, In s (seats (tables c)) -> seat_key s = triple -> s_is_available s = true)
  /\ fst rc = res_status_json 500 "Failed to create booking"
  /\ (forall bookingId, fst rc <> ReserveSucceeded bookingId)
  /\ tables (snd rc) = tables c.
Proof.
  intros triple Hreach Hb Hk Hst rc.
  destruct (reachable_integrity c Hreach) as [[Huniq _ _ _] _].
  assert (forall s, In s (seats (tables c)) -> seat_key s = triple ->
                    s_is_available s = true) as Hav.
  { intros s Hs Hsk. destruct (s_is_available s) eqn:E; [reflexivity|].
    apply (reachable_ledger_coherent c Hreach s Hs) in E as (b' & Hb' & Hk' & Hst').
    assert (b' = b) as ->.
    { apply (NoDup_map_eq booking_key (bookings (tables c))); auto. congruence. }
    congruence. }
  destruct (reachable_references_seats c Hreach b Hb) as (s0 & Hs0 & Hk0).
  assert (seat_matches (seatNumber req) (movieName req) (showTime req) s0 = true) as Hhit0.
  { apply seat_matches_key. rewrite Hk0. exact Hk. }
  assert (existsb (booking_matches (seatNumber req) (movieName req) (showTime req))
                  (bookings (tables c)) = true) as Hrow.
  { apply existsb_exists. exists b. split; [exact Hb|].
    apply booking_matches_key. exact Hk. }
  split; [|split; [exact Hav|]].
  { apply in_seat_keys. exists s0. auto. }
  destruct (in_filter_head _ _ _ Hs0 Hhit0) as (s & ss & E).
  assert (s_is_available s = true) as Hs.
  { apply filter_nonempty_existsb in E as E'. destruct E' as (_ & Hin & Hhit).
    apply Hav; [exact Hin | apply seat_matches_key; exact Hhit]. }
  subst rc. unfold post_api_bookings, ReserveSucceeded. run_handler.
  rewrite E. cbn [map]. rewrite Hs. run_handler. rewrite Hrow. run_handler.
  split; [reflexivity|]. split; [discriminate | reflexivity].
Qed.

Lemma reserve_of_cancelled_seat_fails_witness :
  let req := mkRequest "Ann" "ann@example.org" "9800000000" "Batman" "10:00 AM" "A1" in
  let c := snd (run 2 (handler (Cancel 1)) []
                    (snd (run 1 (handler (Reserve req)) [] seeded))) in
  let b := mkBooking 1 "Ann" "ann@example.org" "9800000000" "Batman" "10:00 AM" "A1" 1
                     cancelled in
  reachable c /\ In b (bookings (tables c))
  /\ In ("A1", "Batman", "10:00 AM") (map seat_key (seats (tables c)))
  /\ (forall s, In s (seats (tables c)) -> seat_key s = ("A1", "Batman", "10:00 AM") ->
                s_is_available s = true)
  /\ fst (run 3 (post_api_bookings req) [] c)
     = res_status_json 500 "Failed to create booking"
  /\ tables (snd (run 3 (post_api_bookings req) [] c)) = tables c.
Proof.
  intros req c b.
  assert (reachable c) as Hreach by (do 2 apply reachable_op; apply reachable_seeded).
  assert (In b (bookings (tables c))) as Hb by (vm_compute; left; reflexivity).
  pose proof (reserve_of_cancelled_seat_fails 3 req c b Hreach Hb eq_refl eq_refl)
    as (H1 & H2 & H3 & _ & H5).
  split; [exact Hreach|]. split; [exact Hb|]. split; [exact H1|]. split; [exact H2|].
  split; [exact H3 | exact H5].
Defined.

(** C2 (N concurrent Reserve calls for one available seat are expected
    to give one success and N-1 SeatUnavailable).  Two Reserve requests
    for the same available seat of the seeded catalog whose handlers both
    start before any command completes.  On
    the shared connection both availability reads run before either
    UPDATE; the second INSERT is refused by [unique_seat_show] and answered
    500 "Failed to create booking", not "Seat already booked"; its
    ROLLBACK also undoes the INSERT and UPDATE of the first request, which
    is nevertheless answered with booking id 1.  At the end no booking
    exists and the seat is available. *)
Theorem concurrent_reserves_same_seat :
  let ann := mkRequest "Ann" "ann@example.org" "9800000000" "Batman" "10:00 AM" "A1" in
  let bob := mkRequest "Bob" "bob@example.org" "9811111111" "Batman" "10:00 AM" "A1" in
  let m := run_events (idle seeded)
             ([Arrive (Reserve ann); Arrive (Reserve bob)] ++ completions 9 10) in
  queue m = []
  /\ responses m = [(1, res_status_json 500 "Failed to create booking");
                    (0, ReserveSucceeded 1)]
  /\ ~ In SeatUnavailable (map snd (responses m))
  /\ bookings (tables (conn m)) = []
  /\ map s_is_available (filter (seat_matches "A1" "Batman" "10:00 AM")
                                (seats (tables (conn m)))) = [true].
Proof.
  vm_compute. repeat split; try reflexivity.
  intros [H | [H | []]]; discriminate.
Qed.

(** The same two requests as in C2 when the second arrives after the
    first was answered: one success, one SeatUnavailable, one confirmed
    booking. *)
Lemma staggered_reserves_same_seat :
  let ann := mkRequest "Ann" "ann@example.org" "9800000000" "Batman" "10:00 AM" "A1" in
  let bob := mkRequest "Bob" "bob@example.org" "9811111111" "Batman" "10:00 AM" "A1" in
  let m := run_events (idle seeded)
             ([Arrive (Reserve ann)] ++ completions 9 5
              ++ [Arrive (Reserve bob)] ++ completions 9 3) in
  queue m = []
  /\ responses m = [(0, ReserveSucceeded 1); (1, SeatUnavailable)]
  /\ confirmed_for "Batman" "10:00 AM" "A1" (bookings (tables (conn m))) = 1.
Proof.
  vm_compute. repeat split; reflexivity.
Qed.

(** ** Seeding *)

Lemma in_catalog_intro movie showTime row i :
  In movie movies -> In showTime showTimes -> In row seatRows -> In i seatIndices ->
  In (movie, showTime, row, i) catalog.
Proof.
  intros Hm Ht Hr Hi. unfold catalog.
  apply in_flat_map. exists movie. split; auto.
  apply in_flat_map. exists showTime. split; auto.
  apply in_flat_map. exists row. split; auto.
  apply in_map. exact Hi.
Qed.

Lemma seeded_once_spec ss :
  forallb (seeded_once ss) catalog = true ->
  forall movie showTime row i,
    In movie movies -> In showTime showTimes -> In row seatRows -> In i seatIndices ->
    exists s,
      filter (seat_matches (seatNumber_of row i) movie showTime) ss = [s]
      /\ s_is_available s = true
      /\ (row = "A" \/ row = "B" -> s_seat_type s = premium /\ s_price s = 20000%N)
      /\ (row = "C" \/ row = "D" \/ row = "E" ->
          s_seat_type s = regular /\ s_price s = 15000%N).
Proof.
  intros Hall movie showTime row i Hm Ht Hr Hi.
  rewrite forallb_forall in Hall.
  specialize (Hall _ (in_catalog_intro movie showTime row i Hm Ht Hr Hi)).
  unfold seeded_once in Hall.
  destruct (filter _ _) as [|s [|s' rest]]; try discriminate.
  apply andb_true_iff in Hall as [Hall Hprice].
  apply andb_true_iff in Hall as [Hav Htype].
  apply N.eqb_eq in Hprice.
  exists s. split; [reflexivity|]. split; [exact Hav|]. split.
  - intros [-> | ->]; cbn in Htype, Hprice;
      destruct (s_seat_type s); try discriminate; auto.
  - intros [-> | [-> | ->]]; cbn in Htype, Hprice;
      destruct (s_seat_type s); try discriminate; auto.
Qed.

Lemma in_catalog_spec ss :
  forallb in_catalog ss = true ->
  forall s, In s ss ->
    exists movie showTime row i,
      In (movie, showTime, row, i) catalog
      /\ seat_matches (seatNumber_of row i) movie showTime s = true.
Proof.
  intros Honly s Hs. rewrite forallb_forall in Honly.
  specialize (Honly s Hs). unfold in_catalog in Honly.
  apply existsb_exists in Honly as ([[[movie showTime] row] i] & Hin & Hhit).
  exists movie, showTime, row, i. split; assumption.
Qed.

(** The seeding loops, run on any store without seats. *)
Lemma initializeSeats_on_empty now bs snap n1 n2 :
  let ss := seats (tables (snd (run now initializeSeats []
                                    (mkConn (mkTables [] bs) snap n1 n2)))) in
  forallb (seeded_once ss) catalog = true
  /\ forallb in_catalog ss = true
  /\ length ss = length movies * length showTimes * length seatRows * 10.
Proof.
  cbv zeta. split; [|split]; vm_compute; reflexivity.
Qed.

(** C8. Run on a store without seats (and with no statement refused),
    [initializeSeats] leaves exactly one seat row per combination of
    movie, show time, row A-E and number 1-10, and no other row; each is
    available; rows A and B are premium at 200.00 and rows C, D and E are
    regular at 150.00.  Run on a store that has a seat, it changes
    nothing. *)
Theorem initializeSeats_seeds_catalog_once :
  (forall now c,
     seats (tables c) = [] ->
     let ss := seats (tables (snd (run now initializeSeats [] c))) in
     (forall movie showTime row i,
        In movie movies -> In showTime showTimes -> In row seatRows ->
        In i seatIndices ->
        exists s,
          filter (seat_matches (seatNumber_of row i) movie showTime) ss = [s]
          /\ s_is_available s = true
          /\ (row = "A" \/ row = "B" ->
              s_seat_type s = premium /\ s_price s = 20000%N)
          /\ (row = "C" \/ row = "D" \/ row = "E" ->
              s_seat_type s = regular /\ s_price s = 15000%N))
     /\ (forall s, In s ss ->
           exists movie showTime row i,
             In (movie, showTime, row, i) catalog
             /\ seat_matches (seatNumber_of row i) movie showTime s = true)
     /\ length ss = length movies * length showTimes * length seatRows * 10)
  /\ (forall now faults c,
        seats (tables c) <> [] -> snd (run now initializeSeats faults c) = c).
Proof.
  split.
  - intros now [[ss0 bs] snap n1 n2] Hempty. cbn [tables seats] in Hempty. subst ss0.
    destruct (initializeSeats_on_empty now bs snap n1 n2) as (Hall & Honly & Hlen).
    split; [exact (seeded_once_spec _ Hall)|].
    split; [exact (in_catalog_spec _ Honly) | exact Hlen].
  - intros now faults c Hne. unfold initializeSeats. run_handler.
    destruct (hd false faults); run_handler; [reflexivity|].
    destruct (seats (tables c)) as [|s ss]; [contradiction Hne; reflexivity|].
    reflexivity.
Qed.

Lemma initializeSeats_seeds_catalog_once_witness :
  seats (tables empty_db) = []
  /\ (exists s,
        filter (seat_matches (seatNumber_of "B" 10) "Spider-Man" "6:00 PM")
               (seats (tables seeded)) = [s]
        /\ s_is_available s = true /\ s_seat_type s = premium /\ s_price s = 20000%N)
  /\ seats (tables seeded) <> []
  /\ snd (run 1 initializeSeats [] seeded) = seeded.
Proof.
  destruct initializeSeats_seeds_catalog_once as [Hempty Hfull].
  assert (seats (tables seeded) <> []) as Hne by (vm_compute; discriminate).
  split; [reflexivity|]. split; [|split; [exact Hne | exact (Hfull 1 [] seeded Hne)]].
  destruct (Hempty 0 empty_db eq_refl) as (Hall & _).
  destruct (Hall "Spider-Man" "6:00 PM" "B" 10) as (s & Hs & Hav & Hprem & _).
  - right; left; reflexivity.
  - right; right; left; reflexivity.
  - right; left; reflexivity.
  - unfold seatIndices. apply in_seq. lia.
  - exists s. destruct Hprem as [Ht Hp]; [right; reflexivity|].
    repeat split; assumption.
Defined.

(** ** UpdateContactInfo *)

(** The route itself validates nothing: with three empty strings for an
    existing booking it answers with success and has blanked the contact
    columns of the row. *)
Lemma put_api_bookings_id_accepts_empty_fields :
  let c := snd (run 7 (post_api_bookings
                         (mkRequest "Ann" "ann@example.org" "9800000000"
                                    "Batman" "10:00 AM" "A1")) [] seeded) in
  let rc := run 8 (put_api_bookings_id 1 "" "" "") [] c in
  bookings (tables c) =
    [mkBooking 1 "Ann" "ann@example.org" "9800000000" "Batman" "10:00 AM" "A1" 7 confirmed]
  /\ fst rc = res_json (json_success "Booking updated successfully")
  /\ bookings (tables (snd rc)) =
     [mkBooking 1 "" "" "" "Batman" "10:00 AM" "A1" 7 confirmed]
  /\ bookings (tables (snd rc)) <> bookings (tables c).
Proof.
  vm_compute. repeat split; try reflexivity. discriminate.
Qed.

(** C9, as the code has it.  The check for empty fields is in the
    browser: [updateBooking] trims the three inputs and, if one of them is
    empty, shows "Please fill in all fields" and sends no request, so the
    session is exactly as it was; without a current booking id it does
    nothing at all.  The route PUT /api/bookings/:id, whatever it is sent,
    never changes a seat. *)
Theorem empty_edit_is_rejected_in_the_browser now faults c :
  (forall currentBookingId editUserName editUserEmail editUserPhone,
     Client.trim editUserName = "" \/ Client.trim editUserEmail = ""
     \/ Client.trim editUserPhone = "" ->
     let out := Client.submit_edit now faults currentBookingId
                                   editUserName editUserEmail editUserPhone c in
     snd out = c
     /\ snd (fst out) = None
     /\ (forall n, currentBookingId = Some (S n) -> fst (fst out) = Client.ValidationFailed))
  /\ (forall bookingId userName email phone,
        seats (tables (snd (run now (put_api_bookings_id bookingId userName email phone)
                                faults c)))
        = seats (tables c)).
Proof.
  split.
  - intros cur name mail tel Hempty.
    assert (Client.is_empty (Client.trim name) || Client.is_empty (Client.trim mail)
            || Client.is_empty (Client.trim tel) = true) as E.
    { destruct Hempty as [-> | [-> | ->]]; cbn [Client.is_empty];
        rewrite ?orb_true_r; reflexivity. }
    unfold Client.submit_edit, Client.updateBooking.
    destruct cur as [[|n]|]; cbn [fst snd]; [repeat split; discriminate| |repeat split; discriminate].
    rewrite E. cbn [fst snd]. repeat split; reflexivity.
  - intros bookingId userName email phone.
    destruct (put_api_bookings_id_cases now bookingId userName email phone faults c)
      as [-> | ->]; reflexivity.
Qed.

Lemma empty_edit_is_rejected_in_the_browser_witness :
  Client.trim "  " = ""
  /\ Client.submit_edit 8 [] (Some 1) "Ann" "  " "9800000000" seeded
     = (Client.ValidationFailed, None, seeded).
Proof.
  split; [reflexivity|].
  destruct (proj1 (empty_edit_is_rejected_in_the_browser 8 [] seeded)
              (Some 1) "Ann" "  " "9800000000")
    as (H1 & H2 & H3); [right; left; reflexivity|].
  specialize (H3 0 eq_refl).
  destruct (Client.submit_edit 8 [] (Some 1) "Ann" "  " "9800000000" seeded)
    as [[e r] c'].
  cbn [fst snd] in *. subst. reflexivity.
Defined.

(* ================================================================== *)
(** * Part III: further properties of the routes *)
(* ================================================================== *)

(** ** Failed operations and open transactions *)

Lemma update_without_hit {X : Type} (hit : X -> bool) (f : X -> X) (l : list X) :
  length (filter hit l) = 0 -> map (fun x => if hit x then f x else x) l = l.
Proof.
  induction l as [|x l IH]; simpl; intros H; [reflexivity|].
  destruct (hit x); [discriminate|]. rewrite IH; auto.
Qed.

Lemma put_api_bookings_id_not_found now bookingId userName email phone faults c :
  status_code (fst (run now (put_api_bookings_id bookingId userName email phone) faults c))
  <> 200 ->
  tables (snd (run now (put_api_bookings_id bookingId userName email phone) faults c))
  = tables c.
Proof.
  unfold put_api_bookings_id. run_handler.
  destruct (hd false faults); run_handler; [reflexivity|].
  cbn [affectedRows header].
  destruct (length _ =? 0) eqn:E; run_handler; [|intros H; contradiction H; reflexivity].
  intros _. apply Nat.eqb_eq in E. rewrite update_without_hit; [|exact E].
  destruct (tables c); reflexivity.
Qed.

(** X1. Whatever statements are refused, an operation that does not answer
    200 has changed neither table: every error path of Reserve, Cancel
    and Delete rolls back, and an UpdateContactInfo that is refused or
    finds no row writes nothing. *)
Theorem failed_operation_changes_nothing now op faults c :
  status_code (fst (run now (handler op) faults c)) <> 200 ->
  tables (snd (run now (handler op) faults c)) = tables c.
Proof.
  destruct op as [req | bookingId | bookingId | bookingId u e p]; cbn [handler]; intros H.
  - destruct (post_api_bookings_cases now req faults c) as [[Ht _] | (Hr & _)]; auto.
    rewrite Hr in H. contradiction H. reflexivity.
  - destruct (put_api_bookings_id_cancel_cases now bookingId faults c)
      as [[Ht _] | (b & rest & _ & Hr & _)]; auto.
    rewrite Hr in H. contradiction H. reflexivity.
  - destruct (delete_api_bookings_id_cases now bookingId faults c)
      as [[Ht _] | (b & rest & _ & Hr & _)]; auto.
    rewrite Hr in H. contradiction H. reflexivity.
  - apply put_api_bookings_id_not_found. exact H.
Qed.

Lemma failed_operation_changes_nothing_witness :
  status_code (fst (run 3 (handler (Cancel 42)) [] seeded)) <> 200
  /\ tables (snd (run 3 (handler (Cancel 42)) [] seeded)) = tables seeded.
Proof.
  assert (status_code (fst (run 3 (handler (Cancel 42)) [] seeded)) <> 200) as H
    by (vm_compute; discriminate).
  split; [exact H|].
  exact (failed_operation_changes_nothing 3 (Cancel 42) [] seeded H).
Defined.

(** X2. No operation leaves a transaction open: started on a session
    without an open transaction, every handler ends, under any pattern of
    refused statements, on a session without one. *)
Theorem no_transaction_left_open now op faults c :
  snapshot c = None -> snapshot (snd (run now (handler op) faults c)) = None.
Proof.
  intros Hc.
  destruct op as [req | bookingId | bookingId | bookingId u e p]; cbn [handler].
  - unfold post_api_bookings. run_handler.
    destruct (hd false faults); run_handler; [exact Hc|].
    destruct (hd false (tl faults)); run_handler; [reflexivity|].
    destruct (filter _ (seats (tables c))) as [|s ss]; cbn [map]; run_handler;
      [reflexivity|].
    destruct (s_is_available s); run_handler; [|reflexivity].
    destruct (hd false (tl (tl faults))); run_handler; [reflexivity|].
    destruct (existsb _ (bookings (tables c))); run_handler; [reflexivity|].
    destruct (hd false (tl (tl (tl faults)))); run_handler; [reflexivity|].
    destruct (hd false (tl (tl (tl (tl faults))))); run_handler; reflexivity.
  - unfold put_api_bookings_id_cancel. run_handler.
    destruct (hd false faults); run_handler; [exact Hc|].
    destruct (hd false (tl faults)); run_handler; [reflexivity|].
    destruct (filter _ (bookings (tables c))) as [|b rest]; run_handler; [reflexivity|].
    destruct (hd false (tl (tl faults))); run_handler; [reflexivity|].
    destruct (hd false (tl (tl (tl faults)))); run_handler; [reflexivity|].
    destruct (hd false (tl (tl (tl (tl faults))))); run_handler; reflexivity.
  - unfold delete_api_bookings_id. run_handler.
    destruct (hd false faults); run_handler; [exact Hc|].
    destruct (hd false (tl faults)); run_handler; [reflexivity|].
    destruct (filter _ (bookings (tables c))) as [|b rest]; run_handler; [reflexivity|].
    destruct (hd false (tl (tl faults))); run_handler; [reflexivity|].
    destruct (b_status b); run_handler.
    + destruct (hd false (tl (tl (tl faults)))); run_handler; [reflexivity|].
      destruct (hd false (tl (tl (tl (tl faults))))); run_handler; reflexivity.
    + destruct (hd false (tl (tl (tl faults)))); run_handler; reflexivity.
  - unfold put_api_bookings_id. run_handler.
    destruct (hd false faults); run_handler; [exact Hc|].
    cbn [affectedRows header]. destruct (_ =? 0); run_handler; exact Hc.
Qed.

Lemma no_transaction_left_open_witness :
  snapshot seeded = None
  /\ snapshot (snd (run 3 (handler (Delete 1)) [false; false; true] seeded)) = None.
Proof.
  assert (snapshot seeded = None) as H by (vm_compute; reflexivity).
  split; [exact H|].
  exact (no_transaction_left_open 3 (Delete 1) [false; false; true] seeded H).
Defined.

(** ** Reserve, answer by answer *)

Lemma not_in_seat_keys_filter sn mn st ss :
  ~ In (sn, mn, st) (map seat_key ss) <-> filter (seat_matches sn mn st) ss = [].
Proof.
  split.
  - intros H. destruct (filter _ ss) as [|s rest] eqn:E; [reflexivity|].
    exfalso. apply H. apply filter_nonempty_existsb in E as (_ & Hs & Hhit).
    apply in_seat_keys. eauto.
  - intros E H. apply in_seat_keys in H as (s & Hs & Hhit).
    assert (In s (filter (seat_matches sn mn st) ss)) as Hin by (apply filter_In; auto).
    rewrite E in Hin. destruct Hin.
Qed.

Lemma in_booking_keys_existsb sn mn st bs :
  In (sn, mn, st) (map booking_key bs) <-> existsb (booking_matches sn mn st) bs = true.
Proof.
  rewrite existsb_exists, in_map_iff. split; intros (b & H1 & H2); exists b.
  - split; [exact H2 | apply booking_matches_key; exact H1].
  - split; [apply booking_matches_key; exact H2 | exact H1].
Qed.

(** X3. When no statement is refused by a fault, the answer of Reserve is
    decided by the two tables alone: SeatNotFound exactly when no seat row
    has the triple; SeatUnavailable exactly when the seat row found is
    flagged unavailable; 500 "Failed to create booking" exactly when the
    seat is available but a bookings row already holds the triple; and a
    booking id exactly when the seat is available and no bookings row
    holds the triple. *)
Theorem reserve_decision_table now req c :
  let triple := (seatNumber req, movieName req, showTime req) in
  let found := filter (seat_matches (seatNumber req) (movieName req) (showTime req))
                      (seats (tables c)) in
  let answer := fst (run now (post_api_bookings req) [] c) in
  (answer = SeatNotFound <-> ~ In triple (map seat_key (seats (tables c))))
  /\ (answer = SeatUnavailable
      <-> exists s ss, found = s :: ss /\ s_is_available s = false)
  /\ (answer = res_status_json 500 "Failed to create booking"
      <-> (exists s ss, found = s :: ss /\ s_is_available s = true)
          /\ In triple (map booking_key (bookings (tables c))))
  /\ (answer = ReserveSucceeded (bookings_auto_increment c)
      <-> (exists s ss, found = s :: ss /\ s_is_available s = true)
          /\ ~ In triple (map booking_key (bookings (tables c)))).
Proof.
  intros triple found answer. subst triple found answer.
  rewrite not_in_seat_keys_filter, in_booking_keys_existsb.
  unfold post_api_bookings, SeatNotFound, SeatUnavailable, ReserveSucceeded.
  run_handler.
  destruct (filter _ (seats (tables c))) as [|s ss]; cbn [map]; run_handler.
  { repeat split; try discriminate; try reflexivity.
    - intros (s & ss & E & _). discriminate.
    - intros [(s & ss & E & _) _]. discriminate.
    - intros [(s & ss & E & _) _]. discriminate. }
  destruct (s_is_available s) eqn:Hs; run_handler.
  - destruct (existsb _ (bookings (tables c))) eqn:Hrow; run_handler.
    + repeat split; try discriminate; try reflexivity.
      * intros (s' & ss' & [= <- <-] & H). congruence.
      * exists s, ss. auto.
      * intros [_ H]. contradiction H. reflexivity.
    + repeat split; try discriminate; try reflexivity.
      * intros (s' & ss' & [= <- <-] & H). congruence.
      * intros [_ H]. discriminate.
      * exists s, ss. auto.
  - repeat split; try discriminate; try reflexivity.
    + exists s, ss. auto.
    + intros [(s' & ss' & [= <- <-] & H) _]. congruence.
    + intros [(s' & ss' & [= <- <-] & H) _]. congruence.
Qed.

(** ** Success paths as equations, and round trips *)

Lemma post_api_bookings_commits now req c s ss :
  filter (seat_matches (seatNumber req) (movieName req) (showTime req))
         (seats (tables c)) = s :: ss ->
  s_is_available s = true ->
  existsb (booking_matches (seatNumber req) (movieName req) (showTime req))
          (bookings (tables c)) = false ->
  run now (post_api_bookings req) [] c
  = (ReserveSucceeded (bookings_auto_increment c),
     mkConn
       (mkTables
          (map (fun x => if seat_matches (seatNumber req) (movieName req) (showTime req) x
                         then set_is_available false x else x) (seats (tables c)))
          (bookings (tables c)
             ++ [mkBooking (bookings_auto_increment c) (userName req) (email req)
                           (phone req) (movieName req) (showTime req) (seatNumber req)
                           now confirmed]))
       None (seats_auto_increment c) (S (bookings_auto_increment c))).
Proof.
  intros E Hs Hnew. unfold post_api_bookings. run_handler.
  rewrite E. cbn [map]. rewrite Hs. run_handler. rewrite Hnew. run_handler.
  reflexivity.
Qed.

Lemma put_api_bookings_id_cancel_commits now bookingId c b rest :
  filter (fun x => (b_id x =? bookingId) && Status_eqb (b_status x) confirmed)
         (bookings (tables c)) = b :: rest ->
  run now (put_api_bookings_id_cancel bookingId) [] c
  = (res_json (json_success "Booking cancelled successfully"),
     mkConn
       (mkTables
          (map (fun x => if seat_matches (b_seat_number b) (b_movie_name b) (b_show_time b) x
                         then set_is_available true x else x) (seats (tables c)))
          (map (fun x => if b_id x =? bookingId then set_status cancelled x else x)
               (bookings (tables c))))
       None (seats_auto_increment c) (bookings_auto_increment c)).
Proof.
  intros E. unfold put_api_bookings_id_cancel. run_handler. rewrite E. run_handler.
  reflexivity.
Qed.

Lemma delete_api_bookings_id_commits now bookingId c b rest :
  filter (fun x => b_id x =? bookingId) (bookings (tables c)) = b :: rest ->
  run now (delete_api_bookings_id bookingId) [] c
  = (res_json (json_success "Booking deleted successfully"),
     mkConn
       (mkTables (seats_after_delete b (seats (tables c)))
                 (filter (fun x => negb (b_id x =? bookingId)) (bookings (tables c))))
       None (seats_auto_increment c) (bookings_auto_increment c)).
Proof.
  intros E. unfold delete_api_bookings_id, seats_after_delete. run_handler.
  rewrite E. run_handler. destruct (b_status b); run_handler; reflexivity.
Qed.

Lemma release_after_hold sn mn st ss :
  (forall s, In s ss -> seat_matches sn mn st s = true -> s_is_available s = true) ->
  map (fun s => if seat_matches sn mn st s then set_is_available true s else s)
      (map (fun s => if seat_matches sn mn st s then set_is_available false s else s) ss)
  = ss.
Proof.
  intros H. rewrite map_map. rewrite <- (map_id ss) at 2.
  apply map_ext_in. intros s Hs.
  destruct (seat_matches sn mn st s) eqn:E.
  - change (seat_matches sn mn st (set_is_available false s))
      with (seat_matches sn mn st s).
    rewrite E. specialize (H s Hs E). destruct s. cbn in *. subst. reflexivity.
  - rewrite E. reflexivity.
Qed.

Lemma filter_fresh_id n bs row :
  (forall b, In b bs -> b_id b < n) -> b_id row = n ->
  filter (fun x => b_id x =? n) (bs ++ [row]) = [row]
  /\ filter (fun x => negb (b_id x =? n)) (bs ++ [row]) = bs.
Proof.
  intros Hlt Hid. rewrite !filter_app. cbn [filter]. rewrite Hid, Nat.eqb_refl.
  cbn [negb]. rewrite app_nil_r.
  assert (forall b, In b bs -> (b_id b =? n) = false) as Hne.
  { intros b Hb. apply Nat.eqb_neq. specialize (Hlt b Hb). lia. }
  split.
  - replace (filter (fun x => b_id x =? n) bs) with (@nil Booking); [reflexivity|].
    symmetry. induction bs as [|b bs IH]; [reflexivity|]. cbn [filter].
    rewrite (Hne b (or_introl eq_refl)). apply IH.
    + intros x Hx. apply Hlt. right. exact Hx.
    + intros x Hx. apply Hne. right. exact Hx.
  - apply forallb_filter_id. apply forallb_forall. intros b Hb.
    rewrite (Hne b Hb). reflexivity.
Qed.

(** X4. Reserve then Delete is a round trip.  On tables whose booking ids
    are below the AUTO_INCREMENT counter, when a Reserve succeeds (seat
    present and available, no bookings row for the triple, nothing
    refused), deleting the booking it returned answers with success and
    puts both tables back exactly as they were before the Reserve; the
    same Reserve then succeeds again, with the next id. *)
Theorem reserve_then_delete_restores now1 now2 now3 req c :
  let triple := (seatNumber req, movieName req, showTime req) in
  (forall b, In b (bookings (tables c)) -> b_id b < bookings_auto_increment c) ->
  In triple (map seat_key (seats (tables c))) ->
  (forall s, In s (seats (tables c)) -> seat_key s = triple -> s_is_available s = true) ->
  ~ In triple (map booking_key (bookings (tables c))) ->
  let rc1 := run now1 (post_api_bookings req) [] c in
  let rc2 := run now2 (delete_api_bookings_id (bookings_auto_increment c)) [] (snd rc1) in
  let rc3 := run now3 (post_api_bookings req) [] (snd rc2) in
  fst rc1 = ReserveSucceeded (bookings_auto_increment c)
  /\ fst rc2 = res_json (json_success "Booking deleted successfully")
  /\ tables (snd rc2) = tables c
  /\ fst rc3 = ReserveSucceeded (S (bookings_auto_increment c)).
Proof.
  intros triple Hlt Hex Hav Hnew rc1 rc2 rc3. subst rc3 rc2 rc1.
  apply in_seat_keys in Hex as (s0 & Hin0 & Hhit0).
  destruct (in_filter_head _ _ _ Hin0 Hhit0) as (s & ss & E).
  destruct (filter_nonempty_existsb _ _ _ _ E) as (_ & Hin & Hhit).
  assert (forall x, In x (seats (tables c)) ->
                    seat_matches (seatNumber req) (movieName req) (showTime req) x = true ->
                    s_is_available x = true) as Hav'.
  { intros x Hx Hk. apply Hav; [exact Hx | apply seat_matches_key; exact Hk]. }
  pose proof (not_in_keys_existsb _ _ _ _ Hnew) as Hnew'.
  rewrite (post_api_bookings_commits now1 req c s ss E (Hav' s Hin Hhit) Hnew').
  cbn [fst snd].
  set (row := mkBooking (bookings_auto_increment c) (userName req) (email req)
                        (phone req) (movieName req) (showTime req) (seatNumber req)
                        now1 confirmed).
  destruct (filter_fresh_id (bookings_auto_increment c) (bookings (tables c)) row Hlt
                            eq_refl) as [Hget Hdel].
  rewrite (delete_api_bookings_id_commits now2 _ _ row []); [|exact Hget].
  cbn [fst snd tables seats bookings]. unfold seats_after_delete.
  cbn [b_status row b_seat_number b_movie_name b_show_time].
  rewrite Hdel, (release_after_hold _ _ _ _ Hav').
  split; [reflexivity|]. split; [reflexivity|].
  split; [destruct (tables c); reflexivity|].
  rewrite (post_api_bookings_commits now3 req _ s ss); cbn [tables seats bookings];
    auto.
Qed.

Lemma reserve_then_delete_restores_witness :
  let req := mkRequest "Ann" "ann@example.org" "9800000000" "Batman" "10:00 AM" "A1" in
  let rc1 := run 1 (post_api_bookings req) [] seeded in
  let rc2 := run 2 (delete_api_bookings_id (bookings_auto_increment seeded)) [] (snd rc1) in
  tables (snd rc2) = tables seeded
  /\ fst (run 3 (post_api_bookings req) [] (snd rc2))
     = ReserveSucceeded (S (bookings_auto_increment seeded)).
Proof.
  intros req rc1 rc2.
  assert (forall b, In b (bookings (tables seeded)) ->
                    b_id b < bookings_auto_increment seeded) as Hlt.
  { intros b Hb. rewrite seeded_no_bookings in Hb. destruct Hb. }
  assert (In ("A1", "Batman", "10:00 AM") (map seat_key (seats (tables seeded)))) as Hex.
  { apply (proj2 (in_seat_keys "A1" "Batman" "10:00 AM" (seats (tables seeded)))).
    apply (proj1 (existsb_exists (seat_matches "A1" "Batman" "10:00 AM")
                                 (seats (tables seeded)))).
    vm_compute. reflexivity. }
  assert (forall s, In s (seats (tables seeded)) ->
                    seat_key s = ("A1", "Batman", "10:00 AM") ->
                    s_is_available s = true) as Hav.
  { assert (forallb s_is_available (seats (tables seeded)) = true) as H
      by (vm_compute; reflexivity).
    intros s Hs _. rewrite forallb_forall in H. exact (H s Hs). }
  assert (~ In ("A1", "Batman", "10:00 AM") (map booking_key (bookings (tables seeded))))
    as Hnew.
  { rewrite seeded_no_bookings. intros []. }
  destruct (reserve_then_delete_restores 1 2 3 req seeded Hlt Hex Hav Hnew)
    as (_ & _ & H3 & H4).
  split; [exact H3 | exact H4].
Defined.

(** ** Cancel, Delete and UpdateContactInfo on existing and missing rows *)

Lemma confirmed_lookup bs b :
  NoDup (map b_id bs) -> In b bs -> b_status b = confirmed ->
  filter (fun x => (b_id x =? b_id b) && Status_eqb (b_status x) confirmed) bs = [b].
Proof.
  intros Hpk Hin Hst.
  pose proof (primary_key_lookup bs b Hpk Hin) as E.
  assert (forall l, filter (fun x => (b_id x =? b_id b) && Status_eqb (b_status x) confirmed) l
                    = filter (fun x => Status_eqb (b_status x) confirmed)
                             (filter (fun x => b_id x =? b_id b) l)) as Hsplit.
  { induction l as [|x l IH]; [reflexivity|]. cbn [filter].
    destruct (b_id x =? b_id b); cbn [andb filter]; rewrite IH; reflexivity. }
  rewrite Hsplit, E. cbn [filter]. rewrite Hst. reflexivity.
Qed.

Lemma no_confirmed_after_cancel bookingId bs :
  filter (fun x => (b_id x =? bookingId) && Status_eqb (b_status x) confirmed)
         (map (fun x => if b_id x =? bookingId then set_status cancelled x else x) bs)
  = [].
Proof.
  induction bs as [|x bs IH]; [reflexivity|]. cbn [map filter].
  destruct (b_id x =? bookingId) eqn:E.
  - cbn [set_status b_id b_status]. rewrite E. cbn [Status_eqb andb]. exact IH.
  - rewrite E. cbn [andb]. exact IH.
Qed.

(** X5. The success path of Cancel and its repetition.  For a confirmed
    booking of a table with distinct ids, with no statement refused:
    Cancel answers with success; the row stays in the table with status
    cancelled and all its other columns as before; rows of other ids are
    untouched; the seat the booking names is available afterwards.  A
    second Cancel of the same id answers NotCancellable and changes no
    table. *)
Theorem cancel_marks_and_releases now now' c booking :
  NoDup (map b_id (bookings (tables c))) ->
  In booking (bookings (tables c)) ->
  b_status booking = confirmed ->
  let rc := run now (put_api_bookings_id_cancel (b_id booking)) [] c in
  let rc' := run now' (put_api_bookings_id_cancel (b_id booking)) [] (snd rc) in
  fst rc = res_json (json_success "Booking cancelled successfully")
  /\ In (set_status cancelled booking) (bookings (tables (snd rc)))
  /\ length (bookings (tables (snd rc))) = length (bookings (tables c))
  /\ (forall b, In b (bookings (tables c)) -> b_id b <> b_id booking ->
                In b (bookings (tables (snd rc))))
  /\ (forall s, In s (seats (tables (snd rc))) -> seat_key s = booking_key booking ->
                s_is_available s = true)
  /\ fst rc' = NotCancellable
  /\ tables (snd rc') = tables (snd rc).
Proof.
  intros Hpk Hin Hst rc rc'. subst rc' rc.
  rewrite (put_api_bookings_id_cancel_commits now _ c booking []);
    [|apply confirmed_lookup; assumption].
  cbn [fst snd tables seats bookings].
  split; [reflexivity|]. split; [|split; [|split; [|split]]].
  - apply in_map_iff. exists booking. rewrite Nat.eqb_refl. auto.
  - apply length_map.
  - intros b Hb Hne. apply in_map_iff. exists b. split; [|exact Hb].
    destruct (b_id b =? b_id booking) eqn:E; [|reflexivity].
    apply Nat.eqb_eq in E. contradiction.
  - intros s Hs Hk. apply in_map_iff in Hs as (x & <- & _).
    apply seat_matches_key in Hk.
    destruct (seat_matches _ _ _ x) eqn:Ex; [reflexivity | congruence].
  - unfold put_api_bookings_id_cancel, NotCancellable. run_handler.
    rewrite no_confirmed_after_cancel. run_handler. split; reflexivity.
Qed.

Lemma cancel_marks_and_releases_witness :
  let c := snd (run 7 (post_api_bookings
                         (mkRequest "Ann" "ann@example.org" "9800000000"
                                    "Batman" "10:00 AM" "A1")) [] seeded) in
  let booking :=
    mkBooking 1 "Ann" "ann@example.org" "9800000000" "Batman" "10:00 AM" "A1" 7 confirmed in
  NoDup (map b_id (bookings (tables c)))
  /\ In booking (bookings (tables c))
  /\ fst (run 8 (put_api_bookings_id_cancel 1) [] c)
     = res_json (json_success "Booking cancelled successfully")
  /\ fst (run 9 (put_api_bookings_id_cancel 1) []
              (snd (run 8 (put_api_bookings_id_cancel 1) [] c))) = NotCancellable.
Proof.
  intros c booking.
  assert (bookings (tables c) = [booking]) as Hb by (vm_compute; reflexivity).
  assert (NoDup (map b_id (bookings (tables c)))) as Hpk.
  { rewrite Hb. simpl. constructor; [intros [] | constructor]. }
  assert (In booking (bookings (tables c))) as Hin.
  { rewrite Hb. left. reflexivity. }
  destruct (cancel_marks_and_releases 8 9 c booking Hpk Hin eq_refl)
    as (H1 & _ & _ & _ & _ & H6 & _).
  split; [exact Hpk|]. split; [exact Hin|]. split; [exact H1 | exact H6].
Defined.

Lemma no_row_with_id bookingId bs :
  filter (fun b => b_id b =? bookingId) bs = []
  <-> ~ exists b, In b bs /\ b_id b = bookingId.
Proof.
  split.
  - intros E (b & Hb & Hid).
    assert (In b (filter (fun b => b_id b =? bookingId) bs)) as H.
    { apply filter_In. split; [exact Hb|]. apply Nat.eqb_eq. exact Hid. }
    rewrite E in H. destruct H.
  - intros H. destruct (filter _ bs) as [|b rest] eqn:E; [reflexivity|].
    exfalso. apply H. apply filter_nonempty_existsb in E as (_ & Hb & Hid).
    apply Nat.eqb_eq in Hid. eauto.
Qed.

Lemma filter_after_removal {X : Type} (p : X -> bool) (l : list X) :
  filter p (filter (fun x => negb (p x)) l) = [].
Proof.
  induction l as [|x l IH]; [reflexivity|]. cbn [filter].
  destruct (p x) eqn:E; cbn [negb filter]; [exact IH|]. rewrite E. exact IH.
Qed.

(** X6. Delete of a missing booking.  With no statement refused, Delete
    answers NotFound exactly when the bookings table has no row of that
    id (whatever its status); and whenever Delete answers NotFound, under
    any pattern of refused statements, both tables are as they were.  A
    Delete of an id that a Delete has just removed answers NotFound. *)
Theorem delete_not_found now bookingId c :
  (fst (run now (delete_api_bookings_id bookingId) [] c) = NotFound
   <-> ~ exists b, In b (bookings (tables c)) /\ b_id b = bookingId)
  /\ (forall faults,
        fst (run now (delete_api_bookings_id bookingId) faults c) = NotFound ->
        tables (snd (run now (delete_api_bookings_id bookingId) faults c)) = tables c)
  /\ (forall now' faults,
        status_code (fst (run now (delete_api_bookings_id bookingId) faults c)) = 200 ->
        fst (run now' (delete_api_bookings_id bookingId) []
                 (snd (run now (delete_api_bookings_id bookingId) faults c))) = NotFound).
Proof.
  split; [|split].
  - rewrite <- no_row_with_id.
    unfold delete_api_bookings_id, NotFound. run_handler.
    destruct (filter _ (bookings (tables c))) as [|b rest]; run_handler.
    + split; reflexivity.
    + destruct (b_status b); run_handler; split; discriminate.
  - intros faults H.
    destruct (delete_api_bookings_id_cases now bookingId faults c)
      as [[Ht _] | (b & rest & _ & Hr & _)]; auto.
    rewrite Hr in H. discriminate.
  - intros now' faults Hok.
    destruct (delete_api_bookings_id_cases now bookingId faults c)
      as [[_ Hs] | (b & rest & _ & _ & Ht)]; [contradiction|].
    unfold delete_api_bookings_id at 1, NotFound. run_handler. rewrite Ht.
    cbn [bookings]. rewrite filter_after_removal. run_handler. reflexivity.
Qed.

Lemma delete_not_found_witness :
  fst (run 3 (delete_api_bookings_id 42) [] seeded) = NotFound
  /\ tables (snd (run 3 (delete_api_bookings_id 42) [] seeded)) = tables seeded.
Proof.
  assert (fst (run 3 (delete_api_bookings_id 42) [] seeded) = NotFound) as H
    by (vm_compute; reflexivity).
  split; [exact H|].
  exact (proj1 (proj2 (delete_not_found 3 42 seeded)) [] H).
Defined.

Lemma confirmed_for_update_contact movieName showTime seatNumber bookingId u e p bs :
  confirmed_for movieName showTime seatNumber
    (map (fun b => if b_id b =? bookingId then set_contact u e p b else b) bs)
  = confirmed_for movieName showTime seatNumber bs.
Proof.
  unfold confirmed_for. induction bs as [|b bs IH]; [reflexivity|].
  cbn [map filter].
  assert (forall x : Booking,
            booking_matches seatNumber movieName showTime
              (if b_id x =? bookingId then set_contact u e p x else x)
            && Status_eqb (b_status (if b_id x =? bookingId then set_contact u e p x else x))
                          confirmed
            = booking_matches seatNumber movieName showTime x
              && Status_eqb (b_status x) confirmed) as Hsame.
  { intros x. destruct (b_id x =? bookingId); reflexivity. }
  rewrite Hsame. destruct (_ && _); cbn [length]; rewrite IH; reflexivity.
Qed.

(** X7. UpdateContactInfo, with no statement refused: it answers NotFound
    exactly when no bookings row has the id, and with success otherwise;
    it rewrites the three contact columns of the rows of that id and
    nothing else (ids, triples, dates and statuses stay, so the number of
    confirmed bookings of every triple stays); it does not look at the
    status, so a cancelled booking is updated like a confirmed one; and
    sending the same update again changes nothing more. *)
Theorem update_contact_info now now' bookingId userName email phone c :
  let rc := run now (put_api_bookings_id bookingId userName email phone) [] c in
  let rc' := run now' (put_api_bookings_id bookingId userName email phone) [] (snd rc) in
  (fst rc = NotFound <-> ~ exists b, In b (bookings (tables c)) /\ b_id b = bookingId)
  /\ (fst rc = res_json (json_success "Booking updated successfully")
      <-> exists b, In b (bookings (tables c)) /\ b_id b = bookingId)
  /\ bookings (tables (snd rc))
     = map (fun b => if b_id b =? bookingId then set_contact userName email phone b else b)
           (bookings (tables c))
  /\ seats (tables (snd rc)) = seats (tables c)
  /\ (forall movieName showTime seatNumber,
        confirmed_for movieName showTime seatNumber (bookings (tables (snd rc)))
        = confirmed_for movieName showTime seatNumber (bookings (tables c)))
  /\ tables (snd rc') = tables (snd rc).
Proof.
  intros rc rc'. subst rc' rc.
  unfold put_api_bookings_id, NotFound. run_handler. cbn [affectedRows header].
  split; [|split; [|split; [|split; [|split]]]].
  - rewrite <- no_row_with_id.
    destruct (filter _ (bookings (tables c))) as [|b rest]; cbn [length Nat.eqb];
      run_handler; split; try reflexivity; discriminate.
  - destruct (filter _ (bookings (tables c))) as [|b rest] eqn:E; cbn [length Nat.eqb];
      run_handler.
    + split; [discriminate|]. intros H. exfalso. revert H. apply no_row_with_id. exact E.
    + split; [intros _|reflexivity].
      apply filter_nonempty_existsb in E as (_ & Hb & Hid).
      apply Nat.eqb_eq in Hid. eauto.
  - destruct (length _ =? 0); reflexivity.
  - destruct (length _ =? 0); reflexivity.
  - intros m st sn. destruct (length _ =? 0); run_handler;
      apply confirmed_for_update_contact.
  - destruct (length _ =? 0); run_handler; cbn [affectedRows header];
      destruct (length _ =? 0); run_handler; f_equal;
      rewrite map_map; apply map_ext; intros b;
      destruct (b_id b =? bookingId) eqn:E; cbn [set_contact b_id]; rewrite ?E;
      reflexivity.
Qed.

(** ** The seats table in reachable states *)

Lemma set_available_on_available ss :
  forallb s_is_available ss = true -> map (set_is_available true) ss = ss.
Proof.
  intros H. rewrite <- (map_id ss) at 2. apply map_ext_in. intros s Hs.
  rewrite forallb_forall in H. specialize (H s Hs).
  destruct s. cbn in *. subst. reflexivity.
Qed.

Lemma set_available_after_update (hit : Seat -> bool) v ss :
  map (set_is_available true)
      (map (fun s => if hit s then set_is_available v s else s) ss)
  = map (set_is_available true) ss.
Proof.
  rewrite map_map. apply map_ext. intros s. destruct (hit s); reflexivity.
Qed.

Lemma handler_keeps_seat_columns now op faults c :
  map (set_is_available true) (seats (tables (snd (run now (handler op) faults c))))
  = map (set_is_available true) (seats (tables c)).
Proof.
  destruct op as [req | bookingId | bookingId | bookingId u e p]; cbn [handler].
  - destruct (post_api_bookings_cases now req faults c) as [[-> _] | (_ & -> & _)];
      [reflexivity|]. cbn [seats]. apply set_available_after_update.
  - destruct (put_api_bookings_id_cancel_cases now bookingId faults c)
      as [[-> _] | (b & rest & _ & _ & ->)]; [reflexivity|].
    cbn [seats]. apply set_available_after_update.
  - destruct (delete_api_bookings_id_cases now bookingId faults c)
      as [[-> _] | (b & rest & _ & _ & ->)]; [reflexivity|].
    cbn [seats]. unfold seats_after_delete.
    destruct (b_status b); [apply set_available_after_update | reflexivity].
  - destruct (put_api_bookings_id_cases now bookingId u e p faults c) as [-> | ->];
      reflexivity.
Qed.

Lemma reachable_seat_columns c :
  reachable c ->
  map (set_is_available true) (seats (tables c)) = seats (tables seeded).
Proof.
  induction 1 as [|c now faults op _ IH].
  - apply (set_available_on_available (seats (tables seeded))).
    vm_compute. reflexivity.
  - rewrite handler_keeps_seat_columns. exact IH.
Qed.

(** X8. The four operations never add, remove or reorder a seat and never
    change a seat's id, number, movie, show time, type or price: in every
    reachable state the seats table is the seeded one except for the
    availability flags, so it has the 600 rows of the catalog, and the
    AUTO_INCREMENT counter of seats stays where the seeding left it after
    any operation, whatever is refused. *)
Theorem seats_differ_only_in_availability c :
  reachable c ->
  map (set_is_available true) (seats (tables c)) = seats (tables seeded)
  /\ length (seats (tables c)) = 600
  /\ map s_id (seats (tables c)) = seq 1 600.
Proof.
  intros Hreach. pose proof (reachable_seat_columns c Hreach) as H.
  split; [exact H|]. split.
  - rewrite <- (length_map (set_is_available true)), H. vm_compute. reflexivity.
  - replace (map s_id (seats (tables c)))
      with (map s_id (map (set_is_available true) (seats (tables c))))
      by (rewrite map_map; apply map_ext; intros []; reflexivity).
    rewrite H. vm_compute. reflexivity.
Qed.

Lemma seats_differ_only_in_availability_witness :
  let c := snd (run 7 (handler (Reserve (mkRequest "Ann" "ann@example.org" "9800000000"
                                                    "Batman" "10:00 AM" "A1")))
                    [] seeded) in
  reachable c /\ length (seats (tables c)) = 600.
Proof.
  intros c.
  assert (reachable c) as H by (apply reachable_op; apply reachable_seeded).
  split; [exact H|].
  exact (proj1 (proj2 (seats_differ_only_in_availability c H))).
Defined.

(** ** The ledger and the booking ids in reachable states *)

Lemma filter_length_pos {X : Type} (p : X -> bool) (l : list X) :
  0 < length (filter p l) <-> exists x, In x l /\ p x = true.
Proof.
  induction l as [|y l IH]; cbn [filter].
  - split; [cbn; lia | intros (x & [] & _)].
  - destruct (p y) eqn:E.
    + split; [intros _; exists y; split; [left; reflexivity | exact E] | cbn; lia].
    + rewrite IH. split; intros (x & Hx & Hp); exists x.
      * split; [right; exact Hx | exact Hp].
      * destruct Hx as [-> | Hx]; [congruence | auto].
Qed.

Lemma Status_eqb_confirmed st : Status_eqb st confirmed = true <-> st = confirmed.
Proof. destruct st; cbn; split; congruence. Qed.

Lemma hd_error_In {X : Type} (l : list X) (x : X) : hd_error l = Some x -> In x l.
Proof. destruct l; [discriminate | intros [= ->]; left; reflexivity]. Qed.

(** The invariant that follows is one of serial service.  On the shared
    connection it can be broken with nothing refused: a Cancel of a
    missing booking that arrives together with a Reserve rolls back
    between the INSERT and the UPDATE of the Reserve, which is answered
    with booking id 1 and leaves the seat unavailable with no bookings
    row. *)
Lemma overlapping_cancel_breaks_the_ledger :
  let ann := mkRequest "Ann" "ann@example.org" "9800000000" "Batman" "10:00 AM" "A1" in
  let m := run_events (idle seeded)
             ([Arrive (Reserve ann); Arrive (Cancel 42)] ++ completions 9 8) in
  queue m = []
  /\ responses m = [(1, NotCancellable); (0, ReserveSucceeded 1)]
  /\ map s_is_available (filter (seat_matches "A1" "Batman" "10:00 AM")
                                (seats (tables (conn m)))) = [false]
  /\ bookings (tables (conn m)) = [].
Proof.
  vm_compute. repeat split; reflexivity.
Qed.

(** X20. In every state reached from the seeded catalog by operations
    served one after the other (no two requests overlapping on the
    connection), under any pattern of refused statements, the
    availability flag of a seat counts the confirmed bookings of its
    triple: one for a seat flagged unavailable, none for a seat flagged
    available.  Cancelled bookings do not hold a seat, and no seat is held
    without a confirmed booking. *)
Theorem availability_counts_confirmed_bookings c s :
  reachable c -> In s (seats (tables c)) ->
  confirmed_for (s_movie_name s) (s_show_time s) (s_seat_number s) (bookings (tables c))
  = if s_is_available s then 0 else 1.
Proof.
  intros Hreach Hs.
  pose proof (reachable_ledger_coherent c Hreach s Hs) as Hled.
  destruct (reachable_integrity c Hreach) as [Hint _].
  pose proof (integrity_confirmed_for _ _ (s_movie_name s) (s_show_time s)
                                      (s_seat_number s) Hint) as Hone.
  assert (0 < confirmed_for (s_movie_name s) (s_show_time s) (s_seat_number s)
                            (bookings (tables c))
          <-> s_is_available s = false) as Hpos.
  { rewrite Hled. unfold confirmed_for. rewrite filter_length_pos.
    split; intros (b & Hb & H); exists b.
    - apply andb_true_iff in H as [Hk Hst].
      apply booking_matches_key in Hk. apply Status_eqb_confirmed in Hst.
      repeat split; assumption.
    - destruct H as [Hk Hst]. split; [exact Hb|].
      apply andb_true_iff. split.
      + apply booking_matches_key. exact Hk.
      + apply Status_eqb_confirmed. exact Hst. }
  destruct (s_is_available s).
  - destruct (confirmed_for _ _ _ _); [reflexivity|].
    assert (true = false) by (apply Hpos; lia). discriminate.
  - assert (0 < confirmed_for (s_movie_name s) (s_show_time s) (s_seat_number s)
                              (bookings (tables c))) by (apply Hpos; reflexivity).
    lia.
Qed.

Lemma availability_counts_confirmed_bookings_witness :
  let ann := mkRequest "Ann" "ann@example.org" "9800000000" "Batman" "10:00 AM" "A1" in
  let c := snd (run 7 (handler (Reserve ann)) [] seeded) in
  let held := mkSeat 401 "A1" "Batman" "10:00 AM" false premium 20000 in
  let free := mkSeat 402 "A2" "Batman" "10:00 AM" true premium 20000 in
  reachable c
  /\ In held (seats (tables c)) /\ In free (seats (tables c))
  /\ confirmed_for "Batman" "10:00 AM" "A1" (bookings (tables c)) = 1
  /\ confirmed_for "Batman" "10:00 AM" "A2" (bookings (tables c)) = 0.
Proof.
  intros ann c held free.
  assert (reachable c) as Hreach by (apply reachable_op; apply reachable_seeded).
  assert (filter (seat_matches "A1" "Batman" "10:00 AM") (seats (tables c)) = [held]) as E1
    by (vm_compute; reflexivity).
  assert (filter (seat_matches "A2" "Batman" "10:00 AM") (seats (tables c)) = [free]) as E2
    by (vm_compute; reflexivity).
  pose proof (proj1 (proj2 (filter_nonempty_existsb _ _ _ _ E1))) as Hheld.
  pose proof (proj1 (proj2 (filter_nonempty_existsb _ _ _ _ E2))) as Hfree.
  split; [exact Hreach|]. split; [exact Hheld|]. split; [exact Hfree|]. split.
  - exact (availability_counts_confirmed_bookings c held Hreach Hheld).
  - exact (availability_counts_confirmed_bookings c free Hreach Hfree).
Defined.

Lemma exec_counter_grows k now fault R (cmd : Cmd R) c :
  k <= bookings_auto_increment c ->
  k <= bookings_auto_increment (snd (exec now fault cmd c)).
Proof.
  intros H. destruct cmd; cbv beta iota delta [exec];
    try (destruct fault; [exact H|]); cbn [exec_ok snd with_tables bookings_auto_increment];
    try exact H.
  - destruct (snapshot c); exact H.
  - destruct (existsb _ _); exact H.
  - destruct (existsb _ _); cbn [snd bookings_auto_increment]; lia.
Qed.

(** X21. Booking ids are not reused.  No operation, whatever is refused
    during it, lowers the AUTO_INCREMENT counter of bookings; in every
    state reached from the seeded catalog by operations served one after
    the other the ids of the bookings rows are pairwise different and
    below the counter; and the id that a successful Reserve returns there
    is above the id of every row present before it and is the id of a
    confirmed row afterwards. *)
Theorem booking_ids_are_not_reused c :
  reachable c ->
  NoDup (map b_id (bookings (tables c)))
  /\ (forall b, In b (bookings (tables c)) -> b_id b < bookings_auto_increment c)
  /\ (forall now op faults,
        bookings_auto_increment c
        <= bookings_auto_increment (snd (run now (handler op) faults c)))
  /\ (forall now req faults bookingId,
        fst (run now (post_api_bookings req) faults c) = ReserveSucceeded bookingId ->
        (forall b, In b (bookings (tables c)) -> b_id b < bookingId)
        /\ exists b, In b (bookings (tables (snd (run now (post_api_bookings req) faults c))))
                     /\ b_id b = bookingId /\ b_status b = confirmed).
Proof.
  intros Hreach. destruct (reachable_integrity c Hreach) as [[_ Hpk Hlt _] _].
  split; [exact Hpk|]. split; [exact Hlt|]. split.
  - intros now op faults.
    apply (run_keeps (fun c' => bookings_auto_increment c <= bookings_auto_increment c'));
      [|reflexivity].
    intros. apply exec_counter_grows. assumption.
  - intros now req faults bookingId Hok.
    destruct (post_api_bookings_cases now req faults c) as [[_ Hno] | (Hr & Ht & _)].
    + rewrite Hok in Hno. contradiction Hno. reflexivity.
    + rewrite Hr in Hok. injection Hok as <-. split; [exact Hlt|].
      rewrite Ht. cbn [bookings]. eexists. split.
      * apply in_or_app. right. left. reflexivity.
      * split; reflexivity.
Qed.

Lemma booking_ids_are_not_reused_witness :
  let ann := mkRequest "Ann" "ann@example.org" "9800000000" "Batman" "10:00 AM" "A1" in
  let bob := mkRequest "Bob" "bob@example.org" "9811111111" "Batman" "10:00 AM" "A2" in
  let c := snd (run 3 (handler (Delete 1)) []
             (snd (run 2 (handler (Reserve bob)) []
                (snd (run 1 (handler (Reserve ann)) [] seeded)))) ) in
  reachable c
  /\ map b_id (bookings (tables c)) = [2]
  /\ NoDup (map b_id (bookings (tables c)))
  /\ (forall b, In b (bookings (tables c)) -> b_id b < bookings_auto_increment c)
  /\ fst (run 4 (post_api_bookings ann) [] c) = ReserveSucceeded 3
  /\ (forall b, In b (bookings (tables c)) -> b_id b < 3)
  /\ (exists b, In b (bookings (tables (snd (run 4 (post_api_bookings ann) [] c))))
                /\ b_id b = 3 /\ b_status b = confirmed)
  /\ bookings_auto_increment c
     <= bookings_auto_increment (snd (run 4 (handler (Reserve ann)) [] c)).
Proof.
  intros ann bob c.
  assert (reachable c) as Hreach by (do 3 apply reachable_op; apply reachable_seeded).
  assert (fst (run 4 (post_api_bookings ann) [] c) = ReserveSucceeded 3) as Hok
    by (vm_compute; reflexivity).
  pose proof (booking_ids_are_not_reused c Hreach) as (H1 & H2 & H3 & H4).
  split; [exact Hreach|]. split; [vm_compute; reflexivity|].
  split; [exact H1|]. split; [exact H2|]. split; [exact Hok|].
  split; [exact (proj1 (H4 4 ann [] 3 Hok))|].
  split; [exact (proj2 (H4 4 ann [] 3 Hok))|].
  exact (H3 4 (Reserve ann) []).
Defined.

(** ** The joined reads in reachable states *)

Lemma insert_by_date_desc_perm r rs : Permutation (insert_by_date_desc r rs) (r :: rs).
Proof.
  induction rs as [|x rs IH]; cbn [insert_by_date_desc]; [reflexivity|].
  destruct (_ <? _); [reflexivity|]. rewrite IH. apply perm_swap.
Qed.

Lemma order_by_date_desc_perm rs : Permutation (order_by_date_desc rs) rs.
Proof.
  induction rs as [|r rs IH]; [reflexivity|]. cbn [order_by_date_desc fold_right].
  fold (order_by_date_desc rs). rewrite insert_by_date_desc_perm. constructor. exact IH.
Qed.

Lemma insert_by_date_desc_sorted r rs :
  Sorted (fun x y => b_booking_date (j_booking y) <= b_booking_date (j_booking x)) rs ->
  Sorted (fun x y => b_booking_date (j_booking y) <= b_booking_date (j_booking x))
         (insert_by_date_desc r rs).
Proof.
  induction rs as [|x rs IH]; intros Hs; cbn [insert_by_date_desc].
  - repeat constructor.
  - destruct (b_booking_date (j_booking x) <? b_booking_date (j_booking r)) eqn:E.
    + apply Nat.ltb_lt in E. constructor; [exact Hs | constructor; lia].
    + apply Nat.ltb_ge in E. inversion Hs as [|? ? Hrs Hhd]; subst.
      constructor; [apply IH; exact Hrs|].
      destruct rs as [|y rs]; cbn [insert_by_date_desc]; [constructor; exact E|].
      destruct (_ <? _); constructor; [exact E|].
      inversion Hhd; assumption.
Qed.

Lemma order_by_date_desc_sorted rs :
  Sorted (fun x y => b_booking_date (j_booking y) <= b_booking_date (j_booking x))
         (order_by_date_desc rs).
Proof.
  induction rs as [|r rs IH]; [constructor|]. cbn [order_by_date_desc fold_right].
  apply insert_by_date_desc_sorted. exact IH.
Qed.

Lemma joined_row_names_seat bs ss row :
  In row (join_bookings_seats bs ss) ->
  In (j_booking row) bs
  /\ exists s, In s ss /\ seat_key s = booking_key (j_booking row)
               /\ j_price row = s_price s /\ j_seat_type row = s_seat_type s.
Proof.
  unfold join_bookings_seats. intros H.
  apply in_flat_map in H as (b & Hb & H). apply in_map_iff in H as (s & <- & Hs).
  apply filter_In in Hs as [Hs Hk]. apply seat_matches_key in Hk.
  cbn [j_booking j_price j_seat_type]. split; [exact Hb|]. exists s. auto.
Qed.

(** With [unique_seat] and every booking naming a seat, the join has one
    row for each booking, in the order of the bookings table. *)
Lemma join_one_row_each bs ss :
  NoDup (map seat_key ss) ->
  (forall b, In b bs -> exists s, In s ss /\ seat_key s = booking_key b) ->
  map j_booking (join_bookings_seats bs ss) = bs.
Proof.
  intros Hnd. induction bs as [|b bs IH]; intros Href; [reflexivity|].
  cbn [join_bookings_seats flat_map]. fold (join_bookings_seats bs ss).
  rewrite map_app, IH by (intros x Hx; apply Href; right; exact Hx).
  destruct (Href b (or_introl eq_refl)) as (s & Hs & Hk).
  apply seat_matches_key in Hk.
  pose proof (unique_key_filter seat_key (b_seat_number b, b_movie_name b, b_show_time b)
                (seat_matches (b_seat_number b) (b_movie_name b) (b_show_time b)) ss
                (fun x H => proj1 (seat_matches_key _ _ _ x) H) Hnd) as Hone.
  destruct (in_filter_head _ _ _ Hs Hk) as (y & ys & E). rewrite E in *.
  destruct ys; [reflexivity | cbn [length] in Hone; lia].
Qed.

(** X22. GET /api/bookings changes nothing, answers 500 when its SELECT
    is refused, and otherwise, in every state reached from the seeded
    catalog by operations served one after the other, lists every booking
    exactly once, newest booking date first, each row carrying the price
    and type of the seat that the booking names. *)
Theorem get_api_bookings_lists_each_booking_once now faults c :
  reachable c ->
  let rc := run now get_api_bookings faults c in
  snd rc = c
  /\ (hd false faults = true -> fst rc = res_status_json 500 "Failed to fetch bookings")
  /\ (hd false faults = false ->
      exists rows,
        fst rc = res_json (json_rows rows)
        /\ Permutation (map j_booking rows) (bookings (tables c))
        /\ Sorted (fun x y => b_booking_date (j_booking y) <= b_booking_date (j_booking x))
                  rows
        /\ forall row, In row rows ->
             exists s, In s (seats (tables c))
                       /\ seat_key s = booking_key (j_booking row)
                       /\ j_price row = s_price s /\ j_seat_type row = s_seat_type s).
Proof.
  intros Hreach rc. subst rc. unfold get_api_bookings. run_handler.
  destruct (hd false faults); run_handler.
  - split; [reflexivity|]. split; [reflexivity | discriminate].
  - split; [reflexivity|]. split; [discriminate|]. intros _.
    eexists. split; [reflexivity|].
    destruct (reachable_integrity c Hreach) as [[_ _ _ Hnd] _].
    pose proof (reachable_references_seats c Hreach) as Href.
    split; [|split].
    + rewrite (Permutation_map j_booking (order_by_date_desc_perm _)).
      rewrite (join_one_row_each _ _ Hnd Href). reflexivity.
    + apply order_by_date_desc_sorted.
    + intros row Hrow. apply (proj1 (in_order_by_date_desc _ _)) in Hrow.
      apply joined_row_names_seat in Hrow as [_ H]. exact H.
Qed.

Lemma get_api_bookings_lists_each_booking_once_witness :
  let ann := mkRequest "Ann" "ann@example.org" "9800000000" "Batman" "10:00 AM" "A1" in
  let bob := mkRequest "Bob" "bob@example.org" "9811111111" "Spider-Man" "6:00 PM" "B10" in
  let c := snd (run 9 (handler (Reserve bob)) []
             (snd (run 5 (handler (Reserve ann)) [] seeded))) in
  reachable c
  /\ map b_booking_date (bookings (tables c)) = [5; 9]
  /\ snd (run 11 get_api_bookings [] c) = c
  /\ exists rows,
       fst (run 11 get_api_bookings [] c) = res_json (json_rows rows)
       /\ Permutation (map j_booking rows) (bookings (tables c))
       /\ Sorted (fun x y => b_booking_date (j_booking y) <= b_booking_date (j_booking x))
                 rows
       /\ forall row, In row rows ->
            exists s, In s (seats (tables c))
                      /\ seat_key s = booking_key (j_booking row)
                      /\ j_price row = s_price s /\ j_seat_type row = s_seat_type s.
Proof.
  intros ann bob c.
  assert (reachable c) as Hreach by (do 2 apply reachable_op; apply reachable_seeded).
  pose proof (get_api_bookings_lists_each_booking_once 11 [] c Hreach) as (H1 & _ & H3).
  split; [exact Hreach|]. split; [vm_compute; reflexivity|]. split; [exact H1|].
  exact (H3 eq_refl).
Defined.

(** X23. GET /api/bookings/:id changes nothing; in every state reached
    from the seeded catalog by operations served one after the other,
    with nothing refused, it answers 404 "Booking not found" exactly when
    no bookings row has the id, and otherwise answers with the one row of
    that id, joined with the price and type of its seat. *)
Theorem get_api_bookings_id_finds_the_row now bookingId c :
  reachable c ->
  let rc := run now (get_api_bookings_id bookingId) [] c in
  snd rc = c
  /\ (fst rc = NotFound
      <-> ~ exists b, In b (bookings (tables c)) /\ b_id b = bookingId)
  /\ (forall b, In b (bookings (tables c)) -> b_id b = bookingId ->
        exists s, In s (seats (tables c)) /\ seat_key s = booking_key b
                  /\ fst rc = res_json (json_row (mkJoined b (s_price s) (s_seat_type s)))).
Proof.
  intros Hreach rc. subst rc. unfold get_api_bookings_id, NotFound. run_handler.
  destruct (reachable_integrity c Hreach) as [[_ Hpk _ Hnd] _].
  pose proof (reachable_references_seats c Hreach) as Href.
  unfold join_bookings_seats.
  rewrite (filter_flat_map _ _ (fun x => b_id x =? bookingId))
    by (intros x y Hy; apply in_map_iff in Hy as (s & <- & _); reflexivity).
  assert (forall b, In b (bookings (tables c)) -> b_id b = bookingId ->
            exists s, In s (seats (tables c)) /\ seat_key s = booking_key b
              /\ flat_map
                   (fun b0 => map (fun s0 => mkJoined b0 (s_price s0) (s_seat_type s0))
                      (filter (seat_matches (b_seat_number b0) (b_movie_name b0)
                                            (b_show_time b0)) (seats (tables c))))
                   (filter (fun x => b_id x =? bookingId) (bookings (tables c)))
                 = [mkJoined b (s_price s) (s_seat_type s)]) as Hrow.
  { intros b Hb <-. rewrite (primary_key_lookup _ _ Hpk Hb). cbn [flat_map].
    rewrite app_nil_r. destruct (Href b Hb) as (s & Hs & Hk).
    pose proof (proj2 (seat_matches_key _ _ _ s) Hk) as Hhit.
    pose proof (unique_key_filter seat_key (b_seat_number b, b_movie_name b, b_show_time b)
                  (seat_matches (b_seat_number b) (b_movie_name b) (b_show_time b))
                  (seats (tables c))
                  (fun x H => proj1 (seat_matches_key _ _ _ x) H) Hnd) as Hone.
    destruct (in_filter_head _ _ _ Hs Hhit) as (y & ys & E).
    assert (In y (filter (seat_matches (b_seat_number b) (b_movie_name b) (b_show_time b))
                         (seats (tables c)))) as Hy by (rewrite E; left; reflexivity).
    apply filter_In in Hy as [Hy Hyk]. apply seat_matches_key in Hyk.
    rewrite E in *. destruct ys; [|cbn [length] in Hone; lia].
    exists y. split; [exact Hy|]. split; [exact Hyk | reflexivity]. }
  pose proof (no_row_with_id bookingId (bookings (tables c))) as Hnone.
  destruct (flat_map _ (filter _ (bookings (tables c)))) as [|row rows] eqn:E;
    run_handler; (split; [reflexivity|]); split.
  - split; [intros _ (b & Hb & Hid) | reflexivity].
    destruct (Hrow b Hb Hid) as (s & _ & _ & H). discriminate H.
  - intros b Hb Hid. destruct (Hrow b Hb Hid) as (s & _ & _ & H). discriminate H.
  - split; [discriminate|]. intros H. exfalso.
    apply Hnone in H. rewrite H in E. discriminate E.
  - intros b Hb Hid. destruct (Hrow b Hb Hid) as (s & Hs & Hk & H).
    injection H as -> ->. exists s. auto.
Qed.

Lemma get_api_bookings_id_finds_the_row_witness :
  let ann := mkRequest "Ann" "ann@example.org" "9800000000" "Batman" "10:00 AM" "A1" in
  let c := snd (run 7 (handler (Reserve ann)) [] seeded) in
  let b := mkBooking 1 "Ann" "ann@example.org" "9800000000" "Batman" "10:00 AM" "A1" 7
                     confirmed in
  reachable c /\ In b (bookings (tables c))
  /\ (exists s, In s (seats (tables c)) /\ seat_key s = booking_key b
                /\ fst (run 8 (get_api_bookings_id 1) [] c)
                   = res_json (json_row (mkJoined b (s_price s) (s_seat_type s))))
  /\ fst (run 8 (get_api_bookings_id 3) [] c) = NotFound.
Proof.
  intros ann c b.
  assert (reachable c) as Hreach by (apply reachable_op; apply reachable_seeded).
  assert (In b (bookings (tables c))) as Hb by (vm_compute; left; reflexivity).
  split; [exact Hreach|]. split; [exact Hb|]. split.
  - exact (proj2 (proj2 (get_api_bookings_id_finds_the_row 8 1 c Hreach)) b Hb eq_refl).
  - apply (proj2 (proj1 (proj2 (get_api_bookings_id_finds_the_row 8 3 c Hreach)))).
    intros (b' & Hb' & Hid).
    assert (forallb (fun x => negb (b_id x =? 3)) (bookings (tables c)) = true) as Hall
      by (vm_compute; reflexivity).
    rewrite forallb_forall in Hall. specialize (Hall b' Hb').
    rewrite Hid in Hall. discriminate Hall.
Defined.

(** ** The catalog routes *)

Lemma in_distinct x l : In x (distinct l) <-> In x l.
Proof.
  induction l as [|y l IH]; [reflexivity|]. cbn [distinct In].
  rewrite filter_In, IH, negb_true_iff, String.eqb_neq.
  destruct (string_dec y x) as [-> | Hne]; [tauto|].
  split; [tauto|]. intros [H | H]; [tauto|]. right. split; congruence.
Qed.

Lemma NoDup_distinct l : NoDup (distinct l).
Proof.
  induction l as [|y l IH]; cbn [distinct]; constructor.
  - intros H. apply filter_In in H as [_ H].
    rewrite String.eqb_refl in H. discriminate.
  - apply NoDup_filter. exact IH.
Qed.

Lemma in_insert_by {X} (key : X -> string) x y l :
  In y (insert_by key x l) <-> y = x \/ In y l.
Proof.
  induction l as [|z l IH]; cbn [insert_by In].
  - split; [intros [<- | []]; auto | intros [-> | []]; auto].
  - destruct (_ <=? _)%string; cbn [In]; [split; intros [H | H]; auto|].
    rewrite IH. tauto.
Qed.

Lemma in_order_by {X} (key : X -> string) y l : In y (order_by key l) <-> In y l.
Proof.
  induction l as [|x l IH]; [reflexivity|]. cbn [order_by fold_right In].
  fold (order_by key l). rewrite in_insert_by, IH. split; intros [H | H]; auto.
Qed.

Lemma insert_by_perm {X} (key : X -> string) x l : Permutation (insert_by key x l) (x :: l).
Proof.
  induction l as [|y l IH]; cbn [insert_by]; [reflexivity|].
  destruct (_ <=? _)%string; [reflexivity|].
  rewrite IH. apply perm_swap.
Qed.

Lemma order_by_perm {X} (key : X -> string) l : Permutation (order_by key l) l.
Proof.
  induction l as [|x l IH]; [reflexivity|]. cbn [order_by fold_right].
  fold (order_by key l). rewrite insert_by_perm. constructor. exact IH.
Qed.

Lemma leb_of_not_leb a b : (a <=? b)%string = false -> (b <=? a)%string = true.
Proof.
  intros H. destruct (String.leb_total a b) as [H' | H']; congruence.
Qed.

Lemma insert_by_sorted {X} (key : X -> string) x l :
  ascending_by key l -> ascending_by key (insert_by key x l).
Proof.
  unfold ascending_by. induction l as [|y l IH]; intros Hs; cbn [insert_by].
  - repeat constructor.
  - destruct (key x <=? key y)%string eqn:E.
    + constructor; [exact Hs | constructor; exact E].
    + inversion Hs as [|? ? Hl Hhd]; subst. constructor; [apply IH; exact Hl|].
      apply leb_of_not_leb in E.
      destruct l as [|z l]; cbn [insert_by]; [constructor; exact E|].
      inversion Hhd; subst.
      destruct (key x <=? key z)%string; constructor; assumption.
Qed.

Lemma order_by_sorted {X} (key : X -> string) l : ascending_by key (order_by key l).
Proof.
  induction l as [|x l IH]; [constructor|]. cbn [order_by fold_right].
  apply insert_by_sorted. exact IH.
Qed.

Lemma ltb_of_leb_neq a b : (a <=? b)%string = true -> a <> b -> (a <? b)%string = true.
Proof.
  unfold String.leb, String.ltb. intros H Hne.
  destruct (a ?= b)%string eqn:E; try reflexivity; try discriminate.
  apply String.compare_eq_iff in E. contradiction.
Qed.

Lemma sorted_nodup_strict l :
  ascending_by (fun x : string => x) l -> NoDup l -> strictly_ascending l.
Proof.
  unfold ascending_by, strictly_ascending.
  induction l as [|x l IH]; intros Hs Hnd; [constructor|].
  inversion Hs as [|? ? Hl Hhd]; subst. inversion Hnd as [|? ? Hx Hnd']; subst.
  constructor; [apply IH; assumption|].
  destruct l as [|y l]; constructor. inversion Hhd; subst.
  apply ltb_of_leb_neq; [assumption|]. intros ->. apply Hx. left. reflexivity.
Qed.

Lemma select_distinct_sorted l :
  strictly_ascending (order_by (fun x : string => x) (distinct l))
  /\ forall x, In x (order_by (fun x : string => x) (distinct l)) <-> In x l.
Proof.
  split.
  - apply sorted_nodup_strict; [apply order_by_sorted|].
    eapply Permutation_NoDup; [symmetry; apply order_by_perm | apply NoDup_distinct].
  - intros x. rewrite in_order_by. apply in_distinct.
Qed.

(** X9. GET /api/movies answers 500 when its SELECT is refused and
    otherwise 200 with the movie names of the seats table, each once, in
    ascending order; on an empty seats table the answer is the empty
    list. *)
Theorem get_api_movies_lists_each_movie_once c :
  get_api_movies true c = mkCatalogResponse 500 (json_fetch_error "Failed to fetch movies")
  /\ get_api_movies false c = mkCatalogResponse 200 (json_strings (select_movies (tables c)))
  /\ strictly_ascending (select_movies (tables c))
  /\ (forall movie, In movie (select_movies (tables c))
                    <-> exists s, In s (seats (tables c)) /\ s_movie_name s = movie)
  /\ (seats (tables c) = [] -> select_movies (tables c) = []).
Proof.
  split; [reflexivity|]. split; [reflexivity|]. unfold select_movies.
  destruct (select_distinct_sorted (map s_movie_name (seats (tables c)))) as [Hs Hin].
  split; [exact Hs|]. split.
  - intros movie. rewrite Hin, in_map_iff.
    split; intros (s & H1 & H2); exists s; auto.
  - intros ->. reflexivity.
Qed.

Lemma get_api_movies_lists_each_movie_once_witness :
  seats (tables empty_db) = [] /\ select_movies (tables empty_db) = [].
Proof.
  split; [reflexivity|].
  exact (proj2 (proj2 (proj2 (proj2 (get_api_movies_lists_each_movie_once empty_db))))
           eq_refl).
Defined.

(** X10. GET /api/showtimes/:movie answers 200 with the show times of the
    seats of that movie, each once, in ascending string order; for a
    movie that has no seat the answer is 200 with the empty list, not an
    error. *)
Theorem get_api_showtimes_of_movie movie c :
  get_api_showtimes movie false c
  = mkCatalogResponse 200 (json_strings (select_showtimes movie (tables c)))
  /\ strictly_ascending (select_showtimes movie (tables c))
  /\ (forall showTime,
        In showTime (select_showtimes movie (tables c))
        <-> exists s, In s (seats (tables c))
                      /\ s_movie_name s = movie /\ s_show_time s = showTime)
  /\ ((forall s, In s (seats (tables c)) -> s_movie_name s <> movie) ->
      get_api_showtimes movie false c = mkCatalogResponse 200 (json_strings [])).
Proof.
  split; [reflexivity|]. unfold get_api_showtimes, select_showtimes.
  destruct (select_distinct_sorted
              (map s_show_time (filter (fun s => (s_movie_name s =? movie)%string)
                                       (seats (tables c))))) as [Hs Hin].
  split; [exact Hs|]. split.
  - intros showTime. rewrite Hin, in_map_iff.
    split; intros (s & H1 & H2).
    + apply filter_In in H2 as [H2 H3]. apply String.eqb_eq in H3. eauto.
    + destruct H2 as [H2 H3]. exists s. split; [exact H3|].
      apply filter_In. split; [exact H1 | apply String.eqb_eq; exact H2].
  - intros Hnone.
    replace (filter (fun s => (s_movie_name s =? movie)%string) (seats (tables c)))
      with (@nil Seat); [reflexivity|].
    symmetry. destruct (filter _ _) as [|s rest] eqn:E; [reflexivity|].
    apply filter_nonempty_existsb in E as (_ & Hin' & Hhit).
    apply String.eqb_eq in Hhit. contradiction (Hnone s Hin').
Qed.

Lemma get_api_showtimes_of_movie_witness :
  (forall s, In s (seats (tables seeded)) -> s_movie_name s <> "Dune")
  /\ get_api_showtimes "Dune" false seeded = mkCatalogResponse 200 (json_strings []).
Proof.
  assert (forall s, In s (seats (tables seeded)) -> s_movie_name s <> "Dune") as H.
  { assert (forallb (fun s => negb (s_movie_name s =? "Dune")%string)
                    (seats (tables seeded)) = true) as Hb by (vm_compute; reflexivity).
    intros s Hs. rewrite forallb_forall in Hb. specialize (Hb s Hs).
    apply negb_true_iff in Hb. apply String.eqb_neq. exact Hb. }
  split; [exact H|].
  exact (proj2 (proj2 (proj2 (get_api_showtimes_of_movie "Dune" seeded))) H).
Defined.

(** X11. GET /api/seats/:movie/:showtime answers 500 when its SELECT is
    refused and otherwise 200 with one row per seat of that movie and
    show time (the seat's number, availability, type and price), ordered
    by seat number as a string; for a movie or show time without seats
    the answer is 200 with the empty list. *)
Theorem get_api_seats_lists_the_showing movie showtime c :
  let showing := filter (fun s => (s_movie_name s =? movie)%string
                                  && (s_show_time s =? showtime)%string)
                        (seats (tables c)) in
  get_api_seats movie showtime true c
  = mkCatalogResponse 500 (json_fetch_error "Failed to fetch seats")
  /\ get_api_seats movie showtime false c
     = mkCatalogResponse 200 (json_seats (select_seats movie showtime (tables c)))
  /\ Permutation (select_seats movie showtime (tables c)) (map seat_row showing)
  /\ ascending_by r_seat_number (select_seats movie showtime (tables c))
  /\ (showing = [] -> select_seats movie showtime (tables c) = []).
Proof.
  intros showing. split; [reflexivity|]. split; [reflexivity|].
  unfold select_seats. fold showing.
  split; [apply order_by_perm|]. split; [apply order_by_sorted|].
  intros ->. reflexivity.
Qed.

Lemma get_api_seats_lists_the_showing_witness :
  filter (fun s => (s_movie_name s =? "Batman")%string && (s_show_time s =? "noon")%string)
         (seats (tables seeded)) = []
  /\ select_seats "Batman" "noon" (tables seeded) = [].
Proof.
  assert (filter (fun s => (s_movie_name s =? "Batman")%string
                           && (s_show_time s =? "noon")%string)
                 (seats (tables seeded)) = []) as H by (vm_compute; reflexivity).
  split; [exact H|].
  exact (proj2 (proj2 (proj2 (proj2
           (get_api_seats_lists_the_showing "Batman" "noon" seeded)))) H).
Defined.

(** X12. The seat map shows a reservation.  After a Reserve that
    succeeded (seat present and available, no bookings row for the triple,
    nothing refused), GET /api/seats for the movie and show time of the
    request has a row for the reserved seat number, and every such row is
    flagged unavailable. *)
Theorem get_api_seats_after_reserve now req c :
  let triple := (seatNumber req, movieName req, showTime req) in
  In triple (map seat_key (seats (tables c))) ->
  (forall s, In s (seats (tables c)) -> seat_key s = triple -> s_is_available s = true) ->
  ~ In triple (map booking_key (bookings (tables c))) ->
  let c' := snd (run now (post_api_bookings req) [] c) in
  let rows := select_seats (movieName req) (showTime req) (tables c') in
  (exists row, In row rows /\ r_seat_number row = seatNumber req)
  /\ (forall row, In row rows -> r_seat_number row = seatNumber req ->
                  r_is_available row = false).
Proof.
  intros triple Hex Hav Hnew c' rows.
  destruct (post_api_bookings_accepted now req c) as (_ & _ & _ & Hex' & Htaken & _).
  - apply in_seat_keys. exact Hex.
  - intros s Hs Hhit. apply Hav; [exact Hs | apply seat_matches_key; exact Hhit].
  - apply not_in_keys_existsb. exact Hnew.
  - fold c' in Hex', Htaken. subst rows. unfold select_seats. split.
    + destruct Hex' as (s & Hs & Hhit). exists (seat_row s). split; [|
        unfold seat_matches in Hhit; apply andb_true_iff in Hhit as [Hhit _];
        apply andb_true_iff in Hhit as [Hhit _]; apply String.eqb_eq in Hhit;
        exact Hhit].
      apply in_order_by. apply in_map. apply filter_In. split; [exact Hs|].
      unfold seat_matches in Hhit. apply andb_true_iff in Hhit as [Hhit H3].
      apply andb_true_iff in Hhit as [_ H2]. rewrite H2, H3. reflexivity.
    + intros row Hrow Hnum. apply in_order_by in Hrow.
      apply in_map_iff in Hrow as (s & <- & Hs). apply filter_In in Hs as [Hs Hhit].
      cbn [seat_row r_seat_number r_is_available] in *.
      apply Htaken; [exact Hs|]. unfold seat_matches.
      apply andb_true_iff in Hhit as [H2 H3]. rewrite H2, H3, Hnum, String.eqb_refl.
      reflexivity.
Qed.

Lemma get_api_seats_after_reserve_witness :
  let req := mkRequest "Ann" "ann@example.org" "9800000000" "Batman" "10:00 AM" "A1" in
  let c' := snd (run 7 (post_api_bookings req) [] seeded) in
  In ("A1", "Batman", "10:00 AM") (map seat_key (seats (tables seeded)))
  /\ exists row, In row (select_seats "Batman" "10:00 AM" (tables c'))
                 /\ r_seat_number row = "A1".
Proof.
  intros req c'.
  assert (In ("A1", "Batman", "10:00 AM") (map seat_key (seats (tables seeded)))) as Hex.
  { apply (proj2 (in_seat_keys "A1" "Batman" "10:00 AM" (seats (tables seeded)))).
    apply (proj1 (existsb_exists (seat_matches "A1" "Batman" "10:00 AM")
                                 (seats (tables seeded)))).
    vm_compute. reflexivity. }
  assert (forall s, In s (seats (tables seeded)) ->
                    seat_key s = ("A1", "Batman", "10:00 AM") ->
                    s_is_available s = true) as Hav.
  { assert (forallb s_is_available (seats (tables seeded)) = true) as H
      by (vm_compute; reflexivity).
    intros s Hs _. rewrite forallb_forall in H. exact (H s Hs). }
  assert (~ In ("A1", "Batman", "10:00 AM") (map booking_key (bookings (tables seeded))))
    as Hnew.
  { rewrite seeded_no_bookings. intros []. }
  split; [exact Hex|].
  exact (proj1 (get_api_seats_after_reserve 7 req seeded Hex Hav Hnew)).
Defined.

(** ** The catalog in reachable states *)

Lemma filter_set_available (p : Seat -> bool) ss :
  (forall s, p (set_is_available true s) = p s) ->
  filter p (map (set_is_available true) ss) = map (set_is_available true) (filter p ss).
Proof.
  intros Hp. induction ss as [|s ss IH]; [reflexivity|]. cbn [map filter].
  rewrite Hp. destruct (p s); cbn [map]; rewrite IH; reflexivity.
Qed.

Lemma select_movies_columns t t' :
  map (set_is_available true) (seats t) = map (set_is_available true) (seats t') ->
  select_movies t = select_movies t'.
Proof.
  intros H. unfold select_movies.
  assert (forall ss, map s_movie_name ss
                     = map s_movie_name (map (set_is_available true) ss)) as E.
  { intros ss. rewrite map_map. reflexivity. }
  rewrite (E (seats t)), (E (seats t')), H. reflexivity.
Qed.

Lemma select_showtimes_columns movie t t' :
  map (set_is_available true) (seats t) = map (set_is_available true) (seats t') ->
  select_showtimes movie t = select_showtimes movie t'.
Proof.
  intros H. unfold select_showtimes.
  assert (forall ss,
            map s_show_time (filter (fun s => (s_movie_name s =? movie)%string) ss)
            = map s_show_time
                  (filter (fun s => (s_movie_name s =? movie)%string)
                          (map (set_is_available true) ss))) as E.
  { intros ss. rewrite filter_set_available; [|reflexivity].
    rewrite map_map. reflexivity. }
  rewrite (E (seats t)), (E (seats t')), H. reflexivity.
Qed.

Lemma seeded_seats_fixed : map (set_is_available true) (seats (tables seeded)) = seats (tables seeded).
Proof.
  apply (set_available_on_available (seats (tables seeded))). vm_compute. reflexivity.
Qed.

(** X13. In every reachable state GET /api/movies lists the three movies
    of the seeded catalog in alphabetical order, and GET /api/showtimes of
    each of them lists the four show times in string order, in which
    "10:00 PM" comes before "2:00 PM": no operation adds or removes a
    movie or a show time. *)
Theorem catalog_is_fixed c :
  reachable c ->
  select_movies (tables c) = ["Avengers: Endgame"; "Batman"; "Spider-Man"]
  /\ forall movie, In movie movies ->
       select_showtimes movie (tables c) = ["10:00 AM"; "10:00 PM"; "2:00 PM"; "6:00 PM"].
Proof.
  intros Hreach.
  pose proof (reachable_seat_columns c Hreach) as Hcols.
  rewrite <- seeded_seats_fixed in Hcols.
  split.
  - rewrite (select_movies_columns _ _ Hcols). vm_compute. reflexivity.
  - intros movie Hm. rewrite (select_showtimes_columns movie _ _ Hcols).
    destruct Hm as [<- | [<- | [<- | []]]]; vm_compute; reflexivity.
Qed.

Lemma catalog_is_fixed_witness :
  let c := snd (run 7 (handler (Reserve (mkRequest "Ann" "ann@example.org" "9800000000"
                                                    "Batman" "10:00 AM" "A1")))
                    [] seeded) in
  reachable c
  /\ select_movies (tables c) = ["Avengers: Endgame"; "Batman"; "Spider-Man"].
Proof.
  intros c.
  assert (reachable c) as H by (apply reachable_op; apply reachable_seeded).
  split; [exact H|].
  exact (proj1 (catalog_is_fixed c H)).
Defined.


(* ================================================================== *)
(** * Part IV: the browser client *)
(* ================================================================== *)

(** ** Regular expressions: the matcher and the strings it accepts *)

Import Browser.

Lemma append_nil_r (s : string) : (s ++ "")%string = s.
Proof. induction s as [|a s IH]; cbn; [reflexivity | rewrite IH; reflexivity]. Qed.

Lemma append_assoc (s1 s2 s3 : string) :
  ((s1 ++ s2) ++ s3)%string = (s1 ++ (s2 ++ s3))%string.
Proof. induction s1 as [|a s1 IH]; cbn; [reflexivity | rewrite IH; reflexivity]. Qed.

Lemma length_append (s1 s2 : string) :
  String.length (s1 ++ s2) = String.length s1 + String.length s2.
Proof. induction s1 as [|a s1 IH]; cbn; [reflexivity | rewrite IH; reflexivity]. Qed.

Lemma every_append p (s1 s2 : string) :
  every p (s1 ++ s2) = every p s1 && every p s2.
Proof.
  induction s1 as [|a s1 IH]; cbn; [reflexivity|].
  rewrite IH, andb_assoc. reflexivity.
Qed.

Lemma append_eq_nil (s1 s2 : string) : (s1 ++ s2)%string = "" -> s1 = "" /\ s2 = "".
Proof. destruct s1; cbn; [auto | discriminate]. Qed.

Lemma split_at n : forall s, n <= String.length s ->
  exists s1 s2, s = (s1 ++ s2)%string /\ String.length s1 = n.
Proof.
  induction n as [|n IH]; intros s H.
  - exists "", s. split; reflexivity.
  - destruct s as [|a s]; cbn in H; [lia|].
    destruct (IH s) as (s1 & s2 & -> & Hl); [lia|].
    exists (String a s1), s2. split; [reflexivity | cbn; lia].
Qed.

Lemma nullable_matches r : Client.nullable r = true <-> matches r "".
Proof.
  split.
  - induction r; cbn; intros H; try discriminate.
    + constructor.
    + apply andb_true_iff in H as [H1 H2].
      change ""%string with (""  ++ "")%string. constructor; auto.
    + apply orb_true_iff in H as [H | H];
        [apply matches_Or_l | apply matches_Or_r]; auto.
    + constructor.
  - intros H. remember ""%string as s eqn:Es.
    induction H; cbn; try reflexivity; try discriminate.
    + apply append_eq_nil in Es as [-> ->]. rewrite IHmatches1, IHmatches2; auto.
    + rewrite IHmatches; auto.
    + rewrite IHmatches; auto. apply orb_true_r.
Qed.

Lemma matches_deriv a r : forall s, matches (Client.deriv a r) s -> matches r (String a s).
Proof.
  induction r; cbn; intros s H.
  - inversion H.
  - inversion H.
  - destruct (p a) eqn:E; inversion H; subst. constructor. exact E.
  - assert (forall s, matches (Client.Cat (Client.deriv a r1) r2) s ->
                      matches (Client.Cat r1 r2) (String a s)) as Hcat.
    { intros s' H'. inversion H'; subst.
      change (String a (s1 ++ s2)) with (String a s1 ++ s2)%string.
      constructor; auto. }
    destruct (Client.nullable r1) eqn:E; [|auto].
    inversion H; subst; [auto|].
    change (String a s) with ("" ++ String a s)%string.
    constructor; [apply nullable_matches; exact E | auto].
  - inversion H; subst; [apply matches_Or_l | apply matches_Or_r]; auto.
  - inversion H; subst.
    change (String a (s1 ++ s2)) with (String a s1 ++ s2)%string.
    constructor; auto.
Qed.

Lemma deriv_matches r s' :
  matches r s' -> forall a s, s' = String a s -> matches (Client.deriv a r) s.
Proof.
  induction 1 as [ | p b Hp | r1 r2 s1 s2 H1 IH1 H2 IH2 | r1 r2 s0 H0 IH0
                   | r1 r2 s0 H0 IH0 | r | r s1 s2 H1 IH1 H2 IH2 ];
    intros a s E; cbn.
  - discriminate.
  - injection E as -> <-. rewrite Hp. constructor.
  - destruct s1 as [|b s1]; cbn in E.
    + subst s2. assert (Client.nullable r1 = true) as -> by (apply nullable_matches; exact H1).
      apply matches_Or_r. apply IH2. reflexivity.
    + injection E as -> <-.
      assert (matches (Client.Cat (Client.deriv a r1) r2) (s1 ++ s2)) as Hc
        by (constructor; [apply IH1; reflexivity | exact H2]).
      destruct (Client.nullable r1); [apply matches_Or_l|]; exact Hc.
  - apply matches_Or_l. apply IH0. exact E.
  - apply matches_Or_r. apply IH0. exact E.
  - discriminate.
  - destruct s1 as [|b s1]; cbn in E.
    + subst s2. apply (IH2 a s eq_refl).
    + injection E as -> <-. constructor; [apply IH1; reflexivity | exact H2].
Qed.

(** The matcher accepts exactly the strings the expression denotes. *)
Lemma test_matches s : forall r, Client.test r s = true <-> matches r s.
Proof.
  induction s as [|a s IH]; intros r; cbn.
  - apply nullable_matches.
  - rewrite IH. split; [apply matches_deriv|].
    intros H. eapply deriv_matches; [exact H | reflexivity].
Qed.

Lemma matches_Cat_iff r1 r2 s :
  matches (Client.Cat r1 r2) s
  <-> exists s1 s2, s = (s1 ++ s2)%string /\ matches r1 s1 /\ matches r2 s2.
Proof.
  split.
  - intros H. inversion H; subst. eauto.
  - intros (s1 & s2 & -> & H1 & H2). constructor; assumption.
Qed.

Lemma matches_Class_iff p s :
  matches (Client.Class p) s <-> exists a, s = String a "" /\ p a = true.
Proof.
  split.
  - intros H. inversion H; subst. eauto.
  - intros (a & -> & H). constructor. exact H.
Qed.

Lemma matches_Star_Class p s :
  matches (Client.Star (Client.Class p)) s <-> every p s = true.
Proof.
  split.
  - intros H. remember (Client.Star (Client.Class p)) as r eqn:Er.
    induction H; try discriminate; [reflexivity|].
    injection Er as ->. inversion H as [| ? ? Hp | | | | |]; subst. cbn.
    rewrite IHmatches2; [|reflexivity]. rewrite Hp. reflexivity.
  - induction s as [|a s IH]; cbn; intros H; [constructor|].
    apply andb_true_iff in H as [Ha Hs].
    change (String a s) with (String a "" ++ s)%string.
    constructor; [constructor; exact Ha | auto].
Qed.

Lemma matches_Plus_Class p s :
  matches (Client.Plus (Client.Class p)) s <-> s <> "" /\ every p s = true.
Proof.
  unfold Client.Plus. rewrite matches_Cat_iff. split.
  - intros (s1 & s2 & -> & H1 & H2).
    apply matches_Class_iff in H1 as (a & -> & Ha). apply matches_Star_Class in H2.
    cbn. rewrite Ha, H2. split; [discriminate | reflexivity].
  - intros [Hne H]. destruct s as [|a s]; [contradiction|]. cbn in H.
    apply andb_true_iff in H as [Ha Hs].
    exists (String a ""), s. split; [reflexivity|].
    split; [constructor; exact Ha | apply matches_Star_Class; exact Hs].
Qed.

Lemma matches_Times_Class p n : forall s,
  matches (Client.Times n (Client.Class p)) s
  <-> String.length s = n /\ every p s = true.
Proof.
  induction n as [|n IH]; intros s; cbn [Client.Times].
  - split.
    + intros H. inversion H; subst. split; reflexivity.
    + intros [H _]. destruct s; [constructor | discriminate].
  - rewrite matches_Cat_iff. split.
    + intros (s1 & s2 & -> & H1 & H2).
      apply matches_Class_iff in H1 as (a & -> & Ha). apply IH in H2 as [Hl He].
      cbn. rewrite Ha, He, Hl. split; reflexivity.
    + intros [Hl He]. destruct s as [|a s]; [discriminate|]. cbn in Hl, He.
      apply andb_true_iff in He as [Ha Hs].
      exists (String a ""), s. split; [reflexivity|].
      split; [constructor; exact Ha | apply IH; split; [lia | exact Hs]].
Qed.

Lemma matches_UpTo_Class p n : forall s,
  matches (Client.UpTo n (Client.Class p)) s
  <-> String.length s <= n /\ every p s = true.
Proof.
  induction n as [|n IH]; intros s; cbn [Client.UpTo].
  - split.
    + intros H. inversion H; subst. split; [cbn; lia | reflexivity].
    + intros [H _]. destruct s; [constructor | cbn in H; lia].
  - split.
    + intros H. inversion H as [| | | ? ? ? H1 | ? ? ? H1 | |]; subst.
      * inversion H1; subst. split; [cbn; lia | reflexivity].
      * apply matches_Cat_iff in H1 as (s1 & s2 & -> & H1 & H2).
        apply matches_Class_iff in H1 as (a & -> & Ha). apply IH in H2 as [Hl He].
        cbn. rewrite Ha, He. split; [lia | reflexivity].
    + intros [Hl He]. destruct s as [|a s]; [apply matches_Or_l; constructor|].
      cbn in Hl, He. apply andb_true_iff in He as [Ha Hs].
      apply matches_Or_r. change (String a s) with (String a "" ++ s)%string.
      constructor; [constructor; exact Ha | apply IH; split; [lia | exact Hs]].
Qed.

Lemma matches_Between_Class p lo hi s :
  lo <= hi ->
  (matches (Client.Between lo hi (Client.Class p)) s
   <-> lo <= String.length s <= hi /\ every p s = true).
Proof.
  intros Hle. unfold Client.Between. rewrite matches_Cat_iff. split.
  - intros (s1 & s2 & -> & H1 & H2).
    apply matches_Times_Class in H1 as [Hl1 He1].
    apply matches_UpTo_Class in H2 as [Hl2 He2].
    rewrite length_append, every_append, He1, He2. split; [lia | reflexivity].
  - intros [Hl He].
    destruct (split_at lo s) as (s1 & s2 & -> & Hl1); [lia|].
    rewrite length_append in Hl. rewrite every_append in He.
    apply andb_true_iff in He as [He1 He2].
    exists s1, s2. split; [reflexivity|].
    split; [apply matches_Times_Class | apply matches_UpTo_Class]; split; auto; lia.
Qed.

(** ** [validatePhone] and [validateEmail] *)

Lemma strip_separators_append s1 s2 :
  Client.strip_separators (s1 ++ s2)
  = (Client.strip_separators s1 ++ Client.strip_separators s2)%string.
Proof.
  induction s1 as [|a s1 IH]; cbn [append Client.strip_separators]; [reflexivity|].
  destruct (_ || _); rewrite IH; reflexivity.
Qed.

(** X14. [validatePhone] accepts a string exactly when what remains after
    removing white space, hyphens and parentheses is 10 to 15 characters
    long and all digits.  Separators are not counted and may stand
    anywhere: inserting one does not change the verdict, so accepted
    strings can be longer than 15 characters. *)
Theorem validatePhone_accepts phone :
  (validatePhone phone = true
   <-> 10 <= String.length (Client.strip_separators phone) <= 15
       /\ every Client.is_digit (Client.strip_separators phone) = true)
  /\ (forall a s1 s2, phone = (s1 ++ s2)%string -> is_separator a = true ->
        validatePhone (s1 ++ String a s2) = validatePhone phone).
Proof.
  split.
  - unfold validatePhone, Client.phoneRegex.
    rewrite test_matches. apply matches_Between_Class. lia.
  - intros a s1 s2 -> Ha. unfold validatePhone.
    rewrite !strip_separators_append. cbn [Client.strip_separators].
    unfold is_separator in Ha. rewrite Ha. reflexivity.
Qed.

Lemma validatePhone_accepts_witness :
  is_separator "-" = true
  /\ validatePhone "9800-000-000" = validatePhone "9800000-000"
  /\ validatePhone "9800-000-000" = true.
Proof.
  split; [reflexivity|]. split; [|reflexivity].
  exact (proj2 (validatePhone_accepts "9800000-000") "-"%char "9800" "000-000"
               eq_refl eq_refl).
Defined.

Lemma count_char_append c s1 s2 :
  count_char c (s1 ++ s2) = count_char c s1 + count_char c s2.
Proof.
  induction s1 as [|a s1 IH]; cbn; [reflexivity | rewrite IH; lia].
Qed.

Lemma not_space_at_no_at s :
  every Client.not_space_at s = true ->
  count_char "@" s = 0 /\ every (fun a => negb (Client.is_space a)) s = true.
Proof.
  induction s as [|a s IH]; cbn; intros H; [split; reflexivity|].
  apply andb_true_iff in H as [Ha Hs]. destruct (IH Hs) as [-> ->].
  unfold Client.not_space_at, Client.is_char in Ha.
  apply negb_true_iff, orb_false_iff in Ha as [Hsp Hat].
  rewrite Hsp, Hat. split; reflexivity.
Qed.

(** X15. [validateEmail] accepts exactly the strings of the form
    local@domain.tld in which the three parts are non-empty and contain
    neither white space nor "@" (the domain and the tld may contain
    further dots).  An accepted string therefore contains exactly one "@"
    and no white space. *)
Theorem validateEmail_accepts email :
  (validateEmail email = true
   <-> exists local domain tld,
         email = (local ++ "@" ++ domain ++ "." ++ tld)%string
         /\ local <> "" /\ domain <> "" /\ tld <> ""
         /\ every Client.not_space_at local = true
         /\ every Client.not_space_at domain = true
         /\ every Client.not_space_at tld = true)
  /\ (validateEmail email = true ->
      count_char "@" email = 1
      /\ every (fun a => negb (Client.is_space a)) email = true).
Proof.
  assert (validateEmail email = true
          <-> exists local domain tld,
                email = (local ++ "@" ++ domain ++ "." ++ tld)%string
                /\ local <> "" /\ domain <> "" /\ tld <> ""
                /\ every Client.not_space_at local = true
                /\ every Client.not_space_at domain = true
                /\ every Client.not_space_at tld = true) as Hiff.
  { unfold validateEmail, Client.emailRegex. rewrite test_matches. split.
    - intros H.
      apply matches_Cat_iff in H as (l & r1 & -> & Hl & H).
      apply matches_Cat_iff in H as (at_ & r2 & -> & Hat & H).
      apply matches_Cat_iff in H as (d & r3 & -> & Hd & H).
      apply matches_Cat_iff in H as (dot & t & -> & Hdot & Ht).
      apply matches_Class_iff in Hat as (a & -> & Ha).
      apply matches_Class_iff in Hdot as (b & -> & Hb).
      unfold Client.is_char in Ha, Hb.
      apply Ascii.eqb_eq in Ha. apply Ascii.eqb_eq in Hb. subst a b.
      apply matches_Plus_Class in Hl as [Hl1 Hl2].
      apply matches_Plus_Class in Hd as [Hd1 Hd2].
      apply matches_Plus_Class in Ht as [Ht1 Ht2].
      exists l, d, t. repeat split; assumption.
    - intros (l & d & t & -> & Hl1 & Hd1 & Ht1 & Hl2 & Hd2 & Ht2).
      constructor; [apply matches_Plus_Class; auto|].
      change ("@" ++ d ++ "." ++ t)%string with (String "@" "" ++ (d ++ "." ++ t))%string.
      constructor; [constructor; reflexivity|].
      constructor; [apply matches_Plus_Class; auto|].
      change ("." ++ t)%string with (String "." "" ++ t)%string.
      constructor; [constructor; reflexivity | apply matches_Plus_Class; auto]. }
  split; [exact Hiff|].
  intros H. apply Hiff in H as (l & d & t & -> & _ & _ & _ & Hl & Hd & Ht).
  destruct (not_space_at_no_at l Hl) as [Cl Sl].
  destruct (not_space_at_no_at d Hd) as [Cd Sd].
  destruct (not_space_at_no_at t Ht) as [Ct St].
  rewrite !count_char_append, !every_append, Cl, Cd, Ct, Sl, Sd, St.
  split; reflexivity.
Qed.

Lemma validateEmail_accepts_witness :
  validateEmail "ann@example.org" = true /\ count_char "@" "ann@example.org" = 1.
Proof.
  assert (validateEmail "ann@example.org" = true) as H by reflexivity.
  split; [exact H|].
  exact (proj1 (proj2 (validateEmail_accepts "ann@example.org") H)).
Defined.

(** ** The booking form *)

Lemma trimStart_head s :
  Client.trimStart s = "" \/ exists a r, Client.trimStart s = String a r
                                        /\ Client.is_space a = false.
Proof.
  induction s as [|a s IH]; cbn [Client.trimStart]; [left; reflexivity|].
  destruct (Client.is_space a) eqn:E; [exact IH | right; eauto].
Qed.

Lemma trimEnd_String a r :
  Client.trimEnd (String a r)
  = match Client.trimEnd r with
    | EmptyString => if Client.is_space a then EmptyString else String a EmptyString
    | rest' => String a rest'
    end.
Proof. reflexivity. Qed.

Lemma trimEnd_head a r :
  Client.is_space a = false ->
  Client.trimEnd (String a r) = String a (Client.trimEnd r).
Proof.
  intros H. rewrite trimEnd_String. destruct (Client.trimEnd r); [rewrite H|]; reflexivity.
Qed.

Lemma trimEnd_idempotent s : Client.trimEnd (Client.trimEnd s) = Client.trimEnd s.
Proof.
  induction s as [|a s IH]; [reflexivity|]. rewrite trimEnd_String.
  destruct (Client.trimEnd s) as [|b e] eqn:E.
  - destruct (Client.is_space a) eqn:Ha; [reflexivity|].
    rewrite trimEnd_String. cbn [Client.trimEnd]. rewrite Ha. reflexivity.
  - rewrite trimEnd_String, IH. reflexivity.
Qed.

Lemma trimStart_fixed s :
  s = "" \/ (exists a r, s = String a r /\ Client.is_space a = false) ->
  Client.trimStart s = s.
Proof.
  intros [-> | (a & r & -> & H)]; [reflexivity|]. cbn. rewrite H. reflexivity.
Qed.

(** [trim] leaves nothing for a second [trim] to remove. *)
Lemma trim_idempotent s : Client.trim (Client.trim s) = Client.trim s.
Proof.
  unfold Client.trim.
  assert (Client.trimStart (Client.trimEnd (Client.trimStart s))
          = Client.trimEnd (Client.trimStart s)) as ->.
  { apply trimStart_fixed.
    destruct (trimStart_head s) as [-> | (a & r & -> & H)]; [left; reflexivity|].
    right. rewrite (trimEnd_head a r H). eauto. }
  apply trimEnd_idempotent.
Qed.

Lemma is_empty_false s : Client.is_empty s = false <-> s <> "".
Proof. destruct s; cbn; split; congruence. Qed.

Lemma confirmBooking_valid_iff selectedSeat currentMovie currentShowTime
      userNameInput userEmailInput userPhoneInput bookingData :
  confirmBooking selectedSeat currentMovie currentShowTime
                 userNameInput userEmailInput userPhoneInput = fetch_POST bookingData
  <-> selectedSeat = Some (seatNumber bookingData)
      /\ seatNumber bookingData <> ""
      /\ bookingData = mkRequest (Client.trim userNameInput) (Client.trim userEmailInput)
                                 (Client.trim userPhoneInput)
                                 currentMovie currentShowTime (seatNumber bookingData)
      /\ Client.trim userNameInput <> ""
      /\ validateEmail (Client.trim userEmailInput) = true
      /\ validatePhone (Client.trim userPhoneInput) = true.
Proof.
  unfold confirmBooking, validateEmail, validatePhone. split.
    - destruct (Client.is_empty (Client.trim userNameInput)) eqn:En; [discriminate|].
      destruct (Client.is_empty (Client.trim userEmailInput)) eqn:Ee; [discriminate|].
      destruct (Client.is_empty (Client.trim userPhoneInput)) eqn:Ep; [discriminate|].
      cbn [orb].
      destruct selectedSeat as [[|a seat]|]; try discriminate.
      destruct (Client.test Client.emailRegex _) eqn:Hmail; [|discriminate].
      destruct (Client.test Client.phoneRegex _) eqn:Htel; [|discriminate].
      cbn [negb]. intros [= <-]. cbn [seatNumber].
      apply is_empty_false in En.
      repeat split; auto. discriminate.
    - intros (-> & Hseat & -> & Hn & Hmail & Htel). cbn [seatNumber] in *.
      apply is_empty_false in Hn. rewrite Hn.
      assert (Client.is_empty (Client.trim userEmailInput) = false) as ->.
      { destruct (Client.trim userEmailInput); [discriminate Hmail | reflexivity]. }
      assert (Client.is_empty (Client.trim userPhoneInput) = false) as ->.
      { destruct (Client.trim userPhoneInput); [discriminate Htel | reflexivity]. }
      cbn [orb]. rewrite Hmail, Htel. cbn [negb].
      destruct bookingData as [u e p m st [|a seat]]; cbn [seatNumber] in *;
        [contradiction Hseat; reflexivity | reflexivity].
Qed.

(** X16. [confirmBooking] sends a POST exactly when a non-empty seat is
    selected, the trimmed name is not empty, and the trimmed email and
    phone pass [validateEmail] and [validatePhone]; what it sends is the
    three trimmed inputs with the current movie, show time and selected
    seat.  The posted name, email and phone have no white space left at
    either end, and the phone is sent as typed, separators included. *)
Theorem confirmBooking_posts_valid_data selectedSeat currentMovie currentShowTime
        userNameInput userEmailInput userPhoneInput bookingData :
  (confirmBooking selectedSeat currentMovie currentShowTime
                  userNameInput userEmailInput userPhoneInput = fetch_POST bookingData
   <-> selectedSeat = Some (seatNumber bookingData)
       /\ seatNumber bookingData <> ""
       /\ bookingData = mkRequest (Client.trim userNameInput) (Client.trim userEmailInput)
                                  (Client.trim userPhoneInput)
                                  currentMovie currentShowTime (seatNumber bookingData)
       /\ Client.trim userNameInput <> ""
       /\ validateEmail (Client.trim userEmailInput) = true
       /\ validatePhone (Client.trim userPhoneInput) = true)
  /\ (confirmBooking selectedSeat currentMovie currentShowTime
                     userNameInput userEmailInput userPhoneInput = fetch_POST bookingData ->
      Client.trim (userName bookingData) = userName bookingData
      /\ Client.trim (email bookingData) = email bookingData
      /\ Client.trim (phone bookingData) = phone bookingData).
Proof.
  pose proof (confirmBooking_valid_iff selectedSeat currentMovie currentShowTime
                userNameInput userEmailInput userPhoneInput bookingData) as Hiff.
  split; [exact Hiff|].
  intros H. apply Hiff in H as (_ & _ & -> & _).
  cbn [userName email phone]. rewrite !trim_idempotent. repeat split; reflexivity.
Qed.

Lemma confirmBooking_posts_valid_data_witness :
  confirmBooking (Some "A1") "Batman" "10:00 AM" " Ann " "ann@example.org " "9800-000-000"
  = fetch_POST (mkRequest "Ann" "ann@example.org" "9800-000-000" "Batman" "10:00 AM" "A1")
  /\ Client.trim "Ann" = "Ann".
Proof.
  assert (confirmBooking (Some "A1") "Batman" "10:00 AM" " Ann " "ann@example.org "
                         "9800-000-000"
          = fetch_POST (mkRequest "Ann" "ann@example.org" "9800-000-000"
                                  "Batman" "10:00 AM" "A1")) as H by reflexivity.
  split; [exact H|].
  exact (proj1 (proj2 (confirmBooking_posts_valid_data _ _ _ _ _ _ _) H)).
Defined.

(** X17. Every booking that enters the table through the booking form
    carries validated contact data.  After [confirmBooking] against the
    server, under any pattern of refused statements, each bookings row
    was there before or is a confirmed booking for the selected seat of
    the current movie and show time whose name is not empty and whose
    email and phone pass [validateEmail] and [validatePhone]; when the
    form shows an alert, no request is sent and the session is as it
    was. *)
Theorem form_bookings_are_validated now faults selectedSeat currentMovie currentShowTime
        userNameInput userEmailInput userPhoneInput c :
  let out := submit_booking now faults selectedSeat currentMovie currentShowTime
                            userNameInput userEmailInput userPhoneInput c in
  (forall b, In b (bookings (tables (snd out))) ->
     In b (bookings (tables c))
     \/ (b_status b = confirmed
         /\ selectedSeat = Some (b_seat_number b)
         /\ b_movie_name b = currentMovie /\ b_show_time b = currentShowTime
         /\ b_user_name b <> ""
         /\ validateEmail (b_email b) = true
         /\ validatePhone (b_phone b) = true))
  /\ (forall message type, fst (fst out) = showAlert message type ->
        snd (fst out) = None /\ snd out = c).
Proof.
  intros out. subst out. unfold submit_booking.
  destruct (confirmBooking _ _ _ _ _ _) as [message type | d] eqn:E.
  - cbn [fst snd]. split; [auto|]. intros _ _ _. split; reflexivity.
  - apply (proj1 (confirmBooking_valid_iff _ _ _ _ _ _ _)) in E
      as (Hseat & _ & Hd & Hn & Hmail & Htel).
    destruct (post_api_bookings_cases now d faults c) as [[Ht _] | (_ & Ht & _)];
      destruct (run now (post_api_bookings d) faults c) as [r c'];
      cbn [fst snd] in *; (split; [|discriminate]); rewrite Ht; [auto|].
    cbn [bookings]. intros b Hb. apply in_app_iff in Hb as [Hb | [<- | []]]; [auto|].
    right. cbn [b_status b_seat_number b_movie_name b_show_time b_user_name b_email
                b_phone].
    rewrite Hd at 2 3 4 5 6. cbn [userName email phone movieName showTime].
    repeat split; auto.
Qed.

(** ** HTML escaping *)

Lemma replace_all_append c by_ s1 s2 :
  replace_all c by_ (s1 ++ s2) = (replace_all c by_ s1 ++ replace_all c by_ s2)%string.
Proof.
  induction s1 as [|a s1 IH]; [reflexivity|]. cbn [append replace_all].
  destruct (Ascii.eqb a c); rewrite IH; [rewrite append_assoc|]; reflexivity.
Qed.

Lemma escapeHtml_String a s : escapeHtml (String a s) = (entity a ++ escapeHtml s)%string.
Proof.
  unfold escapeHtml, entity.
  destruct (Ascii.eqb_spec a "&") as [-> | Hamp].
  { cbn [replace_all Ascii.eqb Bool.eqb]. rewrite !replace_all_append. reflexivity. }
  destruct (Ascii.eqb_spec a "<") as [-> | Hlt].
  { cbn [replace_all Ascii.eqb Bool.eqb]. rewrite !replace_all_append. reflexivity. }
  destruct (Ascii.eqb_spec a ">") as [-> | Hgt].
  { cbn [replace_all Ascii.eqb Bool.eqb]. rewrite !replace_all_append. reflexivity. }
  destruct (Ascii.eqb_spec a quote) as [-> | Hq].
  { cbn [replace_all Ascii.eqb Bool.eqb quote]. rewrite !replace_all_append. reflexivity. }
  destruct (Ascii.eqb_spec a apostrophe) as [-> | Hap].
  { cbn [replace_all Ascii.eqb Bool.eqb quote apostrophe]. reflexivity. }
  apply Ascii.eqb_neq in Hamp, Hlt, Hgt, Hq, Hap.
  cbn [replace_all]. rewrite Hamp. cbn [replace_all]. rewrite Hlt.
  cbn [replace_all]. rewrite Hgt. cbn [replace_all]. rewrite Hq.
  cbn [replace_all]. rewrite Hap. reflexivity.
Qed.

(** The five passes amount to replacing each character on its own. *)
Lemma escapeHtml_escape_each s : escapeHtml s = escape_each s.
Proof.
  induction s as [|a s IH]; [reflexivity|].
  rewrite escapeHtml_String, IH. reflexivity.
Qed.

Lemma entity_cases a :
  (is_special a = false /\ entity a = String a EmptyString)
  \/ (is_special a = true
      /\ (a = "&"%char /\ entity a = "&amp;"
          \/ a = "<"%char /\ entity a = "&lt;"
          \/ a = ">"%char /\ entity a = "&gt;"
          \/ a = quote /\ entity a = "&quot;"
          \/ a = apostrophe /\ entity a = "&#039;")).
Proof.
  unfold is_special, is_markup, entity.
  destruct (Ascii.eqb_spec a "&") as [-> | _]; [right; split; auto|].
  destruct (Ascii.eqb_spec a "<") as [-> | _]; [right; split; auto|].
  destruct (Ascii.eqb_spec a ">") as [-> | _]; [right; split; auto|].
  destruct (Ascii.eqb_spec a quote) as [-> | _]; [right; split; auto 6|].
  destruct (Ascii.eqb_spec a apostrophe) as [-> | _]; [right; split; auto 6|].
  left. split; reflexivity.
Qed.

Lemma escape_each_append s1 s2 :
  escape_each (s1 ++ s2) = (escape_each s1 ++ escape_each s2)%string.
Proof.
  induction s1 as [|a s1 IH]; [reflexivity|]. cbn [append escape_each].
  rewrite IH, append_assoc. reflexivity.
Qed.

Lemma entity_no_markup a : every (fun x => negb (is_markup x)) (entity a) = true.
Proof.
  destruct (entity_cases a) as [[Hs ->] | [_ H]].
  - cbn [every]. unfold is_special in Hs. apply orb_false_iff in Hs as [_ ->]. reflexivity.
  - destruct H as [[_ ->] | [[_ ->] | [[_ ->] | [[_ ->] | [_ ->]]]]]; reflexivity.
Qed.

Lemma entity_length a : 1 <= String.length (entity a).
Proof.
  destruct (entity_cases a) as [[_ ->] | [_ H]]; [cbn; lia|].
  destruct H as [[_ ->] | [[_ ->] | [[_ ->] | [[_ ->] | [_ ->]]]]]; cbn; lia.
Qed.

Lemma special_amp_head a : is_special a = true -> exists r, entity a = String "&" r
                                                          /\ r <> EmptyString.
Proof.
  intros H. destruct (entity_cases a) as [[E _] | [_ C]]; [congruence|].
  destruct C as [[_ ->] | [[_ ->] | [[_ ->] | [[_ ->] | [_ ->]]]]];
    eexists; (split; [reflexivity | discriminate]).
Qed.

Lemma escape_each_injective s1 s2 : escape_each s1 = escape_each s2 -> s1 = s2.
Proof.
  revert s2. induction s1 as [|a s1 IH]; intros [|b s2] H.
  - reflexivity.
  - exfalso. cbn [escape_each] in H. pose proof (entity_length b) as L.
    destruct (entity b); [cbn in L; lia | discriminate H].
  - exfalso. cbn [escape_each] in H. pose proof (entity_length a) as L.
    destruct (entity a); [cbn in L; lia | discriminate H].
  - cbn [escape_each] in H.
    assert (a = b /\ escape_each s1 = escape_each s2) as [-> E].
    { destruct (entity_cases a) as [[Ha Ea] | [Ha Ca]];
        destruct (entity_cases b) as [[Hb Eb] | [Hb Cb]].
      - rewrite Ea, Eb in H. cbn [append] in H. injection H as -> E. auto.
      - exfalso. rewrite Ea in H. destruct (special_amp_head b Hb) as (r & Er & _).
        rewrite Er in H. cbn [append] in H. injection H as -> _. discriminate Ha.
      - exfalso. rewrite Eb in H. destruct (special_amp_head a Ha) as (r & Er & _).
        rewrite Er in H. cbn [append] in H. injection H as <- _. discriminate Hb.
      - destruct Ca as [[-> Ea] | [[-> Ea] | [[-> Ea] | [[-> Ea] | [-> Ea]]]]];
          destruct Cb as [[-> Eb] | [[-> Eb] | [[-> Eb] | [[-> Eb] | [-> Eb]]]]];
          rewrite ?Ea, ?Eb in H; cbn [append] in H;
          try discriminate H; injection H as E; auto. }
    f_equal. apply IH. exact E.
Qed.

Lemma escape_each_fixed s :
  escape_each s = s <-> every (fun a => negb (is_special a)) s = true.
Proof.
  split.
  - induction s as [|a s IH]; [reflexivity|]. cbn [escape_each every]. intros H.
    destruct (entity_cases a) as [[Ha Ea] | [Ha _]].
    + rewrite Ea in H. cbn [append] in H. injection H as H.
      rewrite Ha, (IH H). reflexivity.
    + exfalso. destruct (special_amp_head a Ha) as (r & Er & Hr).
      rewrite Er in H. cbn [append] in H. injection H as _ H.
      assert (String.length (r ++ escape_each s) = String.length s) as L by (rewrite H; reflexivity).
      rewrite length_append in L.
      assert (String.length s <= String.length (escape_each s)) as L'.
      { clear. induction s as [|a s IH]; [reflexivity|]. cbn [escape_each].
        rewrite length_append. pose proof (entity_length a). cbn [String.length]. lia. }
      destruct r; [contradiction Hr; reflexivity | cbn [String.length] in L; lia].
  - induction s as [|a s IH]; [reflexivity|]. cbn [escape_each every]. intros H.
    apply andb_true_iff in H as [Ha Hs]. apply negb_true_iff in Ha.
    destruct (entity_cases a) as [[_ ->] | [Ha' _]]; [|congruence].
    cbn [append]. rewrite (IH Hs). reflexivity.
Qed.

(** X18. Whatever the input, the output of [escapeHtml] contains none of
    the characters [<], [>], double quote and apostrophe; it is the input
    with each of [&], [<], [>], double quote and apostrophe replaced by
    its entity, so the five passes never touch the output of an earlier
    pass; it is made piece by piece, and a string comes back unchanged
    exactly when it holds none of the five characters. *)
Theorem escapeHtml_output_is_inert unsafe rest :
  every (fun a => negb (is_markup a)) (escapeHtml unsafe) = true
  /\ escapeHtml unsafe = escape_each unsafe
  /\ escapeHtml (unsafe ++ rest) = (escapeHtml unsafe ++ escapeHtml rest)%string
  /\ (escapeHtml unsafe = unsafe <-> every (fun a => negb (is_special a)) unsafe = true).
Proof.
  split; [|split; [|split]].
  - rewrite escapeHtml_escape_each.
    induction unsafe as [|a s IH]; [reflexivity|]. cbn [escape_each].
    rewrite every_append, entity_no_markup, IH. reflexivity.
  - apply escapeHtml_escape_each.
  - rewrite !escapeHtml_escape_each. apply escape_each_append.
  - rewrite escapeHtml_escape_each. apply escape_each_fixed.
Qed.

(** X19. [escapeHtml] loses nothing: two different strings are escaped to
    different outputs.  Escaping is not idempotent: escaping an escaped
    string gives the same output again only if the original held none of
    the five characters. *)
Theorem escapeHtml_is_injective s1 s2 :
  (escapeHtml s1 = escapeHtml s2 -> s1 = s2)
  /\ (escapeHtml (escapeHtml s1) = escapeHtml s1
      <-> every (fun a => negb (is_special a)) s1 = true).
Proof.
  split.
  - rewrite !escapeHtml_escape_each. apply escape_each_injective.
  - rewrite !escapeHtml_escape_each. split.
    + intros H. apply escape_each_injective in H. apply escape_each_fixed. exact H.
    + intros H. apply escape_each_fixed in H. rewrite !H. reflexivity.
Qed.

Lemma escapeHtml_is_injective_witness :
  "a<b" = "a<b" /\ every (fun a => negb (is_special a)) "Ann" = true.
Proof.
  split.
  - apply (proj1 (escapeHtml_is_injective "a<b" "a<b")). reflexivity.
  - apply (proj1 (proj2 (escapeHtml_is_injective "Ann" "Ann"))). reflexivity.
Defined.
